(** * cybmf: barcode-family consensus and mate-pair layout merge

    A shallow embedding of the numerical core of cybmf
    (bmfmaw/BCFastq.pyx and the layout/merge module) together with
    the properties its design document states about it, and of the
    helpers around it: the parser of description tags, the barcode
    filter, the barcode distance of bmfmaw/BCBam.pyx and the k-mer and
    edit-distance helpers of bmfutil/Uniqueness.pyx.

    Conventions of the embedding.
    - C and Cython integers ([int], [int32_t], [char], [size_t]) are
      values of [Z].  Where a property depends on the width of the type
      the wrap-around is written out: the sum of two agreement counts in
      the merge of two positions is a sum of C [int]s ([wrap_int32]), the
      counter of the barcode distance is an [int8_t] ([wrap_int8]).  A
      conversion that the generated C checks ([size_t] from a negative
      Python integer, an unsigned byte outside 0..255) is an explicit
      failure.
    - A Python exception is [None] in the [option] monad.
    - Byte strings are [string]; [chr] and [ord] convert codes.
    - [double] values and the special functions applied to them are kept
      abstract (class [Numerics]).  *)

From Stdlib Require Import ZArith String Ascii Bool Lia QArith List.
From Stdlib Require Import DecimalString.
Import ListNotations.
Local Open Scope Z_scope.
Local Open Scope list_scope.

Set Implicit Arguments.

(* ================================================================== *)
(** * Part I.  The embedding                                           *)
(* ================================================================== *)

(** ** Python and C runtime helpers *)

Module Py.

Definition bind {A B} (o : option A) (k : A -> option B) : option B :=
  match o with
  | Some a => k a
  | None => None
  end.

(** [mapM f l]: a list comprehension whose element expression may raise. *)
Fixpoint mapM {A B} (f : A -> option B) (l : list A) : option (list B) :=
  match l with
  | [] => Some []
  | x :: xs =>
      match f x with
      | None => None
      | Some y =>
          match mapM f xs with
          | None => None
          | Some ys => Some (y :: ys)
          end
      end
  end.

(** [l[i]] for an index that the code never makes negative; an index
    past the end raises IndexError. *)
Definition getitem {A} (l : list A) (i : Z) : option A :=
  if i <? 0 then None else nth_error l (Z.to_nat i).

(** [l[:k]] and [l[k:]] for [k >= 0] (out-of-range bounds are clipped). *)
Definition slice_to {A} (l : list A) (k : Z) : list A := firstn (Z.to_nat k) l.
Definition slice_from {A} (l : list A) (k : Z) : list A := skipn (Z.to_nat k) l.
(** [l[a:a+n]] *)
Definition slice {A} (l : list A) (a n : Z) : list A :=
  firstn (Z.to_nat n) (skipn (Z.to_nat a) l).

(** [sep.join(parts)] *)
Fixpoint join (sep : string) (parts : list string) : string :=
  match parts with
  | [] => EmptyString
  | [p] => p
  | p :: rest => p ++ sep ++ join sep rest
  end.

(** [[x] * n]: a non-positive count gives the empty list. *)
Definition replicate {A} (x : A) (n : Z) : list A := repeat x (Z.to_nat n).

(** [str(i)] of an integer. *)
Definition str (z : Z) : string := NilZero.string_of_int (Z.to_int z).

Definition chr (c : Z) : ascii := ascii_of_N (Z.to_N c).
Definition ord (a : ascii) : Z := Z.of_N (N_of_ascii a).

(** [array('B', codes).tostring()]: every code must be an unsigned byte,
    otherwise the array constructor raises OverflowError. *)
Definition array_B_tostring (codes : list Z) : option string :=
  if forallb (fun c => (0 <=? c) && (c <? 256)) codes
  then Some (string_of_list_ascii (map chr codes))
  else None.

(** Conversion of a Python integer to [size_t]: a negative value raises
    OverflowError. *)
Definition to_size_t (z : Z) : option Z := if z <? 0 then None else Some z.

(** [itertools.groupby] over a list of keys, with [len(list(g))] taken of
    every group: the runs of equal adjacent keys and their lengths. *)
Fixpoint groupby_len (keys : list Z) : list (Z * nat) :=
  match keys with
  | [] => []
  | k :: rest =>
      match groupby_len rest with
      | (k', n) :: runs =>
          if k =? k' then (k, S n) :: runs else (k, 1%nat) :: (k', n) :: runs
      | [] => [(k, 1%nat)]
      end
  end.

End Py.

Notation "x <- c1 ;; c2" := (Py.bind c1 (fun x => c2))
  (at level 61, c1 at next level, right associativity).

(** The value that a C [int] holds after the addition of two [int]s:
    the sum reduced to 32 bits, two's complement. *)
Definition wrap_int32 (z : Z) : Z := (z + 2147483648) mod 4294967296 - 2147483648.
Arguments wrap_int32 z : simpl never.

(** ** The quality codec *)

(** The element expression [i + 33 if(i < 94) else 126] shared by
    [PyArr2QualStr] and [PyLayout.cGetQualString]. *)
Definition ph2chr_code (i : Z) : Z := if i <? 94 then i + 33 else 126.

(** [PyArr2QualStr]: the loop variable is a [size_t]. *)
Definition PyArr2QualStr (qualArr : list Z) : option string :=
  codes <- Py.mapM (fun q => i <- Py.to_size_t q ;; Some (ph2chr_code i)) qualArr ;;
  Py.array_B_tostring codes.

(** Modelled from the spec: the decoder of a quality string ([cs_to_ph],
    declared outside the given sources) subtracts 33 from every character
    code. *)
Definition cs_to_ph (s : string) : list Z :=
  map (fun c => Py.ord c - 33) (list_ascii_of_string s).

(** What it means for the string [s] to encode the qualities [qs]: one
    character per quality, of code [min(q, 93) + 33], every character
    printable, and decoding to the capped qualities. *)
Definition encodes (qs : list Z) (s : string) : Prop :=
  list_ascii_of_string s = map (fun q => Py.chr (Z.min q 93 + 33)) qs
  /\ Forall (fun c => 33 <= Py.ord c <= 126) (list_ascii_of_string s)
  /\ cs_to_ph s = map (fun q => Z.min q 93) qs.

(** [PyArr2PVString] and [PyArr2FAString]. *)
Definition PyArr2PVString (qualArr : list Z) : string :=
  "|PV=" ++ Py.join "," (map Py.str qualArr).
Definition PyArr2FAString (agreeArr : list Z) : string :=
  "|FA=" ++ Py.join "," (map Py.str agreeArr).

(** ** Layout positions *)

Record LayoutPos := mkLayoutPos {
  pos : Z;          (* reference coordinate, -1 if "I" *)
  readPos : Z;      (* in-read coordinate, -1 if "D" *)
  base : Z;         (* ascii code of the base *)
  operation : Z;    (* ascii code of the cigar operation *)
  quality : Z;
  agreement : Z;
  merged : bool;
  mergeAgreed : Z   (* 1 = not merged, 0 = merge did not agree, 2 = merge agreed *)
}.

(** [LayoutPos.__init__]; 78 is "N". *)
Definition LayoutPos_init (pos readPos base operation quality agreement : Z)
    (merged : bool) (mergeAgreed : Z) : LayoutPos :=
  {| pos := pos;
     readPos := readPos;
     operation := operation;
     base := base;
     quality := if negb (base =? 78) then quality else 0;
     agreement := agreement;
     merged := merged;
     mergeAgreed := mergeAgreed |}.

Definition ismapped (p : LayoutPos) : bool := operation p =? 77.
Definition getMergeAgreed (p : LayoutPos) : bool := mergeAgreed p =? 2.
Definition getMergeSet (p : LayoutPos) : bool := negb (mergeAgreed p =? 1).

(** ** Layouts *)

Record PyLayout := mkPyLayout {
  positions : list LayoutPos;
  firstMapped : Z;
  isMerged : bool
}.

(** [cGetRefPosForFirstPos]: the reference coordinate that the first layout
    slot would have, from the first "M" position.  A layout without any "M"
    position leaves the loop without a return; the C function then yields
    its zero-initialised result. *)
Fixpoint firstRefPos_from (count : Z) (ps : list LayoutPos) : Z :=
  match ps with
  | [] => 0
  | i :: rest =>
      if operation i =? 77 then pos i - count
      else firstRefPos_from (count + 1) rest
  end.

Definition cGetRefPosForFirstPos (L : PyLayout) : Z :=
  firstRefPos_from 0 (positions L).

Definition cGetAgreement (L : PyLayout) : list Z :=
  map agreement (filter (fun p => agreement p >? -1) (positions L)).

Definition cGetQual (L : PyLayout) : list Z :=
  map quality
      (filter (fun p => (quality p >? -1) && negb (operation p =? 66)) (positions L)).

Definition cGetQualString (L : PyLayout) : option string :=
  Py.array_B_tostring (map ph2chr_code (cGetQual L)).

Definition getOperations (L : PyLayout) : list Z := map operation (positions L).

Section CigarString.
(** [opLenToStr] is declared outside the given sources; it renders one
    run (operation code, length) of a CIGAR string. *)
Variable opLenToStr : Z -> nat -> string.

Definition cGetCigarString (L : PyLayout) : string :=
  String.concat "" (map (fun kg => opLenToStr (fst kg) (snd kg))
                        (Py.groupby_len (getOperations L))).
End CigarString.

(** ** Merging two positions and two layouts *)

Section Merge.
(** [MergeAgreedQualities] and [MergeDiscQualities] are declared outside
    the given sources; they combine the qualities of two observations of
    one base. *)
Variable MergeAgreedQualities : Z -> Z -> Z.
Variable MergeDiscQualities : Z -> Z -> Z.

Definition cMergePositions (pos1 pos2 : LayoutPos) : LayoutPos :=
  if base pos1 =? base pos2 then
    if operation pos2 =? operation pos1 then
      LayoutPos_init (pos pos1) (readPos pos1) (base pos1) (operation pos1)
        (MergeAgreedQualities (quality pos1) (quality pos2))
        (wrap_int32 (agreement pos1 + agreement pos2)) true 2
    else if operation pos2 =? 83 then        (* pos2.operation is "S" *)
      LayoutPos_init (pos pos1) (readPos pos1) (base pos1) (operation pos1)
        (MergeAgreedQualities (quality pos1) (quality pos2))
        (wrap_int32 (agreement pos1 + agreement pos2)) true 2
    else if operation pos1 =? 83 then
      LayoutPos_init (pos pos2) (readPos pos1) (base pos1) (operation pos2)
        (MergeAgreedQualities (quality pos1) (quality pos2))
        (wrap_int32 (agreement pos1 + agreement pos2)) true 2
    else
      if negb (operation pos1 =? 68) && negb (operation pos1 =? 73)
      then LayoutPos_init (pos pos1) (readPos pos1) 78 78 (-137) (-137) true 0
      else LayoutPos_init (pos pos1) (readPos pos1) 78 78 (-137) (-137) true 0
  else if operation pos1 =? operation pos2 then
    if quality pos1 >? quality pos2 then
      LayoutPos_init (pos pos1) (readPos pos1) (base pos1) (operation pos1)
        (MergeDiscQualities (quality pos1) (quality pos2)) (agreement pos1)
        true 0
    else
      LayoutPos_init (pos pos1) (readPos pos1) (base pos2) (operation pos1)
        (MergeDiscQualities (quality pos2) (quality pos1)) (agreement pos2)
        true 0
  else
    if (base pos2 =? 78) || (operation pos2 =? 83) then
      LayoutPos_init (pos pos1) (readPos pos1) (base pos1) (operation pos1)
        (quality pos1) (agreement pos1) true 0
    else
      LayoutPos_init (pos pos1) (readPos pos1) (base pos1) 78 (-137) (-137)
        true 0.

(** The loop [for pos1 in L1[offset:]] of [cMergeLayoutsToList]: [rest1]
    is what is left of [L1[offset:]], [count] the cursor into [L2] and
    [acc] the list built so far.  [L2[count]] past the end of [L2] raises
    IndexError. *)
Fixpoint overlap_walk (rest1 : list LayoutPos) (L2 : list LayoutPos)
    (count : nat) (acc : list LayoutPos) : option (list LayoutPos * nat) :=
  match rest1 with
  | [] => Some (acc, count)
  | pos1 :: rest =>
      match nth_error L2 count with
      | None => None
      | Some pos2 =>
          if operation pos1 =? operation pos2 then
            overlap_walk rest L2 (S count) (acc ++ [cMergePositions pos1 pos2])
          else if operation pos1 =? 68 then
            overlap_walk rest L2 count (acc ++ [pos1])
          else if operation pos2 =? 68 then
            overlap_walk rest L2 (S count) (acc ++ [pos2])
          else
            overlap_walk rest L2 (S count) (acc ++ [cMergePositions pos1 pos2])
      end
  end.

Record ListBool := mkListBool { List_ : list LayoutPos; Bool_ : bool }.

(** [cMergeLayoutsToList].  The exchange of the two layouts is
    [tmpPos = L1; L1 = L2; del tmpPos]: it rebinds [L1] only, [L2] keeps
    its value. *)
Definition cMergeLayoutsToList (L1 L2 : PyLayout) : option ListBool :=
  let L1 := if cGetRefPosForFirstPos L1 >? cGetRefPosForFirstPos L2
            then L2 else L1 in
  let offset := cGetRefPosForFirstPos L2 - cGetRefPosForFirstPos L1 in
  let ret_List := Py.slice_to (positions L1) offset in
  r <- overlap_walk (Py.slice_from (positions L1) offset) (positions L2)
                    0%nat ret_List ;;
  let '(ret_List, count) := r in
  Some {| List_ := ret_List ++ skipn count (positions L2); Bool_ := true |}.

End Merge.

(** Modelled from the spec: the two quality-merge helpers
    ([MergeAgreedQualities], [MergeDiscQualities]) are not part of the given
    sources.  The design document fixes what they return by a contract:
    agreement boosts confidence (the merged quality is at least the larger
    input quality) and disagreement penalises it (the merged quality is at
    most the larger input quality). *)
Definition quality_merge_contract (agreed disc : Z -> Z -> Z) : Prop :=
  (forall q1 q2, Z.max q1 q2 <= agreed q1 q2)
  /\ (forall q1 q2, disc q1 q2 <= Z.max q1 q2).

(** What [LayoutPos.__init__] guarantees of every position it builds. *)
Definition init_invariant (p : LayoutPos) : Prop :=
  base p = 78 -> quality p = 0.

(** Layouts used to exercise the merge: three reference positions 100..102
    read as "A", "C", "G" at quality 30, and the same stretch with the
    middle base deleted. *)
Definition mapped (refpos readpos b : Z) : LayoutPos :=
  LayoutPos_init refpos readpos b 77 30 1 false 1.
Definition deleted (refpos : Z) : LayoutPos :=
  LayoutPos_init refpos (-1) 68 68 (-1) (-1) false 1.
Definition layout_of (ps : list LayoutPos) : PyLayout :=
  {| positions := ps; firstMapped := 0; isMerged := false |}.
Definition layout_ACG : PyLayout :=
  layout_of [mapped 100 0 65; mapped 101 1 67; mapped 102 2 71].
Definition layout_AdG : PyLayout :=
  layout_of [mapped 100 0 65; deleted 101; mapped 102 1 71].
Definition layout_AC : PyLayout :=
  layout_of [mapped 100 0 65; mapped 101 1 67].
Definition layout_C : PyLayout :=
  layout_of [mapped 101 0 67].

(** ** From an aligned read to its layout *)

(** The fields of a pysam [AlignedSegment] that the layout is built from. *)
Record AlignedSegment := mkAlignedSegment {
  cigar : list (Z * Z);          (* (operation code, length) *)
  rec_pos : Z;                   (* 0-based reference start *)
  query_sequence : string;
  query_qualities : list Z;
  tag_PV : option (list Z);
  tag_FA : option (list Z);
  tag_MP : option Z
}.

(** [CigarOpToCigarChar] is declared outside the given sources; it is
    modelled on the table of operation characters "MIDNSHP=X" that the
    docstring of [LayoutPos] lists, indexed by the BAM operation code. *)
Definition CigarOpToCigarChar (op : Z) : Z :=
  nth (Z.to_nat op) [77; 73; 68; 78; 83; 72; 80; 61; 88] 0.

(** pysam's [aligned_pairs]: the list of (query position, reference
    position) pairs of a read.  A match (M, =, X) gives both positions, an
    insertion or a soft clip a query position only, a deletion or a
    reference skip a reference position only; hard clips and padding give no
    pair. *)
Definition zrange (l : Z) : list Z := map Z.of_nat (List.seq 0 (Z.to_nat l)).

Definition op_consumes_both (op : Z) : bool := (op =? 0) || (op =? 7) || (op =? 8).
Definition op_consumes_query (op : Z) : bool := (op =? 1) || (op =? 4).
Definition op_consumes_ref (op : Z) : bool := (op =? 2) || (op =? 3).

Definition pairs_of_op (op l refpos qpos : Z) : list (option Z * option Z) :=
  if op_consumes_both op then
    map (fun i => (Some (qpos + i), Some (refpos + i))) (zrange l)
  else if op_consumes_query op then
    map (fun i => (Some (qpos + i), None)) (zrange l)
  else if op_consumes_ref op then
    map (fun i => (None, Some (refpos + i))) (zrange l)
  else [].

Definition next_refpos (op l refpos : Z) : Z :=
  if op_consumes_both op || op_consumes_ref op then refpos + l else refpos.
Definition next_qpos (op l qpos : Z) : Z :=
  if op_consumes_both op || op_consumes_query op then qpos + l else qpos.

Fixpoint aligned_pairs_from (refpos qpos : Z) (cig : list (Z * Z))
    : list (option Z * option Z) :=
  match cig with
  | [] => []
  | (op, l) :: rest =>
      pairs_of_op op l refpos qpos
      ++ aligned_pairs_from (next_refpos op l refpos) (next_qpos op l qpos) rest
  end.

Definition aligned_pairs (rec : AlignedSegment) : list (option Z * option Z) :=
  aligned_pairs_from (rec_pos rec) 0 (cigar rec).

(** [quals] of [CigarOpToLayoutPosList]: the PV tag, or the read's
    qualities when [rec.opt("PV")] raises KeyError. *)
Definition quals_of (rec : AlignedSegment) : list Z :=
  match tag_PV rec with
  | Some q => q
  | None => query_qualities rec
  end.

(** [agrees] of [CigarOpToLayoutPosList]: the FA tag.  When
    [rec.opt("FA")] raises KeyError the handler evaluates
    [array('i', [1] * len(rec.sequence))]; an [AlignedSegment] has the
    attributes [seq] and [query_sequence] but no attribute [sequence], so
    the handler raises AttributeError, which nothing catches. *)
Definition agrees_of (rec : AlignedSegment) : option (list Z) := tag_FA rec.

(** The values of the FA tag of a read that carries one. *)
Definition FA_values (rec : AlignedSegment) : list Z :=
  match tag_FA rec with
  | Some a => a
  | None => []
  end.

(** [ord(rec.seq[x0])] *)
Definition base_at (rec : AlignedSegment) (x0 : Z) : option Z :=
  c <- Py.getitem (list_ascii_of_string (query_sequence rec)) x0 ;;
  Some (Py.ord c).

(** The element expression of the comprehension in
    [CigarOpToLayoutPosList], for one pair [(x0, x1)].  Indexing the
    sequence with [None] (third alternative) and a missing reference
    position for a deletion raise TypeError. *)
Definition layout_pos_of_pair (CigarChar : Z) (rec : AlignedSegment)
    (agrees : list Z) (x0x1 : option Z * option Z) : option LayoutPos :=
  match x0x1 with
  | (Some x0, Some x1) =>
      b <- base_at rec x0 ;;
      q <- Py.getitem (quals_of rec) x0 ;;
      a <- Py.getitem agrees x0 ;;
      Some (LayoutPos_init x1 x0 b 77 q a false 1)
  | (Some x0, None) =>
      b <- base_at rec x0 ;;
      q <- Py.getitem (quals_of rec) x0 ;;
      a <- Py.getitem agrees x0 ;;
      Some (LayoutPos_init (-1) x0 b CigarChar q a false 1)
  | (None, x1) =>
      if CigarChar =? 83 then None
      else match x1 with
           | Some x1 => Some (LayoutPos_init x1 (-1) 68 68 (-1) (-1) false 1)
           | None => None
           end
  end.

(** [CigarOpToLayoutPosList]: [quals] and [agrees] are fetched before the
    comprehension runs. *)
Definition CigarOpToLayoutPosList (offset cigarOp cigarLen : Z)
    (rec : AlignedSegment) : option (list LayoutPos) :=
  agrees <- agrees_of rec ;;
  Py.mapM (layout_pos_of_pair (CigarOpToCigarChar cigarOp) rec agrees)
          (Py.slice (aligned_pairs rec) offset cigarLen).

(** The loop of [makeLayoutTuple] over [rec.cigar]. *)
Fixpoint makeLayoutTuple_loop (rec : AlignedSegment) (cig : list (Z * Z))
    (offset firstMapped : Z) (PosList : list LayoutPos)
    : option (list LayoutPos * Z) :=
  match cig with
  | [] => Some (PosList, firstMapped)
  | (op, l) :: rest =>
      new <- CigarOpToLayoutPosList offset op l rec ;;
      makeLayoutTuple_loop rec rest (offset + l)
        (if (op =? 0) && (firstMapped <? 0) then offset else firstMapped)
        (PosList ++ new)
  end.

Definition makeLayoutTuple (rec : AlignedSegment) : option (list LayoutPos * Z) :=
  makeLayoutTuple_loop rec (cigar rec) 0 (-1) [].

(** [PyLayout.fromread] *)
Definition fromread (rec : AlignedSegment) : option PyLayout :=
  r <- makeLayoutTuple rec ;;
  Some {| positions := fst r;
          firstMapped := snd r;
          isMerged := match tag_MP rec with
                      | Some v => v =? 84
                      | None => false
                      end |}.

(** Well-formed reads: the CIGAR uses the operations of the layout model
    (M = 0, I = 1, D = 2, S = 4) with positive lengths, no two adjacent
    entries have the same operation, the read carries an FA tag, and the
    sequence, the qualities and the agreements of the tag cover the query
    bases of the CIGAR. *)
Fixpoint adjacent_distinct (ops : list Z) : bool :=
  match ops with
  | a :: (b :: _) as rest => negb (a =? b) && adjacent_distinct rest
  | _ => true
  end.

Definition layout_op (op : Z) : bool :=
  (op =? 0) || (op =? 1) || (op =? 2) || (op =? 4).

Definition cigar_well_formed (cig : list (Z * Z)) : bool :=
  forallb (fun ol => layout_op (fst ol) && (0 <? snd ol)) cig
  && adjacent_distinct (map fst cig).

Fixpoint query_length (cig : list (Z * Z)) : Z :=
  match cig with
  | [] => 0
  | (op, l) :: rest => next_qpos op l 0 + query_length rest
  end.

Definition has_FA_tag (rec : AlignedSegment) : bool :=
  match tag_FA rec with
  | Some _ => true
  | None => false
  end.

Definition read_well_formed (rec : AlignedSegment) : bool :=
  cigar_well_formed (cigar rec)
  && (query_length (cigar rec) <=? Z.of_nat (String.length (query_sequence rec)))
  && (query_length (cigar rec) <=? Z.of_nat (length (quals_of rec)))
  && has_FA_tag rec
  && (query_length (cigar rec) <=? Z.of_nat (length (FA_values rec))).

(** The operation list that a CIGAR stands for, as runs of operation
    characters. *)
Definition cigar_runs (cig : list (Z * Z)) : list (Z * nat) :=
  map (fun ol => (CigarOpToCigarChar (fst ol), Z.to_nat (snd ol))) cig.

(** The sequence of operation characters that a CIGAR expands to. *)
Definition cigar_expansion (cig : list (Z * Z)) : list Z :=
  concat (map (fun ol => repeat (CigarOpToCigarChar (fst ol)) (Z.to_nat (snd ol))) cig).

(** A read with the CIGAR 2S3M1I2M2D1M1S that carries no PV and no FA
    tag, and the same read with the two tags of a consensus of three
    reads. *)
Definition read_2S3M1I2M2D1M1S : AlignedSegment :=
  {| cigar := [(4, 2); (0, 3); (1, 1); (0, 2); (2, 2); (0, 1); (4, 1)];
     rec_pos := 100;
     query_sequence := "ACGTACGTAC";
     query_qualities := [30; 31; 32; 33; 34; 35; 36; 37; 38; 39];
     tag_PV := None;
     tag_FA := None;
     tag_MP := None |}.

Definition read_2S3M1I2M2D1M1S_tagged : AlignedSegment :=
  {| cigar := [(4, 2); (0, 3); (1, 1); (0, 2); (2, 2); (0, 1); (4, 1)];
     rec_pos := 100;
     query_sequence := "ACGTACGTAC";
     query_qualities := [30; 31; 32; 33; 34; 35; 36; 37; 38; 39];
     tag_PV := Some [90; 93; 96; 99; 102; 105; 108; 111; 114; 117];
     tag_FA := Some [3; 3; 3; 3; 3; 2; 3; 3; 3; 3];
     tag_MP := None |}.

(** ** The statistical base caller (Fisher flatten) *)

(** The floating-point side of the base caller.  [CHI2_FROM_PHRED],
    [INV_CHI2_FROM_PHRED], [argmax4], [ARGMAX_CONV], [igamc_pvalues] and
    [arrmax] are declared outside the given sources and work on C doubles;
    they are kept abstract, together with the type of doubles and its
    addition.  [igamc_phred count chisum] stands for the value of the cast
    [<int32_t>(-10 * c_log10(igamc_pvalues(count, chisum)) + 0.5)], whatever
    the double under the cast is (finite, infinite or not a number). *)
Class Numerics := {
  double : Type;
  dzero : double;
  dadd : double -> double -> double;
  CHI2_FROM_PHRED : Z -> double;
  INV_CHI2_FROM_PHRED : Z -> double;
  argmax4 : double -> double -> double -> double -> Z;
  ARGMAX_CONV : Z -> Z;
  igamc_phred : Z -> double -> Z;
  arrmax : list Z -> Z -> Z -> list Z
}.

(** C arrays: a read or an update outside the allocated block is undefined
    in C; here a read gives the default and an update changes nothing. *)
Definition array_get {A} (d : A) (a : list A) (i : Z) : A := nth (Z.to_nat i) a d.

Fixpoint array_update {A} (a : list A) (i : nat) (f : A -> A) : list A :=
  match a, i with
  | [], _ => []
  | x :: rest, O => f x :: rest
  | x :: rest, S j => x :: array_update rest j f
  end.

(** [SeqQual]: the result of the flattening. *)
Record SeqQual := mkSeqQual {
  Seq : list Z;
  Agree : list Z;
  Qual : list Z
}.

(** The recalibrated quality written to [ret.Qual]:
    [tmpQual if(tmpQual > 0) else 3114]. *)
Definition eliminate_underflow (tmpQual : Z) : Z :=
  if tmpQual >? 0 then tmpQual else 3114.

Section FisherFlatten.
Context {num : Numerics}.

(** The variables that the first loop of [cFisherFlatten] carries from one
    iteration to the next: [ndIndex] and the two arrays of [Sums]. *)
Record FlattenState := mkFlattenState {
  ndIndex : Z;
  counts : list Z;
  chiSums : list double
}.

(** [Sums.chiSums[i] += x] *)
Definition chi_add (chi : list double) (i : Z) (x : double) : list double :=
  array_update chi (Z.to_nat i) (fun y => dadd y x).

(** What one observation (base [b], quality [q], at [offset]) does to
    [Sums.chiSums], and the value it gives to [ndIndex]; [None] in the
    branch of "N", which assigns nothing. *)
Definition observe_chi (rLen offset b q : Z) (chi : list double)
    : option (Z * list double) :=
  let rLen2 := 2 * rLen in
  let rLen3 := 3 * rLen in
  if b =? 67 then                               (* "C" *)
    let nd := offset + rLen in
    let chi := chi_add chi nd (CHI2_FROM_PHRED q) in
    let invchi := INV_CHI2_FROM_PHRED q in
    let chi := chi_add chi offset invchi in
    let chi := chi_add chi (offset + rLen2) invchi in
    let chi := chi_add chi (offset + rLen3) invchi in
    Some (nd, chi)
  else if b =? 71 then                          (* "G" *)
    let nd := offset + rLen2 in
    let chi := chi_add chi nd (CHI2_FROM_PHRED q) in
    let invchi := INV_CHI2_FROM_PHRED q in
    let chi := chi_add chi offset invchi in
    let chi := chi_add chi (offset + rLen) invchi in
    let chi := chi_add chi (offset + rLen3) invchi in
    Some (nd, chi)
  else if b =? 84 then                          (* "T" *)
    let nd := offset + rLen3 in
    let chi := chi_add chi nd (CHI2_FROM_PHRED q) in
    let invchi := INV_CHI2_FROM_PHRED q in
    let chi := chi_add chi offset invchi in
    let chi := chi_add chi (offset + rLen) invchi in
    let chi := chi_add chi (offset + rLen2) invchi in
    Some (nd, chi)
  else if b =? 65 then                          (* "A" *)
    let nd := offset in
    let chi := chi_add chi offset (CHI2_FROM_PHRED q) in
    let invchi := INV_CHI2_FROM_PHRED q in
    let chi := chi_add chi (offset + rLen) invchi in
    let chi := chi_add chi (offset + rLen2) invchi in
    let chi := chi_add chi (offset + rLen3) invchi in
    Some (nd, chi)
  else None.                                    (* "N": pass *)

(** The body of the first loop for one [query_index].  The statement
    [Sums.counts[ndIndex] += 1] follows the chain of alternatives and runs
    in every iteration, with whatever [ndIndex] holds. *)
Definition flatten_step (rLen : Z) (Seqs Quals : list Z)
    (st : FlattenState) (query_index : Z) : FlattenState :=
  let offset := query_index mod rLen in
  let st' :=
    match observe_chi rLen offset (array_get 0 Seqs query_index)
                      (array_get 0 Quals query_index) (chiSums st) with
    | Some (nd, chi) => {| ndIndex := nd; counts := counts st; chiSums := chi |}
    | None => st
    end in
  {| ndIndex := ndIndex st';
     counts := array_update (counts st') (Z.to_nat (ndIndex st')) (fun c => c + 1);
     chiSums := chiSums st' |}.

Definition flatten_init (rLen : Z) : FlattenState :=
  {| ndIndex := 0;
     counts := repeat 0 (Z.to_nat (4 * rLen));
     chiSums := repeat dzero (Z.to_nat (4 * rLen)) |}.

(** The first loop run over the observations [indices]; the source runs it
    over [0 .. rLen * nRecs - 1]. *)
Definition accumulate (rLen : Z) (Seqs Quals : list Z) (indices : list Z)
    : FlattenState :=
  fold_left (flatten_step rLen Seqs Quals) indices (flatten_init rLen).

(** The observations of a family that are left when those with base "N"
    are removed. *)
Definition without_N (Seqs : list Z) (indices : list Z) : list Z :=
  filter (fun query_index => negb (array_get 0 Seqs query_index =? 78)) indices.

(** The body of the second loop: the call at one position. *)
Definition call_argmax (rLen : Z) (Sums : FlattenState) (query_index : Z) : Z :=
  argmax4 (array_get dzero (chiSums Sums) query_index)
          (array_get dzero (chiSums Sums) (query_index + rLen))
          (array_get dzero (chiSums Sums) (query_index + 2 * rLen))
          (array_get dzero (chiSums Sums) (query_index + 3 * rLen)).

Definition call_tmpQual (rLen : Z) (Sums : FlattenState) (query_index : Z) : Z :=
  let nd := query_index + call_argmax rLen Sums query_index * rLen in
  igamc_phred (array_get 0 (counts Sums) nd) (array_get dzero (chiSums Sums) nd).

Definition call_agree (rLen : Z) (Sums : FlattenState) (query_index : Z) : Z :=
  let nd := query_index + call_argmax rLen Sums query_index * rLen in
  array_get 0 (counts Sums) nd.

Definition cFisherFlatten (Seqs Quals : list Z) (rLen nRecs : Z) : SeqQual :=
  let numbases := rLen * nRecs in
  let Sums := accumulate rLen Seqs Quals (zrange numbases) in
  {| Seq := map (fun i => ARGMAX_CONV (call_argmax rLen Sums i)) (zrange rLen);
     Qual := map (fun i => eliminate_underflow (call_tmpQual rLen Sums i)) (zrange rLen);
     Agree := map (fun i => call_agree rLen Sums i) (zrange rLen) |}.

End FisherFlatten.

(** The cell of [Sums.counts] and [Sums.chiSums] that an observation of
    base [b] at [offset] selects: the value that the branch of [b] in the
    first loop of [cFisherFlatten] assigns to [ndIndex]; [None] where the
    branch assigns nothing. *)
Definition selected_cell (rLen offset b : Z) : option Z :=
  if b =? 67 then Some (offset + rLen)
  else if b =? 71 then Some (offset + 2 * rLen)
  else if b =? 84 then Some (offset + 3 * rLen)
  else if b =? 65 then Some offset
  else None.

(** The observations among [indices] that select the cell [c]. *)
Definition observations_of_cell (rLen : Z) (Seqs : list Z) (c : Z) (indices : list Z)
    : list Z :=
  filter (fun query_index =>
            match selected_cell rLen (query_index mod rLen)
                                (array_get 0 Seqs query_index) with
            | Some c' => c' =? c
            | None => false
            end) indices.

(** The observations among [indices] that show base [b] at position
    [pos] of their read. *)
Definition observations_of_base (rLen : Z) (Seqs : list Z) (pos b : Z) (indices : list Z)
    : list Z :=
  filter (fun query_index =>
            (query_index mod rLen =? pos) && (array_get 0 Seqs query_index =? b)) indices.

(** ** Consensus records of a barcode family *)

Module Fq.
(** The fields of a [pFastqProxy] that the base callers read. *)
Record pFastqProxy := mkpFastqProxy {
  name : string;
  comment : string;
  sequence : string;
  quality : string
}.
End Fq.

(** The line feed of the record templates. *)
Definition nl : string := String (ascii_of_nat 10) EmptyString.

(** The template ["@%s %s%s\n%s\n+\n%s\n"] filled with a name, a comment,
    a tag string, a sequence and a quality string. *)
Definition fastq_record (name comment TagString sequence quality : string) : string :=
  "@" ++ name ++ " " ++ comment ++ TagString ++ nl
      ++ sequence ++ nl ++ "+" ++ nl ++ quality ++ nl.

(** Modelled from the spec: [pFastqProxy.getQualArray] is declared outside
    the given sources; it is the decoded quality string of the record. *)
Definition getQualArray (rec : Fq.pFastqProxy) : list Z := cs_to_ph (Fq.quality rec).

(** [cs_to_ia] is declared outside the given sources; the comparisons of
    its result with 65, 67, 71 and 84 show that it yields the character
    codes of the sequence. *)
Definition cs_to_ia (s : string) : list Z := map Py.ord (list_ascii_of_string s).

(** [np.array(rows, dtype=...)] as a two-dimensional array: rows of
    different lengths raise ValueError. *)
Definition np_array_2d (rows : list (list Z)) : option (list (list Z)) :=
  match rows with
  | [] => Some []
  | r0 :: _ =>
      if forallb (fun r => (length r =? length r0)%nat) rows then Some rows else None
  end.

Definition cRecListTo2DCharArray (R : list Fq.pFastqProxy) : option (list (list Z)) :=
  np_array_2d (map (fun rec => cs_to_ia (Fq.sequence rec)) R).

(** [np.array([cs_to_ph(rec.quality) for rec in R], dtype=np.int32)] *)
Definition quals_2d (R : list Fq.pFastqProxy) : option (list (list Z)) :=
  np_array_2d (map (fun rec => cs_to_ph (Fq.quality rec)) R).

(** The tag string of a family of one record:
    ["|FM=1|ND=0|FA=" + "1" + "".join([",1"] * (rLen - 1)) + PV]. *)
Definition singleton_TagString (rLen : Z) (PVString : string) : string :=
  "|FM=1|ND=0|FA=" ++ "1" ++ Py.join "" (Py.replicate ",1"%string (rLen - 1)) ++ PVString.

(** [array.tostring()] of an array of bytes that was filled from C. *)
Definition bytes_tostring (codes : list Z) : string :=
  string_of_list_ascii (map Py.chr codes).

Definition sum_Z (l : list Z) : Z := fold_left Z.add l 0.

Section FastFisherFlattening.
Context {num : Numerics}.

(** [MaxOriginalQuals] *)
Definition MaxOriginalQuals (arr2D : list Z) (nRecs rLen : Z) : list Z :=
  arrmax arr2D nRecs rLen.

(** [cFastFisherFlattening]; [name] is [None] when the caller leaves it
    out.  [R[0]] of an empty family raises IndexError.  The flattening reads
    [rLen] bases and qualities per record from the two arrays, which is
    defined only when every sequence and every quality string has the
    length of the first sequence. *)
Definition cFastFisherFlattening (R : list Fq.pFastqProxy) (name : option string)
    : option string :=
  match R with
  | [] => None
  | R0 :: _ =>
      let name := match name with
                  | None => Fq.name R0
                  | Some n => n
                  end in
      let nRecs := Z.of_nat (length R) in
      let rLen := Z.of_nat (String.length (Fq.sequence R0)) in
      if nRecs =? 1 then
        let rec := R0 in
        let TagString := singleton_TagString rLen (PyArr2PVString (getQualArray rec)) in
        Some (fastq_record name (Fq.comment rec) TagString
                           (Fq.sequence rec) (Fq.quality rec))
      else
        seqArray <- cRecListTo2DCharArray R ;;
        quals <- quals_2d R ;;
        if negb (forallb (fun r => (length r =? Z.to_nat rLen)%nat) quals) then None
        else
          let ret := cFisherFlatten (concat seqArray) (concat quals) rLen nRecs in
          let newSeq := bytes_tostring (Seq ret) in
          let phredQualsStr :=
            bytes_tostring (MaxOriginalQuals (concat quals) nRecs rLen) in
          let PVString := PyArr2PVString (Qual ret) in
          let FAString := PyArr2FAString (Agree ret) in
          let ND := nRecs * rLen - sum_Z (Agree ret) in
          let TagString :=
            ("|FM=" ++ Py.str nRecs ++ "|ND=" ++ Py.str ND ++ PVString ++ FAString)%string in
          Some ("@" ++ name ++ " " ++ Fq.comment R0 ++ TagString ++ nl
                    ++ newSeq ++ nl ++ "+" ++ nl ++ phredQualsStr ++ nl)%string
  end.

End FastFisherFlattening.

(** ** The fast comparison of a family *)

(** Comparisons of doubles in [cCompareFqRecsFast] are made in exact
    rational arithmetic: the operands are integers scaled by a threshold,
    and for the thresholds 0.1, 0.2 and 0.9 the rounded product with an
    integer compares with an integer exactly as the rational product does. *)
Definition Qltb (x y : Q) : bool := negb (Qle_bool y x).

(** [np.argmax] (first index of the maximum), [np.amax], [np.min]. *)
Fixpoint argmax_from (best_i best i : Z) (v : list Z) : Z :=
  match v with
  | [] => best_i
  | x :: rest =>
      if x >? best then argmax_from i x (i + 1) rest
      else argmax_from best_i best (i + 1) rest
  end.

Definition np_argmax (v : list Z) : Z :=
  match v with
  | [] => 0
  | x :: rest => argmax_from 0 x 1 rest
  end.

Definition np_max (v : list Z) : option Z :=
  match v with
  | [] => None
  | x :: rest => Some (fold_left Z.max rest x)
  end.

Definition np_min (v : list Z) : option Z :=
  match v with
  | [] => None
  | x :: rest => Some (fold_left Z.min rest x)
  end.

(** [qualX = ccopy(quals); qualX[seqArray != b] = 0; nsum(qualX, 0)] at
    column [i]. *)
Definition masked_column_sum (seqArray quals : list (list Z)) (b : Z) (i : nat) : Z :=
  sum_Z (map (fun sq => if nth i (fst sq) 0 =? b then nth i (snd sq) 0 else 0)
             (combine seqArray quals)).

(** Column [i] of [qualAllSum]. *)
Definition qualAllSum_column (seqArray quals : list (list Z)) (i : nat) : list Z :=
  [masked_column_sum seqArray quals 65 i; masked_column_sum seqArray quals 67 i;
   masked_column_sum seqArray quals 71 i; masked_column_sum seqArray quals 84 i].

(** [ARGMAX_TRANSLATE_STRING]: the bytes 0..3 become "ACGT". *)
Definition ARGMAX_TRANSLATE (i : Z) : Z := nth (Z.to_nat i) [65; 67; 71; 84] i.

Definition fast_newSeq (seqArray quals : list (list Z)) (rLen : nat) : list Z :=
  map (fun i => ARGMAX_TRANSLATE (np_argmax (qualAllSum_column seqArray quals i)))
      (List.seq 0 rLen).

Definition fast_amax (seqArray quals : list (list Z)) (rLen : nat) : list Z :=
  map (fun i => match np_max (qualAllSum_column seqArray quals i) with
                | Some m => m
                | None => 0
                end)
      (List.seq 0 rLen).

(** [FA]: for every position the number of records whose base is the
    consensus base. *)
Definition fast_FA (R : list Fq.pFastqProxy) (newSeq : list Z) (rLen : nat) : list Z :=
  map (fun i => sum_Z (map (fun rec =>
                              if nth i (cs_to_ia (Fq.sequence rec)) 0 =? nth i newSeq 0
                              then 1 else 0) R))
      (List.seq 0 rLen).

(** The test that nulls a family. *)
Definition family_discordant (minFA maxFA nRecs : Z) (minFAFrac minMaxFA : Q) : bool :=
  Qltb (inject_Z minFA) (minFAFrac * inject_Z nRecs)
  || Qltb (inject_Z maxFA) (minMaxFA * inject_Z nRecs).

Definition string_translate (table : ascii -> ascii) (s : string) : string :=
  string_of_list_ascii (map table (list_ascii_of_string s)).

Definition cQualArr2PVString (qualArr : list Z) : string :=
  "|PV=" ++ Py.join "," (map Py.str qualArr).
Definition cQualArr2FAString (qualArr : list Z) : string :=
  "|FA=" ++ Py.join "," (map Py.str qualArr).

Section FastCompare.
(** [PH2CHR_TRANS], the translation table from a Phred byte to its
    character, is declared outside the given sources. *)
Variable PH2CHR_TRANS : ascii -> ascii.

Definition cQualArr2QualStr (qualArr : list Z) : option string :=
  s <- Py.array_B_tostring
         (map (fun tmpInt => if tmpInt <? 94 then tmpInt else 93) qualArr) ;;
  Some (string_translate PH2CHR_TRANS s).

(** [cCompareFqRecsFast].  The masks [qualX[seqArray != b] = 0] need the
    two arrays to have one shape. *)
Definition cCompareFqRecsFast (R : list Fq.pFastqProxy) (name : option string)
    (minPVFrac minFAFrac minMaxFA : Q) : option string :=
  match R with
  | [] => None
  | R0 :: _ =>
      let name := match name with
                  | None => Fq.name R0
                  | Some n => n
                  end in
      let nRecs := Z.of_nat (length R) in
      let rLen := Z.of_nat (String.length (Fq.sequence R0)) in
      if nRecs =? 1 then
        let phredQuals := getQualArray R0 in
        let TagString := singleton_TagString rLen (cQualArr2PVString phredQuals) in
        Some (fastq_record name (Fq.comment R0) TagString
                           (Fq.sequence R0) (Fq.quality R0))
      else
        seqArray <- cRecListTo2DCharArray R ;;
        quals <- quals_2d R ;;
        if negb (forallb (fun r => (length r =? Z.to_nat rLen)%nat) quals) then None
        else
          let newSeq := fast_newSeq seqArray quals (Z.to_nat rLen) in
          let phredQuals := fast_amax seqArray quals (Z.to_nat rLen) in
          tmpFlt <- np_max phredQuals ;;
          let PVFracDivisor := (minPVFrac * inject_Z tmpFlt)%Q in
          let phredQuals :=
            map (fun q => if Qltb (inject_Z q) PVFracDivisor then 0 else q) phredQuals in
          let FA := fast_FA R newSeq (Z.to_nat rLen) in
          minFA <- np_min FA ;;
          maxFA <- np_max FA ;;
          let phredQuals :=
            if family_discordant minFA maxFA nRecs minFAFrac minMaxFA
            then map (fun _ => 0) phredQuals
            else phredQuals in
          let ND := nRecs * rLen - sum_Z FA in
          let phredQuals := map (fun q => if q <? 0 then 0 else q) phredQuals in
          let PVString := cQualArr2PVString phredQuals in
          phredQualsStr <- cQualArr2QualStr phredQuals ;;
          let FAString := cQualArr2FAString FA in
          let TagString :=
            ("|FM=" ++ Py.str nRecs ++ "|ND=" ++ Py.str ND ++ FAString ++ PVString)%string in
          Some ("@" ++ name ++ " " ++ Fq.comment R0 ++ TagString ++ nl
                    ++ bytes_tostring newSeq ++ nl ++ "+" ++ nl ++ phredQualsStr ++ nl)%string
  end.

End FastCompare.

(** A family is well shaped when it has a record, its first sequence has a
    base, and every sequence and quality string has the length of the first
    sequence. *)
Definition family_well_shaped (R : list Fq.pFastqProxy) : bool :=
  match R with
  | [] => false
  | R0 :: _ =>
      (0 <? String.length (Fq.sequence R0))%nat
      && forallb (fun rec =>
                    (String.length (Fq.sequence rec) =? String.length (Fq.sequence R0))%nat
                    && (String.length (Fq.quality rec) =? String.length (Fq.sequence R0))%nat)
                 R
  end.

(** The consensus, the agreement counts and their extremes, as
    [cCompareFqRecsFast] computes them for a well-shaped family. *)
Definition family_rLen (R : list Fq.pFastqProxy) : nat :=
  match R with
  | [] => 0%nat
  | R0 :: _ => String.length (Fq.sequence R0)
  end.

Definition family_newSeq (R : list Fq.pFastqProxy) : list Z :=
  fast_newSeq (map (fun rec => cs_to_ia (Fq.sequence rec)) R)
              (map (fun rec => cs_to_ph (Fq.quality rec)) R) (family_rLen R).

Definition family_FA (R : list Fq.pFastqProxy) : list Z :=
  fast_FA R (family_newSeq R) (family_rLen R).

Definition list_min (l : list Z) : Z :=
  match np_min l with
  | Some m => m
  | None => 0
  end.
Definition list_max (l : list Z) : Z :=
  match np_max l with
  | Some m => m
  | None => 0
  end.

Definition family_amax (R : list Fq.pFastqProxy) : list Z :=
  fast_amax (map (fun rec => cs_to_ia (Fq.sequence rec)) R)
            (map (fun rec => cs_to_ph (Fq.quality rec)) R) (family_rLen R).

(** The qualities that [cCompareFqRecsFast] emits for a well-shaped family
    of two records or more: the value of [phredQuals] when the PV tag and
    the quality string are written. *)
Definition family_phredQuals (R : list Fq.pFastqProxy)
    (minPVFrac minFAFrac minMaxFA : Q) : list Z :=
  let phredQuals := family_amax R in
  let PVFracDivisor := (minPVFrac * inject_Z (list_max phredQuals))%Q in
  let phredQuals :=
    map (fun q => if Qltb (inject_Z q) PVFracDivisor then 0 else q) phredQuals in
  let phredQuals :=
    if family_discordant (list_min (family_FA R)) (list_max (family_FA R))
                         (Z.of_nat (length R)) minFAFrac minMaxFA
    then map (fun _ => 0) phredQuals
    else phredQuals in
  map (fun q => if q <? 0 then 0 else q) phredQuals.

(** The record that [cCompareFqRecsFast] writes for a family of two
    records or more, from its name, the comment of the first record, the
    agreement counts, the qualities of the PV tag, the consensus sequence
    and the quality string. *)
Definition consensus_record (name comment : string) (nRecs rLen : Z)
    (FA phredQuals newSeq : list Z) (phredQualsStr : string) : string :=
  "@" ++ name ++ " " ++ comment
      ++ ("|FM=" ++ Py.str nRecs ++ "|ND=" ++ Py.str (nRecs * rLen - sum_Z FA)
                 ++ cQualArr2FAString FA ++ cQualArr2PVString phredQuals)
      ++ nl ++ bytes_tostring newSeq ++ nl ++ "+" ++ nl ++ phredQualsStr ++ nl.

Definition record_name (R0 : Fq.pFastqProxy) (name : option string) : string :=
  match name with
  | None => Fq.name R0
  | Some n => n
  end.

(** Example records and an identity-plus-33 translation table. *)
Definition ph2chr_plus33 (c : ascii) : ascii := Py.chr (Py.ord c + 33).
Definition fq (s q : string) : Fq.pFastqProxy :=
  {| Fq.name := "r"; Fq.comment := "c"; Fq.sequence := s; Fq.quality := q |}.
Definition family_discordant_example : list Fq.pFastqProxy :=
  [fq "AAAA" "IIII"; fq "CCCC" "IIII"; fq "GGGG" "IIII"].
Definition family_concordant_example : list Fq.pFastqProxy :=
  [fq "AAAA" "????"; fq "AAAA" "????"; fq "AAAA" "????"; fq "AAAT" "???+"].

(** Numerics over the integers for examples: the chi-square of a quality
    is the quality itself, a base that was not observed contributes nothing,
    and [argmax4] is the first index of the maximum. *)
Definition numerics_example : Numerics :=
  {| double := Z; dzero := 0; dadd := Z.add;
     CHI2_FROM_PHRED := fun q => q; INV_CHI2_FROM_PHRED := fun _ => 0;
     argmax4 := fun a c g t => np_argmax [a; c; g; t];
     ARGMAX_CONV := ARGMAX_TRANSLATE;
     igamc_phred := fun _ chi => chi;
     arrmax := fun arr _ _ => arr |}.

(** ** Further queries on layouts *)

(** [array('h', values)] and [array('i', values)]: a value outside the
    range of the element type raises OverflowError. *)
Definition array_h (values : list Z) : option (list Z) :=
  if forallb (fun v => (-32768 <=? v) && (v <=? 32767)) values
  then Some values else None.
Definition array_i (values : list Z) : option (list Z) :=
  if forallb (fun v => (-2147483648 <=? v) && (v <=? 2147483647)) values
  then Some values else None.

(** [getSeqArr] and [getSeq]: the bases that are no deletion. *)
Definition getSeqArr (L : PyLayout) : list Z :=
  map base
      (filter (fun p => negb (operation p =? 68) && (agreement p >? -1)) (positions L)).

Definition getSeq (L : PyLayout) : option string :=
  Py.array_B_tostring (getSeqArr L).

(** [getAlignmentStart]: the reference position of the first "M"
    position; like [cGetRefPosForFirstPos] it leaves its loop without a
    return when there is none. *)
Fixpoint alignment_start_of (ps : list LayoutPos) : Z :=
  match ps with
  | [] => 0
  | i :: rest => if operation i =? 77 then pos i else alignment_start_of rest
  end.

Definition getAlignmentStart (L : PyLayout) : Z := alignment_start_of (positions L).

(** [cGetLastRefPos].  The C variable [countFromMPos] is incremented
    before anything was assigned to it; the value it holds when the
    function starts is the parameter [countFromMPos0]. *)
Fixpoint lastRefPos_loop (lastMPos countFromMPos : Z) (ps : list LayoutPos) : Z :=
  match ps with
  | [] => lastMPos + countFromMPos
  | i :: rest =>
      if operation i =? 77 then lastRefPos_loop (pos i) 0 rest
      else lastRefPos_loop lastMPos (countFromMPos + 1) rest
  end.

Definition cGetLastRefPos (countFromMPos0 : Z) (L : PyLayout) : Z :=
  lastRefPos_loop 0 countFromMPos0 (positions L).

(** [LayoutsOverlap] *)
Definition LayoutsOverlap (countFromMPos0 : Z) (L1 L2 : PyLayout) : bool :=
  let pos1 := cGetRefPosForFirstPos L1 in
  let pos2 := cGetRefPosForFirstPos L2 in
  let end1 := cGetLastRefPos countFromMPos0 L1 in
  let end2 := cGetLastRefPos countFromMPos0 L2 in
  if (pos1 >? end2) || (pos2 >? end1) then false else true.

Definition cGetMergedPositions (L : PyLayout) : option (list Z) :=
  array_h (map readPos
               (filter (fun lpos => merged lpos && (readPos lpos >? -1)) (positions L))).

Definition cGetMergeAgreements (L : PyLayout) : option (list Z) :=
  array_h (map readPos
               (filter (fun lpos => getMergeAgreed lpos && (readPos lpos >? -1))
                       (positions L))).

Definition cGetGenomicDiscordantPositions (L : PyLayout) : option (list Z) :=
  if negb (isMerged L) then array_i []
  else array_i (map pos
                    (filter (fun p => (mergeAgreed p =? 0) && (pos p >=? 0))
                            (positions L))).

Definition cGetReadDiscordantPositions (L : PyLayout) : option (list Z) :=
  if negb (isMerged L) then array_h []
  else array_h (map readPos
                    (filter (fun p => (mergeAgreed p =? 0) && (readPos p >=? 0))
                            (positions L))).

(** [test_merge_success]: a merged layout without any "N" operation. *)
Definition test_merge_success (L : PyLayout) : bool :=
  if negb (isMerged L) then false
  else forallb (fun c => negb (c =? 78)) (getOperations L).

(** The positions that a read's CIGAR entries stand for, written without
    the checks of the indexing: what [CigarOpToLayoutPosList] builds for a
    pair when every index is in range. *)
Definition read_position (rec : AlignedSegment) (CigarChar : Z)
    (x0x1 : option Z * option Z) : LayoutPos :=
  match x0x1 with
  | (Some x0, Some x1) =>
      LayoutPos_init x1 x0 (nth (Z.to_nat x0) (cs_to_ia (query_sequence rec)) 0) 77
        (nth (Z.to_nat x0) (quals_of rec) 0) (nth (Z.to_nat x0) (FA_values rec) 0)
        false 1
  | (Some x0, None) =>
      LayoutPos_init (-1) x0 (nth (Z.to_nat x0) (cs_to_ia (query_sequence rec)) 0)
        CigarChar
        (nth (Z.to_nat x0) (quals_of rec) 0) (nth (Z.to_nat x0) (FA_values rec) 0)
        false 1
  | (None, Some x1) => LayoutPos_init x1 (-1) 68 68 (-1) (-1) false 1
  | (None, None) => LayoutPos_init (-1) (-1) 68 68 (-1) (-1) false 1
  end.

Fixpoint read_positions_from (rec : AlignedSegment) (refpos qpos : Z)
    (cig : list (Z * Z)) : list LayoutPos :=
  match cig with
  | [] => []
  | (op, l) :: rest =>
      map (read_position rec (CigarOpToCigarChar op)) (pairs_of_op op l refpos qpos)
      ++ read_positions_from rec (next_refpos op l refpos) (next_qpos op l qpos) rest
  end.

(** For a CIGAR with an "M" entry: the number of layout positions before
    the first "M" position and the length of reference that the entries
    before it consume. *)
Fixpoint before_first_match (cig : list (Z * Z)) : option (Z * Z) :=
  match cig with
  | [] => None
  | (op, l) :: rest =>
      if op =? 0 then Some (0, 0)
      else match before_first_match rest with
           | None => None
           | Some (n, r) => Some (l + n, next_refpos op l 0 + r)
           end
  end.

(** A read whose sequence has exactly the bases that its CIGAR consumes and
    whose qualities and agreements are not negative. *)
Definition read_exact (rec : AlignedSegment) : bool :=
  read_well_formed rec
  && (query_length (cigar rec) =? Z.of_nat (String.length (query_sequence rec)))
  && forallb (fun q => 0 <=? q) (quals_of rec)
  && forallb (fun a => 0 <=? a) (FA_values rec).

(** The qualities that a layout stores for the bases [codes] with the
    qualities [quals]: 0 under an "N". *)
Definition stored_qualities (codes quals : list Z) : list Z :=
  map (fun bq => if fst bq =? 78 then 0 else snd bq) (combine codes quals).

(** ** Barcodes *)

(** [needle in hay] for two strings. *)
Fixpoint str_contains (needle hay : string) : bool :=
  String.prefix needle hay
  || match hay with
     | EmptyString => false
     | String _ rest => str_contains needle rest
     end.

(** [s * n] for a string: a non-positive count gives the empty string. *)
Definition str_mul (s : string) (n : Z) : string :=
  String.concat "" (Py.replicate s n).

(** [BarcodePasses] *)
Definition BarcodePasses (barcode : string) (hpLimit : Z) : bool :=
  negb (str_contains "N" barcode
        || str_contains (str_mul "A" hpLimit) barcode
        || str_contains (str_mul "C" hpLimit) barcode
        || str_contains (str_mul "G" hpLimit) barcode
        || str_contains (str_mul "T" hpLimit) barcode).

(** ** The tags of a description *)

(** The characters that [str.strip()] removes. *)
Definition is_space (c : ascii) : bool :=
  (Py.ord c =? 32) || ((9 <=? Py.ord c) && (Py.ord c <=? 13)).

Fixpoint str_lstrip (s : string) : string :=
  match s with
  | EmptyString => EmptyString
  | String c rest => if is_space c then str_lstrip rest else s
  end.

Fixpoint str_rstrip (s : string) : string :=
  match s with
  | EmptyString => EmptyString
  | String c rest =>
      match str_rstrip rest with
      | EmptyString => if is_space c then EmptyString else String c EmptyString
      | kept => String c kept
      end
  end.

(** [s.strip()] *)
Definition str_strip (s : string) : string := str_rstrip (str_lstrip s).

(** [s.split(sep)] for a separator of one character: the fields between
    the occurrences of [sep], at least one field. *)
Fixpoint str_split (sep : ascii) (s : string) : list string :=
  match s with
  | EmptyString => [EmptyString]
  | String c rest =>
      if Ascii.eqb c sep then EmptyString :: str_split sep rest
      else match str_split sep rest with
           | [] => [String c EmptyString]
           | field :: fields => String c field :: fields
           end
  end.

(** A dictionary with strings as keys, in the order of the first
    insertion of every key. *)
Definition tag_dict : Type := list (string * string).

Fixpoint dict_set (k v : string) (d : tag_dict) : tag_dict :=
  match d with
  | [] => [(k, v)]
  | (k', v') :: rest =>
      if String.eqb k' k then (k, v) :: rest else (k', v') :: dict_set k v rest
  end.

Fixpoint dict_get (k : string) (d : tag_dict) : option string :=
  match d with
  | [] => None
  | (k', v') :: rest => if String.eqb k' k then Some v' else dict_get k rest
  end.

(** The loop of [GetDescriptionTagDict]:
    [tagDict[pair[0]] = pair[1].split(' ')[0]]; an entry without "=" raises
    IndexError. *)
Fixpoint fill_tagDict (tagSetEntries : list (list string)) (tagDict : tag_dict)
    : option tag_dict :=
  match tagSetEntries with
  | [] => Some tagDict
  | pair_ :: rest =>
      v <- nth_error pair_ 1 ;;
      value <- nth_error (str_split " " v) 0 ;;
      key <- nth_error pair_ 0 ;;
      fill_tagDict rest (dict_set key value tagDict)
  end.

(** [GetDescriptionTagDict] *)
Definition GetDescriptionTagDict (readDesc : string) : option tag_dict :=
  let tagSetEntries :=
    tl (map (fun i => str_split "=" (str_strip i)) (str_split "|" readDesc)) in
  fill_tagDict tagSetEntries [].

(** The tag strings that the two base callers append to the comment of the
    first record: [cCompareFqRecsFast] writes FM, ND, FA, PV and
    [cFastFisherFlattening] writes FM, ND, PV, FA. *)
Definition fast_TagString (nRecs ND : Z) (FA phredQuals : list Z) : string :=
  "|FM=" ++ Py.str nRecs ++ "|ND=" ++ Py.str ND
         ++ cQualArr2FAString FA ++ cQualArr2PVString phredQuals.

Definition fisher_TagString (nRecs ND : Z) (Qual Agree : list Z) : string :=
  "|FM=" ++ Py.str nRecs ++ "|ND=" ++ Py.str ND
         ++ PyArr2PVString Qual ++ PyArr2FAString Agree.

(** Text that can stand as the key or the value of a tag: no white space,
    no "|" and no "=". *)
Definition tag_char (c : ascii) : bool :=
  negb (is_space c) && negb (Ascii.eqb c "|") && negb (Ascii.eqb c "=").

Fixpoint str_forall (p : ascii -> bool) (s : string) : bool :=
  match s with
  | EmptyString => true
  | String c rest => p c && str_forall p rest
  end.

(** The text ["|key=value"] of tags, one after the other. *)
Definition tag_field (kv : string * string) : string := fst kv ++ "=" ++ snd kv.

Fixpoint tags_string (tags : list (string * string)) : string :=
  match tags with
  | [] => EmptyString
  | kv :: rest => "|" ++ tag_field kv ++ tags_string rest
  end.

(** Tags whose keys and values are such text. *)
Definition tags_clean (tags : list (string * string)) : Prop :=
  Forall (fun kv => str_forall tag_char (fst kv) = true
                    /\ str_forall tag_char (snd kv) = true) tags.

(** ** The distance of two barcodes (bmfmaw/BCBam.pyx) *)

(** The value that an [int8_t] holds after an addition. *)
Definition wrap_int8 (z : Z) : Z := (z + 128) mod 256 - 128.

(** [StringHD]: the two strings are read at the indices below [bLen], the
    result is counted in an [int8_t].  The loop counter is a [size_t]; the
    model covers a [bLen] that is not negative. *)
Definition StringHD (str1 str2 : list Z) (bLen : Z) : Z :=
  fold_left (fun ret index =>
               if negb (array_get 0 str1 index =? array_get 0 str2 index)
               then wrap_int8 (ret + 1) else ret)
            (zrange bLen) 0.

(** ** Reference k-mers and edit distances (bmfutil/Uniqueness.pyx) *)

(** [s[a:b]] for bounds that are not negative. *)
Definition str_slice (s : string) (a b : Z) : string :=
  substring (Z.to_nat a) (Z.to_nat (b - a)) s.

Section KmersToCheck.
(** [pysam.FastaFile(ref).fetch(contig, start, end)] *)
Variable fetch : string -> Z -> Z -> option string.

(** [GetKmersToCheck]; [bedline] holds a contig and two coordinates. *)
Definition GetKmersToCheck (k : Z) (bedline : string * Z * Z) (padding : Z)
    : option (list string) :=
  let padding := if padding <? 0 then k else padding in
  let contig := fst (fst bedline) in
  let start := snd (fst bedline) - padding in
  let end_ := snd bedline + padding in
  regionStr <- fetch contig start end_ ;;
  Some (map (fun i => str_slice regionStr i (i + k)) (zrange (end_ - start - k))).

End KmersToCheck.

(** The character class of the pattern ['NM:i:[0-%s]' % i]: the range from
    "0" to the first digit of [i], and the further digits of [i] as single
    characters. *)
Definition nm_class (i : Z) (c : ascii) : bool :=
  match list_ascii_of_string (Py.str i) with
  | [] => false
  | d1 :: others =>
      ((Py.ord "0" <=? Py.ord c) && (Py.ord c <=? Py.ord d1))
      || existsb (Ascii.eqb c) others
  end.

(** A match of the pattern at the start of [s]. *)
Definition nm_match_here (cls : ascii -> bool) (s : string) : bool :=
  match s with
  | String "N" (String "M" (String ":" (String "i" (String ":" (String c _))))) => cls c
  | _ => false
  end.

(** [pattern.search(s) is not None] *)
Fixpoint nm_search (cls : ascii -> bool) (s : string) : bool :=
  nm_match_here cls s
  || match s with
     | EmptyString => false
     | String _ rest => nm_search cls rest
     end.

(** [PassesNM]: [mmDict] has the keys 0..199, another [maxNM] raises
    KeyError. *)
Definition PassesNM (rStr : string) (maxNM : Z) : option bool :=
  if (0 <=? maxNM) && (maxNM <? 200) then Some (nm_search (nm_class maxNM) rStr)
  else None.

(* ================================================================== *)
(** * Part II.  Properties                                             *)
(* ================================================================== *)

(** ** The quality codec *)

Lemma ph2chr_code_min q : ph2chr_code q = Z.min q 93 + 33.
Proof.
  unfold ph2chr_code. destruct (Z.ltb_spec q 94); lia.
Qed.

Lemma ord_chr c : 0 <= c < 256 -> Py.ord (Py.chr c) = c.
Proof.
  intros H. unfold Py.ord, Py.chr.
  rewrite N_ascii_embedding by lia. lia.
Qed.

Lemma mapM_to_size_t qs :
  Forall (fun q => 0 <= q) qs ->
  Py.mapM (fun q => i <- Py.to_size_t q ;; Some (ph2chr_code i)) qs
  = Some (map ph2chr_code qs).
Proof.
  induction 1 as [|q qs Hq _ IH]; simpl; [reflexivity|].
  unfold Py.to_size_t at 1. destruct (Z.ltb_spec q 0); [lia|]. simpl.
  rewrite IH. reflexivity.
Qed.

(** A negative quality makes [PyArr2QualStr] raise. *)
Lemma PyArr2QualStr_negative q qs : q < 0 -> PyArr2QualStr (q :: qs) = None.
Proof.
  intros H. unfold PyArr2QualStr. simpl. unfold Py.to_size_t at 1.
  destruct (Z.ltb_spec q 0); [reflexivity|lia].
Qed.

Lemma array_B_tostring_encodes qs :
  Forall (fun q => 0 <= q) qs ->
  exists s, Py.array_B_tostring (map ph2chr_code qs) = Some s /\ encodes qs s.
Proof.
  intros H. unfold Py.array_B_tostring.
  assert (R : forallb (fun c => (0 <=? c) && (c <? 256)) (map ph2chr_code qs) = true).
  { apply forallb_forall. intros c Hc. apply in_map_iff in Hc.
    destruct Hc as (q & <- & Hq). rewrite Forall_forall in H. specialize (H q Hq).
    rewrite ph2chr_code_min. apply andb_true_intro. split; [apply Z.leb_le|apply Z.ltb_lt]; lia. }
  rewrite R. eexists. split; [reflexivity|].
  unfold encodes, cs_to_ph. rewrite list_ascii_of_string_of_list_ascii.
  rewrite !map_map. repeat split.
  - apply map_ext. intros q. rewrite ph2chr_code_min. reflexivity.
  - apply Forall_map. eapply Forall_impl; [|exact H]. simpl. intros q Hq.
    rewrite ph2chr_code_min, ord_chr; lia.
  - apply map_ext_in. intros q Hq. rewrite Forall_forall in H. specialize (H q Hq).
    rewrite ph2chr_code_min, ord_chr; lia.
Qed.

Lemma cGetQual_nonneg L : Forall (fun q => 0 <= q) (cGetQual L).
Proof.
  unfold cGetQual. apply Forall_map. apply Forall_forall. intros p Hp.
  apply filter_In in Hp. destruct Hp as [_ Hp].
  apply andb_prop in Hp. destruct Hp as [Hp _].
  rewrite Z.gtb_ltb in Hp. apply Z.ltb_lt in Hp. lia.
Qed.

(** C7. Both encoders of the quality string ([PyArr2QualStr] on an array of
    non-negative qualities, [cGetQualString] on the qualities of a layout)
    return a string with one character [chr(min(q, 93) + 33)] per quality;
    every character has its code in the printable range 33..126, and
    subtracting 33 from the codes gives back [min(q, 93)] (for every
    non-negative [q], so for 0..200 too). *)
Theorem quality_codec_roundtrip (qualArr : list Z) (L : PyLayout) :
  Forall (fun q => 0 <= q) qualArr ->
  (exists s, PyArr2QualStr qualArr = Some s /\ encodes qualArr s)
  /\ (exists s, cGetQualString L = Some s /\ encodes (cGetQual L) s).
Proof.
  intros H. split.
  - unfold PyArr2QualStr. rewrite mapM_to_size_t by exact H. simpl.
    apply array_B_tostring_encodes, H.
  - unfold cGetQualString. apply array_B_tostring_encodes, cGetQual_nonneg.
Qed.

Lemma quality_codec_roundtrip_witness :
  Forall (fun q => 0 <= q) [0; 40; 93; 94; 200]
  /\ (exists s, PyArr2QualStr [0; 40; 93; 94; 200] = Some s
                /\ encodes [0; 40; 93; 94; 200] s).
Proof.
  assert (H : Forall (fun q => 0 <= q) [0; 40; 93; 94; 200])
    by (repeat constructor; lia).
  split; [exact H|].
  exact (proj1 (@quality_codec_roundtrip [0; 40; 93; 94; 200] layout_ACG H)).
Defined.

(** ** LayoutPos construction *)

Section MergeFacts.
Variables agreed disc : Z -> Z -> Z.

(** C10. A position built by [LayoutPos.__init__] with base "N" (78)
    stores quality 0 whatever quality was passed, and with any other base
    stores the quality passed.  When [cMergePositions] meets two positions
    with the same base, different operations and no soft clip, the
    ambiguous "N" position it builds is given -137 as quality and stores
    0. *)
Theorem LayoutPos_init_N_quality p r b o q a m ma pos1 pos2 :
  base pos1 = base pos2 ->
  operation pos2 <> operation pos1 ->
  operation pos2 <> 83 -> operation pos1 <> 83 ->
  quality (LayoutPos_init p r 78 o q a m ma) = 0
  /\ quality (LayoutPos_init p r b o q a m ma) = (if b =? 78 then 0 else q)
  /\ cMergePositions agreed disc pos1 pos2
     = LayoutPos_init (pos pos1) (readPos pos1) 78 78 (-137) (-137) true 0
  /\ base (cMergePositions agreed disc pos1 pos2) = 78
  /\ quality (cMergePositions agreed disc pos1 pos2) = 0.
Proof.
  intros Hb Hop H2 H1.
  split; [reflexivity|].
  split; [simpl; destruct (b =? 78); reflexivity|].
  assert (E : cMergePositions agreed disc pos1 pos2
              = LayoutPos_init (pos pos1) (readPos pos1) 78 78 (-137) (-137) true 0).
  { unfold cMergePositions. rewrite Hb, Z.eqb_refl.
    destruct (Z.eqb_spec (operation pos2) (operation pos1)); [contradiction|].
    destruct (Z.eqb_spec (operation pos2) 83); [contradiction|].
    destruct (Z.eqb_spec (operation pos1) 83); [contradiction|].
    destruct (negb (operation pos1 =? 68) && negb (operation pos1 =? 73));
      reflexivity. }
  rewrite E. repeat split.
Qed.

End MergeFacts.

(** An inserted "A" of quality 30 against a mapped "A" of quality 30. *)
Lemma LayoutPos_init_N_quality_witness :
  quality (cMergePositions Z.max Z.min
             (LayoutPos_init (-1) 5 65 73 30 1 false 1) (mapped 100 5 65)) = 0
  /\ quality (LayoutPos_init 100 5 78 77 30 1 false 1) = 0
  /\ quality (LayoutPos_init 100 5 65 77 30 1 false 1) = 30.
Proof.
  destruct (@LayoutPos_init_N_quality Z.max Z.min 100 5 65 77 30 1 false 1
              (LayoutPos_init (-1) 5 65 73 30 1 false 1) (mapped 100 5 65))
    as (H0 & H1 & _ & _ & H4); try discriminate; try reflexivity.
  split; [exact H4|]. split; [exact H0 | exact H1].
Defined.

(** ** Merging two positions *)

Section MergePositionsFacts.
Variables agreed disc : Z -> Z -> Z.

Lemma LayoutPos_init_invariant p r b o q a m ma :
  init_invariant (LayoutPos_init p r b o q a m ma).
Proof.
  unfold init_invariant; simpl. intros ->. reflexivity.
Qed.

Lemma cMergePositions_init_invariant pos1 pos2 :
  init_invariant (cMergePositions agreed disc pos1 pos2).
Proof.
  unfold cMergePositions.
  repeat match goal with
         | |- context [if ?c then _ else _] => destruct c
         end; apply LayoutPos_init_invariant.
Qed.

Lemma wrap_int32_small z :
  -2147483648 <= z <= 2147483647 -> wrap_int32 z = z.
Proof.
  intros H. unfold wrap_int32. rewrite Z.mod_small by lia. lia.
Qed.

(** C3. Two positions of equal operation kind, both built by the
    constructor, with quality-merge helpers that honour their contract.
    Equal bases: the result is marked merged-agreement (2), its agreement is
    the sum of the inputs' agreements as the C addition of two [int]s gives
    it, which is the sum itself whenever the sum lies in the range of an
    [int]; its quality is at least the larger input quality.  Different
    bases: the result is marked merged-disagreement (0), its base is that of
    the input of larger quality ([pos2] on a tie) and its quality is at most
    the larger input quality. *)
Theorem cMergePositions_equal_operation pos1 pos2 :
  quality_merge_contract agreed disc ->
  init_invariant pos1 -> init_invariant pos2 ->
  operation pos1 = operation pos2 ->
  (base pos1 = base pos2 ->
     mergeAgreed (cMergePositions agreed disc pos1 pos2) = 2
     /\ merged (cMergePositions agreed disc pos1 pos2) = true
     /\ agreement (cMergePositions agreed disc pos1 pos2)
        = wrap_int32 (agreement pos1 + agreement pos2)
     /\ (-2147483648 <= agreement pos1 + agreement pos2 <= 2147483647 ->
         agreement (cMergePositions agreed disc pos1 pos2)
         = agreement pos1 + agreement pos2)
     /\ Z.max (quality pos1) (quality pos2) <= quality (cMergePositions agreed disc pos1 pos2))
  /\ (base pos1 <> base pos2 ->
     mergeAgreed (cMergePositions agreed disc pos1 pos2) = 0
     /\ merged (cMergePositions agreed disc pos1 pos2) = true
     /\ base (cMergePositions agreed disc pos1 pos2)
        = (if quality pos1 >? quality pos2 then base pos1 else base pos2)
     /\ (exists p, (p = pos1 \/ p = pos2)
                   /\ quality p = Z.max (quality pos1) (quality pos2)
                   /\ base (cMergePositions agreed disc pos1 pos2) = base p)
     /\ quality (cMergePositions agreed disc pos1 pos2) <= Z.max (quality pos1) (quality pos2)).
Proof.
  intros [Hagree Hdisc] I1 I2 Hop.
  unfold init_invariant in I1, I2.
  split; intros Hb; unfold cMergePositions.
  - rewrite Hb, Hop, !Z.eqb_refl. simpl.
    split; [reflexivity|]. split; [reflexivity|]. split; [reflexivity|]. split.
    + intros Hrange. apply wrap_int32_small. exact Hrange.
    + destruct (Z.eqb_spec (base pos2) 78) as [E|E]; simpl.
      * rewrite I1, I2 by congruence. simpl. lia.
      * apply Hagree.
  - destruct (Z.eqb_spec (base pos1) (base pos2)) as [E|_]; [contradiction|].
    rewrite Hop, Z.eqb_refl.
    destruct (Z.gtb_spec (quality pos1) (quality pos2)) as [G|G]; simpl.
    + repeat split.
      * exists pos1. repeat split; auto. lia.
      * destruct (Z.eqb_spec (base pos1) 78) as [E|E]; simpl.
        -- specialize (I1 E). lia.
        -- apply Hdisc.
    + repeat split.
      * exists pos2. repeat split; auto. lia.
      * destruct (Z.eqb_spec (base pos2) 78) as [E|E]; simpl.
        -- specialize (I2 E). lia.
        -- rewrite Z.max_comm. apply Hdisc.
Qed.

End MergePositionsFacts.

(** The addition of the two agreements is the addition of C: at the
    largest [int] it wraps. *)
Lemma cMergePositions_agreement_wraps :
  agreement (cMergePositions Z.max Z.min
               (LayoutPos_init 100 0 65 77 30 2147483647 false 1)
               (LayoutPos_init 100 0 65 77 30 1 false 1))
  = -2147483648.
Proof.
  reflexivity.
Qed.

(** A witness: the positions "A" and "C" at reference position 100, and
    two positions "A" there with the agreements 1 and 1, with maximum and
    minimum as the two helpers. *)
Lemma cMergePositions_equal_operation_witness :
  quality_merge_contract Z.max Z.min
  /\ init_invariant (mapped 100 0 65) /\ init_invariant (mapped 100 0 67)
  /\ mergeAgreed (cMergePositions Z.max Z.min (mapped 100 0 65) (mapped 100 0 67)) = 0
  /\ base (cMergePositions Z.max Z.min (mapped 100 0 65) (mapped 100 0 67)) = 67
  /\ agreement (cMergePositions Z.max Z.min (mapped 100 0 65) (mapped 100 5 65)) = 2.
Proof.
  assert (C : quality_merge_contract Z.max Z.min) by (split; intros; lia).
  assert (I1 : init_invariant (mapped 100 0 65)) by apply LayoutPos_init_invariant.
  assert (I2 : init_invariant (mapped 100 0 67)) by apply LayoutPos_init_invariant.
  assert (I3 : init_invariant (mapped 100 5 65)) by apply LayoutPos_init_invariant.
  split; [exact C|]. split; [exact I1|]. split; [exact I2|].
  destruct (@cMergePositions_equal_operation Z.max Z.min
              (mapped 100 0 65) (mapped 100 0 67) C I1 I2 eq_refl) as [_ H].
  destruct H as (Hm & _ & Hb & _); [discriminate|].
  split; [exact Hm|]. split; [exact Hb|].
  destruct (@cMergePositions_equal_operation Z.max Z.min
              (mapped 100 0 65) (mapped 100 5 65) C I1 I3 eq_refl) as [H' _].
  destruct (H' eq_refl) as (_ & _ & _ & Hsum & _).
  apply Hsum. cbn. lia.
Defined.

(** ** The overlap walk of two layouts *)

Section MergeLayoutsFacts.
Variables agreed disc : Z -> Z -> Z.

(** X3. A deletion under the cursor of the first layout, facing a
    position of the second layout that is no deletion: it is copied, and the
    cursor of the second layout stays. *)
Lemma overlap_walk_deletion_first pos1 rest L2 count acc pos2 :
  nth_error L2 count = Some pos2 ->
  operation pos1 = 68 -> operation pos2 <> 68 ->
  overlap_walk agreed disc (pos1 :: rest) L2 count acc
  = overlap_walk agreed disc rest L2 count (acc ++ [pos1]).
Proof.
  intros Hn H1 H2. simpl. rewrite Hn, H1.
  destruct (Z.eqb_spec 68 (operation pos2)); [congruence|]. reflexivity.
Qed.

(** X4. A deletion under the cursor of the second layout, facing a
    position [pos1] of the first layout that is no deletion: the deletion is
    copied, both cursors move on, and [pos1] reaches the output neither
    copied nor merged. *)
Lemma overlap_walk_deletion_second pos1 rest L2 count acc pos2 :
  nth_error L2 count = Some pos2 ->
  operation pos2 = 68 -> operation pos1 <> 68 ->
  overlap_walk agreed disc (pos1 :: rest) L2 count acc
  = overlap_walk agreed disc rest L2 (S count) (acc ++ [pos2]).
Proof.
  intros Hn H2 H1. simpl. rewrite Hn, H2.
  destruct (Z.eqb_spec (operation pos1) 68); [congruence|]. reflexivity.
Qed.

Lemma overlap_walk_shape rest L2 :
  forall count acc out count',
    overlap_walk agreed disc rest L2 count acc = Some (out, count') ->
    exists mid, out = acc ++ mid /\ length mid = length rest
                /\ (count <= count' <= count + length rest)%nat.
Proof.
  induction rest as [|pos1 rest IH]; intros count acc out count' H; simpl in H.
  - inversion H; subst. exists []. rewrite app_nil_r. simpl. repeat split; lia.
  - destruct (nth_error L2 count) as [pos2|]; [|discriminate].
    assert (K : forall c' x,
                overlap_walk agreed disc rest L2 c' (acc ++ [x]) = Some (out, count') ->
                            (count <= c' <= S count)%nat ->
                exists mid, out = acc ++ mid /\ length mid = length (pos1 :: rest)
                            /\ (count <= count' <= count + length (pos1 :: rest))%nat).
    { intros c' x Hw Hc. apply IH in Hw. destruct Hw as (mid & -> & Hl & Hr).
      exists (x :: mid). rewrite <- app_assoc. simpl. repeat split; lia. }
    destruct (operation pos1 =? operation pos2); [eapply K; [eassumption|lia]|].
    destruct (operation pos1 =? 68); [eapply K; [eassumption|lia]|].
    destruct (operation pos2 =? 68); eapply K; try eassumption; lia.
Qed.

Lemma overlap_walk_returns rest L2 :
  forall count acc,
    (count + length rest <= length L2)%nat ->
    exists r, overlap_walk agreed disc rest L2 count acc = Some r.
Proof.
  induction rest as [|pos1 rest IH]; intros count acc Hlen; simpl.
  - eexists; reflexivity.
  - simpl in Hlen.
    destruct (nth_error L2 count) as [pos2|] eqn:E.
    + destruct (operation pos1 =? operation pos2); [apply IH; lia|].
      destruct (operation pos1 =? 68); [apply IH; lia|].
      destruct (operation pos2 =? 68); apply IH; lia.
    + apply nth_error_None in E. lia.
Qed.

(** X2. When the first layout starts after the second one, the exchange
    leaves both names on the second layout: the result is that of merging
    the second layout with itself. *)
Lemma cMergeLayoutsToList_exchange L1 L2 :
  cGetRefPosForFirstPos L1 > cGetRefPosForFirstPos L2 ->
  cMergeLayoutsToList agreed disc L1 L2 = cMergeLayoutsToList agreed disc L2 L2.
Proof.
  intros H. unfold cMergeLayoutsToList.
  destruct (Z.gtb_spec (cGetRefPosForFirstPos L1) (cGetRefPosForFirstPos L2)); [|lia].
  rewrite Z.gtb_ltb, Z.ltb_irrefl. reflexivity.
Qed.

(** X1. When the first layout starts at or before the second one and the
    second one is long enough for the walk, the merge returns, and the merged
    list is the first layout's positions before the overlap, unchanged, then
    one output position for each remaining position of the first layout,
    then the rest of the second layout, unchanged. *)
Lemma cMergeLayoutsToList_prefix_suffix L1 L2 :
  cGetRefPosForFirstPos L1 <= cGetRefPosForFirstPos L2 ->
  (length (positions L1)
   - Z.to_nat (cGetRefPosForFirstPos L2 - cGetRefPosForFirstPos L1)
   <= length (positions L2))%nat ->
  exists mid count,
    cMergeLayoutsToList agreed disc L1 L2
    = Some {| List_ := Py.slice_to (positions L1)
                         (cGetRefPosForFirstPos L2 - cGetRefPosForFirstPos L1)
                       ++ mid ++ skipn count (positions L2);
              Bool_ := true |}
    /\ length mid
       = length (Py.slice_from (positions L1)
                   (cGetRefPosForFirstPos L2 - cGetRefPosForFirstPos L1)).
Proof.
  intros Hle Hlen. unfold cMergeLayoutsToList.
  destruct (Z.gtb_spec (cGetRefPosForFirstPos L1) (cGetRefPosForFirstPos L2)); [lia|].
  set (offset := cGetRefPosForFirstPos L2 - cGetRefPosForFirstPos L1) in *.
  destruct (@overlap_walk_returns (Py.slice_from (positions L1) offset) (positions L2)
              0%nat (Py.slice_to (positions L1) offset)) as [[out count] Hw].
  { unfold Py.slice_from. rewrite length_skipn. lia. }
  rewrite Hw. simpl.
  destruct (overlap_walk_shape _ _ _ _ Hw) as (mid & -> & Hl & _).
  exists mid, count. rewrite <- app_assoc. split; [reflexivity|exact Hl].
Qed.

(** C4. The first layout reads "A", "C", "G" on reference positions
    100..102, the second one reads "A", a deletion at 101, "G".  When the
    overlap_walk agreed disc meets the deletion of the second layout against the "C" of the
    first, it copies the deletion and moves both cursors: the output is the
    merged "A", the deletion and the merged "G", and the "C" of the first
    layout, which is no deletion, is absent from it. *)
Theorem overlap_walk_drops_position_facing_deletion :
  cMergeLayoutsToList agreed disc layout_ACG layout_AdG
  = Some {| List_ := [cMergePositions agreed disc (mapped 100 0 65) (mapped 100 0 65);
                      deleted 101;
                      cMergePositions agreed disc (mapped 102 2 71) (mapped 102 1 71)];
            Bool_ := true |}
  /\ Forall (fun p => base p <> 67)
            [cMergePositions agreed disc (mapped 100 0 65) (mapped 100 0 65);
             deleted 101;
             cMergePositions agreed disc (mapped 102 2 71) (mapped 102 1 71)].
Proof.
  split; [reflexivity|].
  repeat constructor; simpl; discriminate.
Qed.

(** C5. The first layout covers reference position 101 only, the second
    one 100..101, so the second one is the left anchor and its position 100
    lies before the overlap.  The merged list is the second layout merged
    with itself: its first element is not the unchanged position 100 of the
    left anchor but a position marked merged, with the agreement doubled. *)
Theorem cMergeLayoutsToList_exchange_merges_anchor_with_itself :
  cMergeLayoutsToList agreed disc layout_C layout_AC
  = Some {| List_ := [cMergePositions agreed disc (mapped 100 0 65) (mapped 100 0 65);
                      cMergePositions agreed disc (mapped 101 1 67) (mapped 101 1 67)];
            Bool_ := true |}
  /\ merged (cMergePositions agreed disc (mapped 100 0 65) (mapped 100 0 65)) = true
  /\ agreement (cMergePositions agreed disc (mapped 100 0 65) (mapped 100 0 65)) = 2
  /\ merged (mapped 100 0 65) = false
  /\ agreement (mapped 100 0 65) = 1.
Proof.
  repeat split.
Qed.

End MergeLayoutsFacts.

(** Two layouts that start at the same reference position. *)
Lemma cMergeLayoutsToList_prefix_suffix_witness :
  cGetRefPosForFirstPos layout_AC <= cGetRefPosForFirstPos layout_ACG
  /\ exists mid count,
       cMergeLayoutsToList Z.max Z.min layout_AC layout_ACG
       = Some {| List_ := Py.slice_to (positions layout_AC) 0
                          ++ mid ++ skipn count (positions layout_ACG);
                 Bool_ := true |}
       /\ length mid = 2%nat.
Proof.
  assert (H : cGetRefPosForFirstPos layout_AC <= cGetRefPosForFirstPos layout_ACG)
    by (vm_compute; discriminate).
  split; [exact H|].
  apply (@cMergeLayoutsToList_prefix_suffix Z.max Z.min layout_AC layout_ACG H).
  simpl. lia.
Defined.

Lemma cMergeLayoutsToList_exchange_witness :
  cGetRefPosForFirstPos layout_C > cGetRefPosForFirstPos layout_AC
  /\ cMergeLayoutsToList Z.max Z.min layout_C layout_AC
     = cMergeLayoutsToList Z.max Z.min layout_AC layout_AC.
Proof.
  assert (H : cGetRefPosForFirstPos layout_C > cGetRefPosForFirstPos layout_AC)
    by reflexivity.
  split; [exact H|].
  exact (@cMergeLayoutsToList_exchange Z.max Z.min layout_C layout_AC H).
Defined.

(** A deletion of the first layout facing a mapped base of the second. *)
Lemma overlap_walk_deletion_first_witness :
  overlap_walk Z.max Z.min [deleted 101; mapped 102 1 71]
               [mapped 100 0 65; mapped 101 1 67; mapped 102 2 71] 1 []
  = overlap_walk Z.max Z.min [mapped 102 1 71]
                 [mapped 100 0 65; mapped 101 1 67; mapped 102 2 71] 1 [deleted 101].
Proof.
  apply (@overlap_walk_deletion_first Z.max Z.min (deleted 101) [mapped 102 1 71]
           [mapped 100 0 65; mapped 101 1 67; mapped 102 2 71] 1 [] (mapped 101 1 67));
    [reflexivity | reflexivity | discriminate].
Defined.

Lemma overlap_walk_deletion_second_witness :
  overlap_walk Z.max Z.min [mapped 101 1 67; mapped 102 2 71]
               [mapped 100 0 65; deleted 101; mapped 102 1 71] 1 []
  = overlap_walk Z.max Z.min [mapped 102 2 71]
                 [mapped 100 0 65; deleted 101; mapped 102 1 71] 2 [deleted 101].
Proof.
  apply (@overlap_walk_deletion_second Z.max Z.min (mapped 101 1 67) [mapped 102 2 71]
           [mapped 100 0 65; deleted 101; mapped 102 1 71] 1 [] (deleted 101));
    [reflexivity | reflexivity | discriminate].
Defined.

(** ** Expanding a CIGAR and collapsing it again *)

Lemma groupby_len_repeat k n rest :
  Py.groupby_len (repeat k (S n) ++ rest)
  = match Py.groupby_len rest with
    | (k', m) :: runs =>
        if k =? k' then (k, (S n + m)%nat) :: runs
        else (k, S n) :: (k', m) :: runs
    | [] => [(k, S n)]
    end.
Proof.
  induction n as [|n IH].
  - simpl. destruct (Py.groupby_len rest) as [|[k' m] runs]; reflexivity.
  - change (repeat k (S (S n)) ++ rest) with (k :: (repeat k (S n) ++ rest)).
    cbn [Py.groupby_len]. rewrite IH.
    destruct (Py.groupby_len rest) as [|[k' m] runs].
    + rewrite Z.eqb_refl. reflexivity.
    + destruct (k =? k'); rewrite Z.eqb_refl; reflexivity.
Qed.

Lemma CigarOpToCigarChar_layout_op a b :
  layout_op a = true -> layout_op b = true ->
  CigarOpToCigarChar a = CigarOpToCigarChar b -> a = b.
Proof.
  unfold layout_op. intros Ha Hb.
  repeat (apply orb_prop in Ha; destruct Ha as [Ha|Ha]);
    repeat (apply orb_prop in Hb; destruct Hb as [Hb|Hb]);
    apply Z.eqb_eq in Ha, Hb; subst; vm_compute; congruence.
Qed.

Lemma groupby_len_cigar_expansion cig :
  cigar_well_formed cig = true ->
  Py.groupby_len (cigar_expansion cig) = cigar_runs cig.
Proof.
  unfold cigar_well_formed, cigar_expansion, cigar_runs.
  induction cig as [|[op l] rest IH]; intros H; [reflexivity|].
  apply andb_prop in H. destruct H as [Hall Hadj].
  cbn [forallb map fst snd] in Hall, Hadj.
  apply andb_prop in Hall. destruct Hall as [Hhd Hall].
  apply andb_prop in Hhd. destruct Hhd as [Hop Hl]. apply Z.ltb_lt in Hl.
  assert (Hrest : forallb (fun ol => layout_op (fst ol) && (0 <? snd ol)) rest
                  && adjacent_distinct (map fst rest) = true).
  { rewrite Hall. simpl. destruct rest as [|[op' l'] rest']; [reflexivity|].
    cbn [map fst adjacent_distinct] in Hadj. apply andb_prop in Hadj. apply Hadj. }
  specialize (IH Hrest).
  cbn [map concat fst snd].
  destruct (Z.to_nat l) as [|n] eqn:En; [lia|].
  rewrite groupby_len_repeat, IH.
  destruct rest as [|[op' l'] rest']; [reflexivity|].
  cbn [map fst snd].
  cbn [map fst adjacent_distinct] in Hadj. apply andb_prop in Hadj.
  destruct Hadj as [Hne _].
  cbn [forallb fst] in Hall. apply andb_prop in Hall. destruct Hall as [Hhd' _].
  apply andb_prop in Hhd'. destruct Hhd' as [Hop' _].
  destruct (Z.eqb_spec (CigarOpToCigarChar op) (CigarOpToCigarChar op')) as [E|E];
    [|reflexivity].
  apply CigarOpToCigarChar_layout_op in E; auto.
  subst. rewrite Z.eqb_refl in Hne. discriminate.
Qed.

Lemma In_zrange i l : In i (zrange l) -> 0 <= i < l.
Proof.
  unfold zrange. intros H. apply in_map_iff in H. destruct H as (n & <- & Hn).
  apply in_seq in Hn. lia.
Qed.

Lemma length_zrange l : length (zrange l) = Z.to_nat l.
Proof.
  unfold zrange. rewrite length_map, length_seq. reflexivity.
Qed.

Lemma length_list_ascii s : length (list_ascii_of_string s) = String.length s.
Proof.
  induction s as [|c s IH]; simpl; congruence.
Qed.

Lemma getitem_in_range {A} (l : list A) i :
  0 <= i < Z.of_nat (length l) -> exists x, Py.getitem l i = Some x.
Proof.
  intros H. unfold Py.getitem. destruct (Z.ltb_spec i 0); [lia|].
  destruct (nth_error l (Z.to_nat i)) as [x|] eqn:E; [eauto|].
  apply nth_error_None in E. lia.
Qed.

Lemma mapM_constant_key {A B} (g : A -> option B) (h : B -> Z) c l :
  (forall x, In x l -> exists y, g x = Some y /\ h y = c) ->
  exists ys, Py.mapM g l = Some ys /\ map h ys = repeat c (length l).
Proof.
  induction l as [|x l IH]; intros H; simpl.
  - exists []. split; reflexivity.
  - destruct (H x (or_introl eq_refl)) as (y & -> & Hy).
    destruct IH as (ys & -> & Hys); [intros; apply H; right; assumption|].
    exists (y :: ys). simpl. rewrite Hy, Hys. split; reflexivity.
Qed.

Section LayoutOfRead.
Variable rec : AlignedSegment.

Lemma length_pairs_of_op op l refpos qpos :
  layout_op op = true ->
  length (pairs_of_op op l refpos qpos) = Z.to_nat l.
Proof.
  unfold layout_op, pairs_of_op. intros H.
  repeat (apply orb_prop in H; destruct H as [H|H]);
    apply Z.eqb_eq in H; subst; simpl; rewrite length_map; apply length_zrange.
Qed.

Lemma agrees_of_FA_values :
  has_FA_tag rec = true -> agrees_of rec = Some (FA_values rec).
Proof.
  unfold has_FA_tag, agrees_of, FA_values.
  destruct (tag_FA rec); [reflexivity|discriminate].
Qed.

Lemma base_quality_agreement_at x0 :
  0 <= x0 ->
  x0 < Z.of_nat (String.length (query_sequence rec)) ->
  x0 < Z.of_nat (length (quals_of rec)) ->
  x0 < Z.of_nat (length (FA_values rec)) ->
  exists b q a,
    base_at rec x0 = Some b
    /\ Py.getitem (quals_of rec) x0 = Some q
    /\ Py.getitem (FA_values rec) x0 = Some a.
Proof.
  intros H0 Hs Hq Ha.
  destruct (@getitem_in_range _ (list_ascii_of_string (query_sequence rec)) x0)
    as [c Hc]; [rewrite length_list_ascii; lia|].
  destruct (@getitem_in_range _ (quals_of rec) x0) as [q Hq']; [lia|].
  destruct (@getitem_in_range _ (FA_values rec) x0) as [a Ha']; [lia|].
  exists (Py.ord c), q, a. unfold base_at. rewrite Hc. auto.
Qed.

(** The positions built for one CIGAR entry all carry its operation
    character. *)
Lemma layout_of_cigar_entry op l refpos qpos :
  layout_op op = true ->
  0 <= qpos ->
  qpos + next_qpos op l 0 <= Z.of_nat (String.length (query_sequence rec)) ->
  qpos + next_qpos op l 0 <= Z.of_nat (length (quals_of rec)) ->
  qpos + next_qpos op l 0 <= Z.of_nat (length (FA_values rec)) ->
  exists new,
    Py.mapM (layout_pos_of_pair (CigarOpToCigarChar op) rec (FA_values rec))
            (pairs_of_op op l refpos qpos) = Some new
    /\ map operation new = repeat (CigarOpToCigarChar op) (Z.to_nat l).
Proof.
  intros Hop Hq Hs Hqu Hag.
  rewrite <- (@length_pairs_of_op op l refpos qpos Hop).
  apply mapM_constant_key. intros x Hx.
  unfold layout_op in Hop. unfold pairs_of_op in Hx.
  repeat (apply orb_prop in Hop; destruct Hop as [Hop|Hop]);
    apply Z.eqb_eq in Hop; subst op; simpl in Hx;
    apply in_map_iff in Hx; destruct Hx as (i & <- & Hi); apply In_zrange in Hi;
    unfold next_qpos in Hs, Hqu, Hag; simpl in Hs, Hqu, Hag.
  - destruct (@base_quality_agreement_at (qpos + i)) as (b & q & a & Hb & Hq' & Ha');
      try lia.
    unfold layout_pos_of_pair. rewrite Hb, Hq', Ha'. simpl. eauto.
  - destruct (@base_quality_agreement_at (qpos + i)) as (b & q & a & Hb & Hq' & Ha');
      try lia.
    unfold layout_pos_of_pair. rewrite Hb, Hq', Ha'. simpl. eauto.
  - simpl. eauto.
  - destruct (@base_quality_agreement_at (qpos + i)) as (b & q & a & Hb & Hq' & Ha');
      try lia.
    unfold layout_pos_of_pair. rewrite Hb, Hq', Ha'. simpl. eauto.
Qed.

Lemma slice_middle {A} (done block rest : list A) l :
  length block = Z.to_nat l ->
  Py.slice (done ++ block ++ rest) (Z.of_nat (length done)) l = block.
Proof.
  intros H. unfold Py.slice. rewrite Nat2Z.id.
  rewrite skipn_app, skipn_all, Nat.sub_diag. simpl.
  rewrite <- H, firstn_app, firstn_all, Nat.sub_diag. simpl. apply app_nil_r.
Qed.

Lemma next_qpos_shift op l qpos : next_qpos op l qpos = qpos + next_qpos op l 0.
Proof.
  unfold next_qpos. destruct (op_consumes_both op || op_consumes_query op); lia.
Qed.

Lemma query_length_nonneg cig :
  forallb (fun ol => layout_op (fst ol) && (0 <? snd ol)) cig = true ->
  0 <= query_length cig.
Proof.
  induction cig as [|[op l] rest IH]; simpl; intros H; [lia|].
  apply andb_prop in H. destruct H as [H1 H2]. apply andb_prop in H1.
  destruct H1 as [_ Hl]. apply Z.ltb_lt in Hl. specialize (IH H2).
  unfold next_qpos. destruct (op_consumes_both op || op_consumes_query op); lia.
Qed.

(** The loop of [makeLayoutTuple], started on the entries [cig] that are
    left when [done] pairs have been consumed, extends the position list by
    positions whose operations are the expansion of [cig]. *)
Lemma makeLayoutTuple_loop_operations cig :
  has_FA_tag rec = true ->
  forall done refpos qpos fm acc,
    aligned_pairs rec = done ++ aligned_pairs_from refpos qpos cig ->
    forallb (fun ol => layout_op (fst ol) && (0 <? snd ol)) cig = true ->
    0 <= qpos ->
    qpos + query_length cig <= Z.of_nat (String.length (query_sequence rec)) ->
    qpos + query_length cig <= Z.of_nat (length (quals_of rec)) ->
    qpos + query_length cig <= Z.of_nat (length (FA_values rec)) ->
    exists new fm',
      makeLayoutTuple_loop rec cig (Z.of_nat (length done)) fm acc
      = Some (acc ++ new, fm')
      /\ map operation new = cigar_expansion cig.
Proof.
  intros HFA.
  induction cig as [|[op l] rest IH];
    intros done refpos qpos fm acc Hap Hall Hq Hs Hqu Hag.
  - exists [], fm. simpl. rewrite app_nil_r. split; reflexivity.
  - cbn [forallb fst snd] in Hall. apply andb_prop in Hall.
    destruct Hall as [Hhd Hall]. apply andb_prop in Hhd. destruct Hhd as [Hop Hl].
    apply Z.ltb_lt in Hl.
    pose proof (query_length_nonneg _ Hall) as Hnn.
    cbn [query_length] in Hs, Hqu, Hag.
    assert (Hstep : 0 <= next_qpos op l 0)
      by (unfold next_qpos; destruct (op_consumes_both op || op_consumes_query op); lia).
    cbn [aligned_pairs_from] in Hap.
    destruct (@layout_of_cigar_entry op l refpos qpos Hop Hq) as (new1 & Hnew1 & Hops1);
      try lia.
    cbn [makeLayoutTuple_loop]. unfold CigarOpToLayoutPosList.
    rewrite (@agrees_of_FA_values HFA). cbn [Py.bind].
    rewrite Hap, slice_middle by (apply length_pairs_of_op; exact Hop).
    rewrite Hnew1. cbn [Py.bind].
    rewrite app_assoc in Hap.
    destruct (IH (done ++ pairs_of_op op l refpos qpos) _ _
                 (if (op =? 0) && (fm <? 0) then Z.of_nat (length done) else fm)
                 (acc ++ new1) Hap Hall) as (new2 & fm' & Hloop & Hops2).
    + rewrite next_qpos_shift. lia.
    + rewrite next_qpos_shift. lia.
    + rewrite next_qpos_shift. lia.
    + rewrite next_qpos_shift. lia.
    + rewrite length_app, length_pairs_of_op in Hloop by exact Hop.
      replace (Z.of_nat (length done + Z.to_nat l)) with (Z.of_nat (length done) + l)
        in Hloop by lia.
      exists (new1 ++ new2), fm'. rewrite Hloop, <- app_assoc. split; [reflexivity|].
      rewrite map_app, Hops1, Hops2. reflexivity.
Qed.

End LayoutOfRead.

Section CigarRoundTrip.
Variable opLenToStr : Z -> nat -> string.

(** For a well-formed read that carries an FA tag (operations M, I, D, S
    with positive lengths, adjacent entries of different operations, enough
    bases, qualities and agreements) the layout is built without error, the
    runs of equal operations of its positions are exactly the entries of
    the CIGAR, and the CIGAR string of the layout is the rendering of those
    entries, in order. *)
Lemma layout_cigar_roundtrip (rec : AlignedSegment) :
  read_well_formed rec = true ->
  exists L,
    fromread rec = Some L
    /\ getOperations L = cigar_expansion (cigar rec)
    /\ Py.groupby_len (getOperations L) = cigar_runs (cigar rec)
    /\ cGetCigarString opLenToStr L
       = String.concat ""
           (map (fun ol => opLenToStr (CigarOpToCigarChar (fst ol)) (Z.to_nat (snd ol)))
                (cigar rec)).
Proof.
  unfold read_well_formed. intros H.
  apply andb_prop in H. destruct H as [H Hag].
  apply andb_prop in H. destruct H as [H HFA].
  apply andb_prop in H. destruct H as [H Hqu].
  apply andb_prop in H. destruct H as [Hwf Hs].
  apply Z.leb_le in Hag, Hqu, Hs.
  pose proof Hwf as H.
  unfold cigar_well_formed in H. apply andb_prop in H. destruct H as [Hall _].
  destruct (@makeLayoutTuple_loop_operations rec (cigar rec) HFA [] (rec_pos rec) 0 (-1) [])
    as (new & fm & Hloop & Hops); auto; try lia.
  exists {| positions := new; firstMapped := fm;
            isMerged := match tag_MP rec with Some v => v =? 84 | None => false end |}.
  assert (Hg : Py.groupby_len (map operation new) = cigar_runs (cigar rec))
    by (rewrite Hops; apply groupby_len_cigar_expansion; exact Hwf).
  unfold fromread, makeLayoutTuple, cGetCigarString, getOperations.
  simpl in Hloop. rewrite Hloop. cbn [Py.bind fst snd positions].
  repeat split; auto.
  rewrite Hg. unfold cigar_runs. rewrite map_map. reflexivity.
Qed.

End CigarRoundTrip.

(** A read without an FA tag: the first entry of its CIGAR makes
    [CigarOpToLayoutPosList] raise. *)
Lemma fromread_without_FA_tag (rec : AlignedSegment) :
  tag_FA rec = None -> cigar rec <> [] -> fromread rec = None.
Proof.
  intros HFA Hcig. unfold fromread, makeLayoutTuple.
  destruct (cigar rec) as [|[op l] rest]; [contradiction|].
  cbn [makeLayoutTuple_loop]. unfold CigarOpToLayoutPosList, agrees_of.
  rewrite HFA. reflexivity.
Qed.

(** C6. The read with the CIGAR 2S3M1I2M2D1M1S (leading and trailing soft
    clips, an insertion and a deletion), ten bases and ten qualities, and no
    FA tag.  Its CIGAR is well formed, but no layout is built: fetching the
    agreements raises in the handler of the missing tag, so there is nothing
    to collapse back into the CIGAR; the same holds for every read without
    an FA tag whose CIGAR has an entry.  The same read with PV and FA tags
    gets a layout whose runs of operations are the entries of its CIGAR, as
    does every well-formed read that carries an FA tag. *)
Theorem fromread_raises_without_FA_tag :
  cigar_well_formed (cigar read_2S3M1I2M2D1M1S) = true
  /\ fromread read_2S3M1I2M2D1M1S = None
  /\ (forall rec, tag_FA rec = None -> cigar rec <> [] -> fromread rec = None)
  /\ (exists L,
        fromread read_2S3M1I2M2D1M1S_tagged = Some L
        /\ Py.groupby_len (getOperations L)
           = cigar_runs (cigar read_2S3M1I2M2D1M1S_tagged))
  /\ (forall rec,
        read_well_formed rec = true ->
        exists L,
          fromread rec = Some L
          /\ getOperations L = cigar_expansion (cigar rec)
          /\ Py.groupby_len (getOperations L) = cigar_runs (cigar rec)).
Proof.
  split; [reflexivity|]. split; [reflexivity|].
  split; [exact fromread_without_FA_tag|]. split.
  - destruct (@layout_cigar_roundtrip (fun _ _ => EmptyString)
                read_2S3M1I2M2D1M1S_tagged eq_refl) as (L & HL & _ & Hg & _).
    exists L. split; [exact HL | exact Hg].
  - intros rec Hwf.
    destruct (@layout_cigar_roundtrip (fun _ _ => EmptyString) rec Hwf)
      as (L & HL & He & Hg & _).
    exists L. split; [exact HL|]. split; [exact He | exact Hg].
Qed.

(** ** The Fisher flattening *)

Section FisherFlattenFacts.
Context {num : Numerics}.

Lemma flatten_step_chiSums rLen Seqs Quals st i :
  chiSums (flatten_step rLen Seqs Quals st i)
  = match observe_chi rLen (i mod rLen) (array_get 0 Seqs i) (array_get 0 Quals i)
                      (chiSums st) with
    | Some (_, chi) => chi
    | None => chiSums st
    end.
Proof.
  unfold flatten_step.
  destruct (observe_chi _ _ _ _ _) as [[nd chi]|]; reflexivity.
Qed.

Lemma observe_chi_N rLen offset q chi : observe_chi rLen offset 78 q chi = None.
Proof. reflexivity. Qed.

(** X5. The chi-square sums do ignore the "N" observations: after the
    first loop they are the sums of the family with those observations
    removed. *)
Lemma accumulate_chiSums_without_N rLen Seqs Quals indices :
  chiSums (accumulate rLen Seqs Quals indices)
  = chiSums (accumulate rLen Seqs Quals (without_N Seqs indices)).
Proof.
  assert (G : forall st st', chiSums st = chiSums st' ->
            chiSums (fold_left (flatten_step rLen Seqs Quals) indices st)
            = chiSums (fold_left (flatten_step rLen Seqs Quals)
                                 (without_N Seqs indices) st')).
  { induction indices as [|i rest IH]; intros st st' E; simpl; [exact E|].
    destruct (Z.eqb_spec (array_get 0 Seqs i) 78) as [EN|EN]; simpl.
    - apply IH. rewrite flatten_step_chiSums, EN, observe_chi_N. exact E.
    - apply IH. rewrite !flatten_step_chiSums, E. reflexivity. }
  unfold accumulate. apply G. reflexivity.
Qed.

(** C2. A family of two reads of length 2, "AC" and "NN", all qualities
    30.  The cells of [Sums.counts] are, by increasing index, A, C, G, T each
    at positions 0 and 1.  After the loop the count of "C" at position 1 is
    3: each of the two "N" observations has added one to the cell that the
    "C" observation before them had selected.  The same family without its
    "N" observations gives 1 in that cell. *)
Theorem accumulate_counts_N_observations :
  counts (accumulate 2 [65; 67; 78; 78] [30; 30; 30; 30] (zrange 4))
  = [1; 0; 0; 3; 0; 0; 0; 0]
  /\ counts (accumulate 2 [65; 67; 78; 78] [30; 30; 30; 30]
                        (without_N [65; 67; 78; 78] (zrange 4)))
     = [1; 0; 0; 1; 0; 0; 0; 0].
Proof.
  split; reflexivity.
Qed.

Lemma eliminate_underflow_cases t :
  (t <= 0 /\ eliminate_underflow t = 3114) \/ (0 < t /\ eliminate_underflow t = t).
Proof.
  unfold eliminate_underflow. destruct (Z.gtb_spec t 0); [right|left]; lia.
Qed.

Lemma eliminate_underflow_positive t : 0 < eliminate_underflow t.
Proof.
  destruct (eliminate_underflow_cases t) as [[_ ->]|[H ->]]; lia.
Qed.

Lemma Forall2_map_same {A B C} (R : B -> C -> Prop) (f : A -> B) (g : A -> C) l :
  (forall x, R (f x) (g x)) -> Forall2 R (map f l) (map g l).
Proof.
  intros H. induction l; simpl; constructor; auto.
Qed.

(** C8. Every quality that [cFisherFlatten] emits is the value of the
    cast, [tmpQual], when that is positive, and the sentinel 3114 when it is
    zero or negative; so an emitted quality is always a positive integer,
    and there is one per position. *)
Theorem cFisherFlatten_quality_sentinel (Seqs Quals : list Z) (rLen nRecs : Z) :
  Forall2 (fun tmpQual q => (tmpQual <= 0 /\ q = 3114) \/ (0 < tmpQual /\ q = tmpQual))
          (map (call_tmpQual rLen (accumulate rLen Seqs Quals (zrange (rLen * nRecs))))
               (zrange rLen))
          (Qual (cFisherFlatten Seqs Quals rLen nRecs))
  /\ Forall (fun q => 0 < q) (Qual (cFisherFlatten Seqs Quals rLen nRecs))
  /\ length (Qual (cFisherFlatten Seqs Quals rLen nRecs)) = Z.to_nat rLen.
Proof.
  unfold cFisherFlatten. cbn [Qual]. repeat split.
  - apply Forall2_map_same. intros i. apply eliminate_underflow_cases.
  - apply Forall_map, Forall_forall. intros i _. apply eliminate_underflow_positive.
  - rewrite length_map. apply length_zrange.
Qed.

End FisherFlattenFacts.

(** ** Families of one record *)

Lemma join_ones n :
  Py.join "," (map Py.str (repeat 1 (S n)))
  = ("1" ++ Py.join "" (repeat ",1"%string n))%string.
Proof.
  induction n as [|n IH]; [reflexivity|].
  change (map Py.str (repeat 1 (S (S n))))
    with (Py.str 1 :: map Py.str (repeat 1 (S n))).
  change (Py.join "," (Py.str 1 :: map Py.str (repeat 1 (S n))))
    with (Py.str 1 ++ "," ++ Py.join "," (map Py.str (repeat 1 (S n))))%string.
  rewrite IH. destruct n; reflexivity.
Qed.

Lemma singleton_TagString_FA rLen PVString :
  singleton_TagString (Z.of_nat rLen) PVString
  = ("|FM=1|ND=0" ++ PyArr2FAString (repeat 1 (Nat.max 1 rLen)) ++ PVString)%string.
Proof.
  unfold singleton_TagString, PyArr2FAString, Py.replicate.
  replace (Nat.max 1 rLen) with (S (Z.to_nat (Z.of_nat rLen - 1))) by lia.
  rewrite join_ones. reflexivity.
Qed.

Lemma firstn_repeat_le {A} (x : A) n :
  forall m, (n <= m)%nat -> firstn n (repeat x m) = repeat x n.
Proof.
  induction n as [|n IH]; intros m H; [reflexivity|].
  destruct m as [|m]; [lia|]. simpl. rewrite IH by lia. reflexivity.
Qed.

Lemma str_append_assoc (a b c : string) : ((a ++ b) ++ c = a ++ (b ++ c))%string.
Proof.
  induction a as [|x a IH]; [reflexivity|]. cbn [String.append]. rewrite IH. reflexivity.
Qed.

Lemma str_append_nil_r (a : string) : (a ++ "" = a)%string.
Proof.
  induction a as [|x a IH]; [reflexivity|]. cbn [String.append]. rewrite IH. reflexivity.
Qed.

Section SingletonFamily.
Context {num : Numerics}.
Variable PH2CHR_TRANS : ascii -> ascii.

(** C1. For a family of one record both base callers return the text of
    the record itself: the line "@", the given name (or the record's name),
    a blank, the record's comment and the tags FM=1, ND=0, FA and PV; the
    record's sequence as the second line; "+" as the third; the record's
    quality string as the fourth; every line ends with a line feed.  The FA
    tag lists a 1 for every position of the read (and a single 1 for a read
    without bases), the PV tag lists the qualities of the record.  For the
    record "r1", comment "c", sequence "ACGT", quality "IIII" the text is
    written out. *)
Theorem singleton_family_verbatim (rec : Fq.pFastqProxy) (name : option string)
    (minPVFrac minFAFrac minMaxFA : Q) :
  cFastFisherFlattening [rec] name
  = Some ("@" ++ match name with
                 | None => Fq.name rec
                 | Some n => n
                 end
              ++ " " ++ Fq.comment rec
              ++ "|FM=1|ND=0|FA="
              ++ Py.join "," (map Py.str (repeat 1 (Nat.max 1 (String.length
                                                                  (Fq.sequence rec)))))
              ++ "|PV=" ++ Py.join "," (map Py.str (getQualArray rec))
              ++ String "010"%char
                   (Fq.sequence rec
                      ++ String "010"%char
                           ("+" ++ String "010"%char
                                     (Fq.quality rec ++ String "010"%char ""))))%string
  /\ cCompareFqRecsFast PH2CHR_TRANS [rec] name minPVFrac minFAFrac minMaxFA
     = cFastFisherFlattening [rec] name
  /\ cCompareFqRecsFast PH2CHR_TRANS
       [{| Fq.name := "r1"; Fq.comment := "c";
           Fq.sequence := "ACGT"; Fq.quality := "IIII" |}]
       None minPVFrac minFAFrac minMaxFA
     = Some ("@r1 c|FM=1|ND=0|FA=1,1,1,1|PV=40,40,40,40"
               ++ String "010"%char
                    ("ACGT" ++ String "010"%char
                                 ("+" ++ String "010"%char
                                           ("IIII" ++ String "010"%char ""))))%string.
Proof.
  split; [|split; reflexivity].
  unfold cFastFisherFlattening. cbn [length Z.of_nat Pos.of_succ_nat Z.eqb Pos.eqb].
  rewrite singleton_TagString_FA.
  unfold fastq_record, PyArr2FAString, PyArr2PVString, nl.
  f_equal. rewrite !str_append_assoc. cbn [String.append]. reflexivity.
Qed.

End SingletonFamily.

(** ** Discordant families in the fast comparison *)

Lemma length_cs_to_ia s : length (cs_to_ia s) = String.length s.
Proof. unfold cs_to_ia. rewrite length_map. apply length_list_ascii. Qed.

Lemma length_cs_to_ph s : length (cs_to_ph s) = String.length s.
Proof. unfold cs_to_ph. rewrite length_map. apply length_list_ascii. Qed.

Lemma np_array_2d_rows {A} (f : A -> list Z) (x0 : A) (xs : list A) n :
  forallb (fun x => (length (f x) =? n)%nat) (x0 :: xs) = true ->
  np_array_2d (map f (x0 :: xs)) = Some (map f (x0 :: xs))
  /\ forallb (fun r => (length r =? n)%nat) (map f (x0 :: xs)) = true.
Proof.
  intros H.
  assert (Hn : forall x, In x (x0 :: xs) -> length (f x) = n).
  { intros x Hx. rewrite forallb_forall in H. apply Nat.eqb_eq, H, Hx. }
  assert (Hrows : forall m, m = n ->
                   forallb (fun r => (length r =? m)%nat) (map f (x0 :: xs)) = true).
  { intros m ->. apply forallb_forall. intros r Hr. apply in_map_iff in Hr.
    destruct Hr as (x & <- & Hx). apply Nat.eqb_eq, Hn, Hx. }
  split; [|apply Hrows; reflexivity].
  unfold np_array_2d. cbn [map].
  change (f x0 :: map f xs) with (map f (x0 :: xs)).
  rewrite Hrows; [reflexivity|]. apply Hn. left. reflexivity.
Qed.

Lemma family_well_shaped_rows R0 rest :
  family_well_shaped (R0 :: rest) = true ->
  (0 < String.length (Fq.sequence R0))%nat
  /\ forallb (fun rec => (length (cs_to_ia (Fq.sequence rec))
                          =? String.length (Fq.sequence R0))%nat) (R0 :: rest) = true
  /\ forallb (fun rec => (length (cs_to_ph (Fq.quality rec))
                          =? String.length (Fq.sequence R0))%nat) (R0 :: rest) = true.
Proof.
  unfold family_well_shaped. intros H. apply andb_prop in H. destruct H as [Hlen Hall].
  apply Nat.ltb_lt in Hlen. split; [exact Hlen|].
  rewrite forallb_forall in Hall.
  split; apply forallb_forall; intros rec Hrec; specialize (Hall rec Hrec);
    apply andb_prop in Hall; destruct Hall as [Hs Hq].
  - rewrite length_cs_to_ia. exact Hs.
  - rewrite length_cs_to_ph. exact Hq.
Qed.

Lemma np_max_map_seq (f : nat -> Z) n :
  (0 < n)%nat -> np_max (map f (List.seq 0 n)) = Some (list_max (map f (List.seq 0 n))).
Proof.
  intros H. destruct n as [|n]; [lia|]. reflexivity.
Qed.

Lemma np_min_map_seq (f : nat -> Z) n :
  (0 < n)%nat -> np_min (map f (List.seq 0 n)) = Some (list_min (map f (List.seq 0 n))).
Proof.
  intros H. destruct n as [|n]; [lia|]. reflexivity.
Qed.

Section FastCompareFacts.
Variable PH2CHR_TRANS : ascii -> ascii.

(** What [cCompareFqRecsFast] returns for a well-shaped family of two
    records or more. *)
Lemma cCompareFqRecsFast_well_shaped R0 rest name minPVFrac minFAFrac minMaxFA :
  family_well_shaped (R0 :: rest) = true ->
  rest <> [] ->
  cCompareFqRecsFast PH2CHR_TRANS (R0 :: rest) name minPVFrac minFAFrac minMaxFA
  = (phredQualsStr <-
       cQualArr2QualStr PH2CHR_TRANS
         (family_phredQuals (R0 :: rest) minPVFrac minFAFrac minMaxFA) ;;
     Some (consensus_record (record_name R0 name) (Fq.comment R0)
             (Z.of_nat (length (R0 :: rest)))
             (Z.of_nat (String.length (Fq.sequence R0)))
             (family_FA (R0 :: rest))
             (family_phredQuals (R0 :: rest) minPVFrac minFAFrac minMaxFA)
             (family_newSeq (R0 :: rest))
             phredQualsStr)).
Proof.
  intros Hshape Hrest.
  destruct (family_well_shaped_rows _ _ Hshape) as (Hlen & Hseq & Hqual).
  destruct (np_array_2d_rows _ _ _ _ Hseq) as [Hs2d _].
  destruct (np_array_2d_rows _ _ _ _ Hqual) as [Hq2d Hqrows].
  unfold cCompareFqRecsFast.
  destruct (Z.eqb_spec (Z.of_nat (length (R0 :: rest))) 1) as [E|_].
  { destruct rest; [contradiction|]. simpl in E. lia. }
  unfold cRecListTo2DCharArray, quals_2d. rewrite Hs2d, Hq2d. cbn [Py.bind].
  rewrite Nat2Z.id, Hqrows. cbn [negb].
  unfold fast_amax at 1. rewrite np_max_map_seq by exact Hlen. cbn [Py.bind].
  unfold fast_FA at 1 2. rewrite np_min_map_seq, np_max_map_seq by exact Hlen.
  cbn [Py.bind].
  reflexivity.
Qed.

Lemma family_discordant_iff minFA maxFA nRecs minFAFrac minMaxFA :
  family_discordant minFA maxFA nRecs minFAFrac minMaxFA = true
  <-> (inject_Z minFA < minFAFrac * inject_Z nRecs
       \/ inject_Z maxFA < minMaxFA * inject_Z nRecs)%Q.
Proof.
  unfold family_discordant, Qltb. rewrite orb_true_iff, !negb_true_iff.
  assert (K : forall x y : Q, Qle_bool y x = false <-> (x < y)%Q).
  { intros x y. split; intros H.
    - apply Qnot_le_lt. intros Hle. apply Qle_bool_iff in Hle. congruence.
    - destruct (Qle_bool y x) eqn:E; [|reflexivity].
      apply Qle_bool_iff in E. apply Qlt_not_le in H. contradiction. }
  rewrite !K. reflexivity.
Qed.

Lemma cQualArr2QualStr_zeros n :
  cQualArr2QualStr PH2CHR_TRANS (repeat 0 n)
  = Some (string_of_list_ascii (repeat (PH2CHR_TRANS (Py.chr 0)) n)).
Proof.
  unfold cQualArr2QualStr, Py.array_B_tostring.
  assert (E : map (fun tmpInt => if tmpInt <? 94 then tmpInt else 93) (repeat 0 n)
              = repeat 0 n) by (rewrite map_repeat; reflexivity).
  rewrite E.
  assert (F : forallb (fun c => (0 <=? c) && (c <? 256)) (repeat 0 n) = true).
  { apply forallb_forall. intros c Hc. apply repeat_spec in Hc. subst. reflexivity. }
  rewrite F. cbn [Py.bind]. unfold string_translate.
  rewrite list_ascii_of_string_of_list_ascii, !map_repeat. reflexivity.
Qed.

Lemma map_const_zero {A} (l : list A) : map (fun _ => 0) l = repeat 0 (length l).
Proof.
  induction l as [|x l IH]; simpl; congruence.
Qed.

(** C9. A well-shaped family of two records or more whose smallest
    agreement count is below [minFAFrac * N], or whose largest agreement
    count is below [minMaxFA * N] (0.2 and 0.9 unless the caller says
    otherwise): the fast comparison emits quality 0 at every position, in the
    PV tag and, through the translation table, in the quality string. *)
Theorem cCompareFqRecsFast_discordant_family R0 rest name minPVFrac minFAFrac minMaxFA :
  family_well_shaped (R0 :: rest) = true ->
  (2 <= length (R0 :: rest))%nat ->
  (inject_Z (list_min (family_FA (R0 :: rest)))
     < minFAFrac * inject_Z (Z.of_nat (length (R0 :: rest)))
   \/ inject_Z (list_max (family_FA (R0 :: rest)))
        < minMaxFA * inject_Z (Z.of_nat (length (R0 :: rest))))%Q ->
  family_phredQuals (R0 :: rest) minPVFrac minFAFrac minMaxFA
  = repeat 0 (String.length (Fq.sequence R0))
  /\ cCompareFqRecsFast PH2CHR_TRANS (R0 :: rest) name minPVFrac minFAFrac minMaxFA
     = Some (consensus_record (record_name R0 name) (Fq.comment R0)
               (Z.of_nat (length (R0 :: rest)))
               (Z.of_nat (String.length (Fq.sequence R0)))
               (family_FA (R0 :: rest))
               (repeat 0 (String.length (Fq.sequence R0)))
               (family_newSeq (R0 :: rest))
               (string_of_list_ascii
                  (repeat (PH2CHR_TRANS (Py.chr 0)) (String.length (Fq.sequence R0))))).
Proof.
  intros Hshape Hn Hdisc.
  assert (Hrest : rest <> []) by (destruct rest; [simpl in Hn; lia|discriminate]).
  assert (Hq : family_phredQuals (R0 :: rest) minPVFrac minFAFrac minMaxFA
               = repeat 0 (String.length (Fq.sequence R0))).
  { unfold family_phredQuals. apply family_discordant_iff in Hdisc. rewrite Hdisc.
    rewrite map_const_zero, map_repeat, length_map.
    unfold family_amax, fast_amax. rewrite length_map, length_seq. reflexivity. }
  split; [exact Hq|].
  rewrite cCompareFqRecsFast_well_shaped by assumption.
  rewrite Hq, cQualArr2QualStr_zeros. reflexivity.
Qed.

(** A worked example: the family of three records "AAAA" at quality 30
    and one record "AAAT" whose last quality is 10, at the default
    thresholds.  The fast comparison calls "AAAA", counts 4, 4, 4, 3
    agreeing records and reports FM=4 and ND=1. *)
Example cCompareFqRecsFast_three_against_one :
  cCompareFqRecsFast PH2CHR_TRANS family_concordant_example None (1 # 10) (2 # 10) (9 # 10)
  = Some (consensus_record "r" "c" 4 4 [4; 4; 4; 3] [120; 120; 120; 90]
            [65; 65; 65; 65]
            (string_translate PH2CHR_TRANS (bytes_tostring [93; 93; 93; 90])))
  /\ 4 * 4 - sum_Z [4; 4; 4; 3] = 1.
Proof.
  split; reflexivity.
Qed.

End FastCompareFacts.

(** The family "AAAA", "CCCC", "GGGG" at the default thresholds: every
    agreement count is 1, below 0.9 * 3. *)
Lemma cCompareFqRecsFast_discordant_family_witness :
  family_well_shaped family_discordant_example = true
  /\ (2 <= length family_discordant_example)%nat
  /\ (inject_Z (list_max (family_FA family_discordant_example))
        < (9 # 10) * inject_Z (Z.of_nat (length family_discordant_example)))%Q
  /\ family_phredQuals family_discordant_example (1 # 10) (2 # 10) (9 # 10) = [0; 0; 0; 0].
Proof.
  assert (S : family_well_shaped family_discordant_example = true) by reflexivity.
  assert (N : (2 <= length family_discordant_example)%nat) by (simpl; lia).
  assert (D : (inject_Z (list_max (family_FA family_discordant_example))
               < (9 # 10) * inject_Z (Z.of_nat (length family_discordant_example)))%Q)
    by reflexivity.
  split; [exact S|]. split; [exact N|]. split; [exact D|].
  exact (proj1 (@cCompareFqRecsFast_discordant_family ph2chr_plus33
                  (fq "AAAA" "IIII") [fq "CCCC" "IIII"; fq "GGGG" "IIII"] None
                  (1 # 10) (2 # 10) (9 # 10) S N (or_intror D))).
Defined.

(** ** The positions of a read's layout *)

Lemma getitem_nth {A} (l : list A) (d : A) i :
  0 <= i < Z.of_nat (length l) -> Py.getitem l i = Some (nth (Z.to_nat i) l d).
Proof.
  intros H. unfold Py.getitem. destruct (Z.ltb_spec i 0); [lia|].
  apply nth_error_nth'. lia.
Qed.

Lemma mapM_total {A B} (g : A -> option B) (f : A -> B) l :
  (forall x, In x l -> g x = Some (f x)) -> Py.mapM g l = Some (map f l).
Proof.
  induction l as [|x l IH]; intros H; simpl; [reflexivity|].
  rewrite (H x) by (left; reflexivity).
  rewrite IH by (intros; apply H; right; assumption). reflexivity.
Qed.

Section LayoutPositionsOfRead.
Variable rec : AlignedSegment.

Lemma base_at_nth x0 :
  0 <= x0 < Z.of_nat (String.length (query_sequence rec)) ->
  base_at rec x0 = Some (nth (Z.to_nat x0) (cs_to_ia (query_sequence rec)) 0).
Proof.
  intros H. unfold base_at.
  rewrite (@getitem_nth _ (list_ascii_of_string (query_sequence rec)) Ascii.zero)
    by (rewrite length_list_ascii; exact H).
  cbn [Py.bind]. unfold cs_to_ia.
  change 0 with (Py.ord Ascii.zero). rewrite map_nth. reflexivity.
Qed.

Lemma layout_pos_of_pair_in_range op l refpos qpos x0x1 :
  layout_op op = true ->
  0 <= qpos ->
  qpos + next_qpos op l 0 <= Z.of_nat (String.length (query_sequence rec)) ->
  qpos + next_qpos op l 0 <= Z.of_nat (length (quals_of rec)) ->
  qpos + next_qpos op l 0 <= Z.of_nat (length (FA_values rec)) ->
  In x0x1 (pairs_of_op op l refpos qpos) ->
  layout_pos_of_pair (CigarOpToCigarChar op) rec (FA_values rec) x0x1
  = Some (read_position rec (CigarOpToCigarChar op) x0x1).
Proof.
  intros Hop Hq Hs Hqu Hag Hx.
  unfold layout_op in Hop. unfold pairs_of_op in Hx.
  repeat (apply orb_prop in Hop; destruct Hop as [Hop|Hop]);
    apply Z.eqb_eq in Hop; subst op; simpl in Hx;
    apply in_map_iff in Hx; destruct Hx as (i & <- & Hi); apply In_zrange in Hi;
    unfold next_qpos in Hs, Hqu, Hag; simpl in Hs, Hqu, Hag;
    unfold layout_pos_of_pair, read_position;
    try reflexivity;
    rewrite base_at_nth by lia;
    rewrite (@getitem_nth _ (quals_of rec) 0) by lia;
    rewrite (@getitem_nth _ (FA_values rec) 0) by lia;
    reflexivity.
Qed.

(** The loop of [makeLayoutTuple] builds the positions of the entries that
    are left, and sets [firstMapped] at the first "M" entry it meets. *)
Lemma makeLayoutTuple_loop_positions cig :
  has_FA_tag rec = true ->
  forall done refpos qpos fm acc,
    aligned_pairs rec = done ++ aligned_pairs_from refpos qpos cig ->
    forallb (fun ol => layout_op (fst ol) && (0 <? snd ol)) cig = true ->
    0 <= qpos ->
    qpos + query_length cig <= Z.of_nat (String.length (query_sequence rec)) ->
    qpos + query_length cig <= Z.of_nat (length (quals_of rec)) ->
    qpos + query_length cig <= Z.of_nat (length (FA_values rec)) ->
    makeLayoutTuple_loop rec cig (Z.of_nat (length done)) fm acc
    = Some (acc ++ read_positions_from rec refpos qpos cig,
            match before_first_match cig with
            | Some (n, _) => if fm <? 0 then Z.of_nat (length done) + n else fm
            | None => fm
            end).
Proof.
  intros HFA.
  induction cig as [|[op l] rest IH];
    intros done refpos qpos fm acc Hap Hall Hq Hs Hqu Hag.
  - simpl. rewrite app_nil_r. reflexivity.
  - cbn [forallb fst snd] in Hall. apply andb_prop in Hall.
    destruct Hall as [Hhd Hall]. apply andb_prop in Hhd. destruct Hhd as [Hop Hl].
    apply Z.ltb_lt in Hl.
    pose proof (query_length_nonneg _ Hall) as Hnn.
    cbn [query_length] in Hs, Hqu, Hag.
    assert (Hstep : 0 <= next_qpos op l 0)
      by (unfold next_qpos; destruct (op_consumes_both op || op_consumes_query op); lia).
    cbn [aligned_pairs_from] in Hap.
    cbn [makeLayoutTuple_loop]. unfold CigarOpToLayoutPosList.
    rewrite (@agrees_of_FA_values rec HFA). cbn [Py.bind].
    rewrite Hap, slice_middle by (apply length_pairs_of_op; exact Hop).
    rewrite (@mapM_total _ _ _ (read_position rec (CigarOpToCigarChar op)))
      by (intros x Hx; apply (@layout_pos_of_pair_in_range op l refpos qpos);
          auto; lia).
    cbn [Py.bind].
    rewrite app_assoc in Hap.
    rewrite (next_qpos_shift op l qpos) in Hap.
    specialize (IH (done ++ pairs_of_op op l refpos qpos) _ _
                   (if (op =? 0) && (fm <? 0) then Z.of_nat (length done) else fm)
                   (acc ++ map (read_position rec (CigarOpToCigarChar op))
                               (pairs_of_op op l refpos qpos)) Hap Hall).
    rewrite length_app, length_pairs_of_op in IH by exact Hop.
    replace (Z.of_nat (length done + Z.to_nat l)) with (Z.of_nat (length done) + l)
      in IH by lia.
    rewrite IH by lia.
    cbn [read_positions_from before_first_match].
    rewrite <- app_assoc, (next_qpos_shift op l qpos).
    f_equal. f_equal.
    destruct (Z.eqb_spec op 0) as [->|Hne]; cbn [andb].
    + destruct (fm <? 0) eqn:Efm.
      * destruct (before_first_match rest) as [[n r]|];
          [destruct (Z.ltb_spec (Z.of_nat (length done)) 0)|]; lia.
      * destruct (before_first_match rest) as [[n r]|]; [rewrite Efm|]; reflexivity.
    + destruct (before_first_match rest) as [[n r]|]; [|reflexivity].
      destruct (fm <? 0); lia.
Qed.

End LayoutPositionsOfRead.

(** The layout of a well-formed read. *)
Lemma fromread_positions rec :
  read_well_formed rec = true ->
  fromread rec
  = Some {| positions := read_positions_from rec (rec_pos rec) 0 (cigar rec);
            firstMapped := match before_first_match (cigar rec) with
                           | Some (n, _) => n
                           | None => -1
                           end;
            isMerged := match tag_MP rec with
                        | Some v => v =? 84
                        | None => false
                        end |}.
Proof.
  unfold read_well_formed. intros H.
  apply andb_prop in H. destruct H as [H Hag].
  apply andb_prop in H. destruct H as [H HFA].
  apply andb_prop in H. destruct H as [H Hqu].
  apply andb_prop in H. destruct H as [Hwf Hs].
  apply Z.leb_le in Hag, Hqu, Hs.
  unfold cigar_well_formed in Hwf. apply andb_prop in Hwf. destruct Hwf as [Hall _].
  unfold fromread, makeLayoutTuple.
  pose proof (@makeLayoutTuple_loop_positions rec (cigar rec) HFA [] (rec_pos rec) 0 (-1) []
                eq_refl Hall) as E.
  cbn [length Z.of_nat app] in E. rewrite E by lia.
  cbn [Py.bind fst snd].
  destruct (before_first_match (cigar rec)) as [[n r]|]; reflexivity.
Qed.

Lemma map_of_nat_seq_shift k n :
  forall s, map Z.of_nat (List.seq (k + s) n)
            = map (fun x => Z.of_nat k + Z.of_nat x) (List.seq s n).
Proof.
  induction n as [|n IH]; intros s; simpl; [reflexivity|].
  f_equal; [lia|]. rewrite <- IH. f_equal. f_equal. lia.
Qed.

Lemma zrange_add a b :
  0 <= a -> 0 <= b -> zrange (a + b) = zrange a ++ map (fun i => a + i) (zrange b).
Proof.
  intros Ha Hb. unfold zrange.
  rewrite Z2Nat.inj_add, seq_app, map_app by lia. f_equal.
  rewrite map_map.
  replace (0 + Z.to_nat a)%nat with (Z.to_nat a + 0)%nat by lia.
  rewrite map_of_nat_seq_shift. apply map_ext. intros x. lia.
Qed.

Lemma map_nth_zrange {A} (l : list A) (d : A) q n :
  0 <= q -> 0 <= n -> q + n <= Z.of_nat (length l) ->
  map (fun i => nth (Z.to_nat (q + i)) l d) (zrange n)
  = firstn (Z.to_nat n) (skipn (Z.to_nat q) l).
Proof.
  intros Hq Hn Hlen. unfold zrange. rewrite map_map.
  apply (@nth_ext _ _ _ d d).
  - rewrite length_map, length_seq, length_firstn, length_skipn. lia.
  - rewrite length_map, length_seq. intros i Hi.
    rewrite nth_firstn, nth_skipn.
    destruct (Nat.ltb_spec i (Z.to_nat n)); [|lia].
    rewrite (@nth_indep _ _ _ d (nth (Z.to_nat (q + Z.of_nat 0)) l d))
      by (rewrite length_map, length_seq; exact Hi).
    rewrite (map_nth (fun x => nth (Z.to_nat (q + Z.of_nat x)) l d)), seq_nth by exact Hi.
    f_equal. lia.
Qed.

Lemma map_filter_kept {A B C} (f : A -> B) (keep : B -> bool) (g : B -> C)
    (h : A -> C) l :
  (forall x, In x l -> keep (f x) = true /\ g (f x) = h x) ->
  map g (filter keep (map f l)) = map h l.
Proof.
  induction l as [|x l IH]; intros H; simpl; [reflexivity|].
  destruct (H x (or_introl eq_refl)) as [Hk Hg]. rewrite Hk. simpl. rewrite Hg.
  rewrite IH by (intros; apply H; right; assumption). reflexivity.
Qed.

Lemma filter_dropped {A B} (f : A -> B) (keep : B -> bool) l :
  (forall x, keep (f x) = false) -> filter keep (map f l) = [].
Proof.
  intros H. induction l as [|x l IH]; simpl; [reflexivity|].
  rewrite H. exact IH.
Qed.

(** What the layout of a read keeps of a per-base annotation: a query
    filters the positions with [keep] and reads [g]; each position that
    carries the query base [x0] is kept and gives [v x0], and the positions
    of a deletion are dropped. *)
Lemma read_positions_extract rec (keep : LayoutPos -> bool) (g : LayoutPos -> Z)
    (v : Z -> Z) bound :
  (forall x0 x1 c, 0 <= x0 < bound -> In c [77; 73; 83] ->
                   keep (read_position rec c (Some x0, x1)) = true
                   /\ g (read_position rec c (Some x0, x1)) = v x0) ->
  (forall x1 c, keep (read_position rec c (None, x1)) = false) ->
  forall cig refpos qpos,
    forallb (fun ol => layout_op (fst ol) && (0 <? snd ol)) cig = true ->
    0 <= qpos -> qpos + query_length cig <= bound ->
    map g (filter keep (read_positions_from rec refpos qpos cig))
    = map (fun i => v (qpos + i)) (zrange (query_length cig)).
Proof.
  intros Hkeep Hdrop.
  induction cig as [|[op l] rest IH]; intros refpos qpos Hall Hq Hb; [reflexivity|].
  cbn [forallb fst snd] in Hall. apply andb_prop in Hall.
  destruct Hall as [Hhd Hall]. apply andb_prop in Hhd. destruct Hhd as [Hop Hl].
  apply Z.ltb_lt in Hl.
  pose proof (query_length_nonneg _ Hall) as Hnn.
  cbn [read_positions_from query_length] in *.
  rewrite filter_app, map_app.
  assert (Hstep : 0 <= next_qpos op l 0)
    by (unfold next_qpos; destruct (op_consumes_both op || op_consumes_query op); lia).
  rewrite (next_qpos_shift op l qpos).
  rewrite IH by (auto; lia).
  rewrite zrange_add, map_app, map_map by lia.
  f_equal.
  - unfold layout_op in Hop.
    repeat (apply orb_prop in Hop; destruct Hop as [Hop|Hop]);
      apply Z.eqb_eq in Hop; subst op.
    + change (next_qpos 0 l 0) with l in *.
      change (pairs_of_op 0 l refpos qpos)
        with (map (fun i => (Some (qpos + i), Some (refpos + i))) (zrange l)).
      rewrite map_map. apply map_filter_kept. intros i Hi. apply In_zrange in Hi.
      apply Hkeep; [lia|simpl; auto].
    + change (next_qpos 1 l 0) with l in *.
      change (pairs_of_op 1 l refpos qpos)
        with (map (fun i => (Some (qpos + i), @None Z)) (zrange l)).
      rewrite map_map. apply map_filter_kept. intros i Hi. apply In_zrange in Hi.
      apply Hkeep; [lia|simpl; auto].
    + change (next_qpos 2 l 0) with 0 in *.
      change (pairs_of_op 2 l refpos qpos)
        with (map (fun i => (@None Z, Some (refpos + i))) (zrange l)).
      rewrite map_map, filter_dropped by (intros; apply Hdrop). reflexivity.
    + change (next_qpos 4 l 0) with l in *.
      change (pairs_of_op 4 l refpos qpos)
        with (map (fun i => (Some (qpos + i), @None Z)) (zrange l)).
      rewrite map_map. apply map_filter_kept. intros i Hi. apply In_zrange in Hi.
      apply Hkeep; [lia|simpl; auto].
  - apply map_ext. intros i. f_equal. lia.
Qed.

Lemma forallb_nonneg_nth l i :
  forallb (fun a => 0 <=? a) l = true -> 0 <= nth i l 0.
Proof.
  intros H. destruct (Nat.ltb_spec i (length l)) as [Hi|Hi].
  - rewrite forallb_forall in H. apply Z.leb_le, H, nth_In, Hi.
  - rewrite nth_overflow by exact Hi. lia.
Qed.

Lemma array_B_tostring_cs_to_ia s :
  Py.array_B_tostring (cs_to_ia s) = Some s.
Proof.
  unfold Py.array_B_tostring, cs_to_ia.
  assert (R : forallb (fun c => (0 <=? c) && (c <? 256))
                      (map Py.ord (list_ascii_of_string s)) = true).
  { apply forallb_forall. intros c Hc. apply in_map_iff in Hc.
    destruct Hc as (a & <- & _). unfold Py.ord.
    pose proof (N_ascii_bounded a).
    apply andb_true_intro. split; [apply Z.leb_le|apply Z.ltb_lt]; lia. }
  rewrite R, map_map. f_equal.
  rewrite <- (string_of_list_ascii_of_string s) at 2. f_equal.
  rewrite <- (map_id (list_ascii_of_string s)) at 2.
  apply map_ext. intros a. unfold Py.chr, Py.ord.
  rewrite N2Z.id. apply ascii_N_embedding.
Qed.

Lemma map_seq_combine (f : Z -> Z -> Z) (codes : list Z) :
  forall quals, (length codes <= length quals)%nat ->
    map (fun i => f (nth i codes 0) (nth i quals 0)) (List.seq 0 (length codes))
    = map (fun bq => f (fst bq) (snd bq)) (combine codes quals).
Proof.
  induction codes as [|c codes IH]; intros quals H; [reflexivity|].
  destruct quals as [|q quals]; [simpl in H; lia|].
  cbn [length]. rewrite <- cons_seq, <- seq_shift, map_cons, map_map.
  cbn [combine map fst snd nth]. f_equal. apply IH. simpl in H. lia.
Qed.

Lemma map_zrange_combine (codes quals : list Z) (f : Z -> Z -> Z) :
  (length codes <= length quals)%nat ->
  map (fun i => f (nth (Z.to_nat i) codes 0) (nth (Z.to_nat i) quals 0))
      (zrange (Z.of_nat (length codes)))
  = map (fun bq => f (fst bq) (snd bq)) (combine codes quals).
Proof.
  intros H. unfold zrange. rewrite Nat2Z.id, map_map.
  rewrite <- map_seq_combine by exact H.
  apply map_ext. intros i. rewrite Nat2Z.id. reflexivity.
Qed.

Lemma read_well_formed_parts rec :
  read_well_formed rec = true ->
  forallb (fun ol => layout_op (fst ol) && (0 <? snd ol)) (cigar rec) = true
  /\ query_length (cigar rec) <= Z.of_nat (String.length (query_sequence rec))
  /\ query_length (cigar rec) <= Z.of_nat (length (quals_of rec))
  /\ query_length (cigar rec) <= Z.of_nat (length (FA_values rec)).
Proof.
  unfold read_well_formed. intros H.
  apply andb_prop in H. destruct H as [H Hag].
  apply andb_prop in H. destruct H as [H HFA].
  apply andb_prop in H. destruct H as [H Hqu].
  apply andb_prop in H. destruct H as [Hwf Hs].
  apply Z.leb_le in Hag, Hqu, Hs.
  unfold cigar_well_formed in Hwf. apply andb_prop in Hwf. destruct Hwf as [Hall _].
  auto.
Qed.

(** X7. Round trip of the bases: the layout of a well-formed read that
    carries an FA tag and whose sequence has exactly the bases that the
    CIGAR consumes, with non-negative qualities and agreements, gives back
    the read's sequence ([getSeq]); deletions contribute no base. *)
Theorem fromread_getSeq rec :
  read_exact rec = true ->
  exists L, fromread rec = Some L /\ getSeq L = Some (query_sequence rec).
Proof.
  unfold read_exact. intros H.
  apply andb_prop in H. destruct H as [H Hag].
  apply andb_prop in H. destruct H as [H Hqu].
  apply andb_prop in H. destruct H as [Hwf Hlen]. apply Z.eqb_eq in Hlen.
  rewrite (fromread_positions _ Hwf). eexists. split; [reflexivity|].
  destruct (read_well_formed_parts _ Hwf) as (Hall & _).
  unfold getSeq, getSeqArr. cbn [positions].
  rewrite (@read_positions_extract rec _ _
             (fun x0 => nth (Z.to_nat x0) (cs_to_ia (query_sequence rec)) 0)
             (query_length (cigar rec))); auto; try lia.
  - rewrite (@map_nth_zrange _ (cs_to_ia (query_sequence rec)) 0 0)
      by (rewrite ?length_cs_to_ia; lia || apply query_length_nonneg, Hall).
    rewrite Hlen, Nat2Z.id. cbn [Z.to_nat skipn].
    rewrite <- length_cs_to_ia, firstn_all. apply array_B_tostring_cs_to_ia.
  - intros x0 x1 c Hx Hc.
    assert (Ha : 0 <= nth (Z.to_nat x0) (FA_values rec) 0)
      by (apply forallb_nonneg_nth, Hag).
    destruct x1; simpl in Hc; destruct Hc as [<-|[<-|[<-|[]]]]; cbn;
      (split; [|reflexivity]); apply Z.gtb_lt; lia.
  - intros x1 c. destruct x1; reflexivity.
Qed.

Lemma fromread_getSeq_witness :
  read_exact read_2S3M1I2M2D1M1S_tagged = true
  /\ exists L, fromread read_2S3M1I2M2D1M1S_tagged = Some L
               /\ getSeq L = Some (query_sequence read_2S3M1I2M2D1M1S_tagged).
Proof.
  split; [reflexivity|].
  exact (@fromread_getSeq read_2S3M1I2M2D1M1S_tagged eq_refl).
Defined.

(** X8. Round trip of the annotations: for such a read (it carries an FA
    tag) the layout gives back the agreements of the tag ([cGetAgreement])
    and the qualities ([cGetQual]), except that the quality under an "N"
    base is 0; the sequence and the qualities have one length, which is what
    [PyLayout.__str__] asserts. *)
Theorem fromread_annotations rec :
  read_exact rec = true ->
  exists L,
    fromread rec = Some L
    /\ cGetQual L = stored_qualities (cs_to_ia (query_sequence rec)) (quals_of rec)
    /\ cGetAgreement L = firstn (String.length (query_sequence rec)) (FA_values rec)
    /\ length (getSeqArr L) = length (cGetQual L).
Proof.
  unfold read_exact. intros H.
  apply andb_prop in H. destruct H as [H Hag].
  apply andb_prop in H. destruct H as [H Hqu].
  apply andb_prop in H. destruct H as [Hwf Hlen]. apply Z.eqb_eq in Hlen.
  rewrite (fromread_positions _ Hwf). eexists. split; [reflexivity|].
  destruct (read_well_formed_parts _ Hwf) as (Hall & Hs & Hq & Ha).
  pose proof (query_length_nonneg _ Hall) as Hnn.
  assert (Equal : cGetQual
            {| positions := read_positions_from rec (rec_pos rec) 0 (cigar rec);
               firstMapped := match before_first_match (cigar rec) with
                              | Some (n, _) => n
                              | None => -1
                              end;
               isMerged := match tag_MP rec with
                           | Some v => v =? 84
                           | None => false
                           end |}
          = stored_qualities (cs_to_ia (query_sequence rec)) (quals_of rec)).
  { unfold cGetQual, stored_qualities. cbn [positions].
    rewrite (@read_positions_extract rec _ _
               (fun x0 => if nth (Z.to_nat x0) (cs_to_ia (query_sequence rec)) 0 =? 78
                          then 0 else nth (Z.to_nat x0) (quals_of rec) 0)
               (query_length (cigar rec))); auto; try lia.
    - rewrite Hlen, <- length_cs_to_ia.
      rewrite <- (@map_zrange_combine _ _ (fun b q => if b =? 78 then 0 else q))
        by (rewrite length_cs_to_ia; lia).
      reflexivity.
    - intros x0 x1 c Hx Hc.
      assert (Hq0 : 0 <= nth (Z.to_nat x0) (quals_of rec) 0)
        by (apply forallb_nonneg_nth, Hqu).
      destruct x1; simpl in Hc; destruct Hc as [<-|[<-|[<-|[]]]]; cbn;
        destruct (nth (Z.to_nat x0) (cs_to_ia (query_sequence rec)) 0 =? 78); cbn;
        (split; [|reflexivity]); rewrite ?andb_true_r; try reflexivity;
        apply Z.gtb_lt; lia.
    - intros x1 c. destruct x1; reflexivity. }
  split; [exact Equal|]. split.
  - unfold cGetAgreement. cbn [positions].
    rewrite (@read_positions_extract rec _ _
               (fun x0 => nth (Z.to_nat x0) (FA_values rec) 0)
               (query_length (cigar rec))); auto; try lia.
    + rewrite (@map_nth_zrange _ (FA_values rec) 0 0) by lia.
      rewrite Hlen, Nat2Z.id. reflexivity.
    + intros x0 x1 c Hx Hc.
      assert (Ha0 : 0 <= nth (Z.to_nat x0) (FA_values rec) 0)
        by (apply forallb_nonneg_nth, Hag).
      destruct x1; simpl in Hc; destruct Hc as [<-|[<-|[<-|[]]]]; cbn;
        (split; [|reflexivity]); apply Z.gtb_lt; lia.
    + intros x1 c. destruct x1; reflexivity.
  - rewrite Equal. unfold getSeqArr, stored_qualities. cbn [positions].
    rewrite (@read_positions_extract rec _ _
               (fun x0 => nth (Z.to_nat x0) (cs_to_ia (query_sequence rec)) 0)
               (query_length (cigar rec))); auto; try lia.
    + rewrite !length_map, length_zrange, length_combine, length_cs_to_ia. lia.
    + intros x0 x1 c Hx Hc.
      assert (Ha0 : 0 <= nth (Z.to_nat x0) (FA_values rec) 0)
        by (apply forallb_nonneg_nth, Hag).
      destruct x1; simpl in Hc; destruct Hc as [<-|[<-|[<-|[]]]]; cbn;
        (split; [|reflexivity]); apply Z.gtb_lt; lia.
    + intros x1 c. destruct x1; reflexivity.
Qed.

Lemma fromread_annotations_witness :
  read_exact read_2S3M1I2M2D1M1S_tagged = true
  /\ exists L, fromread read_2S3M1I2M2D1M1S_tagged = Some L
               /\ cGetQual L = [90; 93; 96; 99; 102; 105; 108; 111; 114; 117]
               /\ cGetAgreement L = [3; 3; 3; 3; 3; 2; 3; 3; 3; 3].
Proof.
  split; [reflexivity|].
  destruct (@fromread_annotations read_2S3M1I2M2D1M1S_tagged eq_refl)
    as (L & HL & HQ & HA & _).
  exists L. split; [exact HL|]. split; [exact HQ|exact HA].
Defined.

(** ** Where the layout of a read starts *)

Lemma alignment_start_of_app a b :
  Forall (fun p => operation p <> 77) a ->
  alignment_start_of (a ++ b) = alignment_start_of b.
Proof.
  induction 1 as [|p a Hp _ IH]; simpl; [reflexivity|].
  destruct (Z.eqb_spec (operation p) 77); [contradiction|exact IH].
Qed.

Lemma firstRefPos_from_app a b :
  Forall (fun p => operation p <> 77) a ->
  forall count,
    firstRefPos_from count (a ++ b) = firstRefPos_from (count + Z.of_nat (length a)) b.
Proof.
  induction 1 as [|p a Hp _ IH]; intros count; simpl.
  - f_equal. lia.
  - destruct (Z.eqb_spec (operation p) 77); [contradiction|].
    rewrite IH. f_equal. lia.
Qed.

Lemma zrange_positive l : 0 < l -> zrange l = 0 :: map (fun i => 1 + i) (zrange (l - 1)).
Proof.
  intros H. replace l with (1 + (l - 1)) at 1 by lia.
  rewrite zrange_add by lia. reflexivity.
Qed.

Lemma next_refpos_shift op l refpos : next_refpos op l refpos = refpos + next_refpos op l 0.
Proof.
  unfold next_refpos. destruct (op_consumes_both op || op_consumes_ref op); lia.
Qed.

Lemma read_positions_first_match rec cig :
  forall refpos qpos count n r,
    forallb (fun ol => layout_op (fst ol) && (0 <? snd ol)) cig = true ->
    before_first_match cig = Some (n, r) ->
    alignment_start_of (read_positions_from rec refpos qpos cig) = refpos + r
    /\ firstRefPos_from count (read_positions_from rec refpos qpos cig)
       = refpos + r - (count + n).
Proof.
  induction cig as [|[op l] rest IH]; intros refpos qpos count n r Hall Hb;
    [discriminate|].
  cbn [forallb fst snd] in Hall. apply andb_prop in Hall.
  destruct Hall as [Hhd Hall]. apply andb_prop in Hhd. destruct Hhd as [Hop Hl].
  apply Z.ltb_lt in Hl.
  cbn [before_first_match] in Hb. cbn [read_positions_from].
  destruct (Z.eqb_spec op 0) as [->|Hne].
  - inversion Hb; subst.
    change (pairs_of_op 0 l refpos qpos)
      with (map (fun i => (Some (qpos + i), Some (refpos + i))) (zrange l)).
    rewrite zrange_positive by exact Hl. cbn. split; lia.
  - destruct (before_first_match rest) as [[n' r']|] eqn:E; [|discriminate].
    inversion Hb; subst.
    assert (Hblock : Forall (fun p => operation p <> 77)
                       (map (read_position rec (CigarOpToCigarChar op))
                            (pairs_of_op op l refpos qpos))).
    { apply Forall_map, Forall_forall. intros x Hx.
      unfold layout_op in Hop. unfold pairs_of_op in Hx.
      repeat (apply orb_prop in Hop; destruct Hop as [Hop|Hop]);
        apply Z.eqb_eq in Hop; subst op; try contradiction; simpl in Hx;
        apply in_map_iff in Hx; destruct Hx as (i & <- & _); cbn; discriminate. }
    rewrite alignment_start_of_app, firstRefPos_from_app by exact Hblock.
    rewrite length_map, length_pairs_of_op by exact Hop.
    destruct (IH (next_refpos op l refpos) (next_qpos op l qpos)
                 (count + Z.of_nat (Z.to_nat l)) n' r' Hall eq_refl) as [I1 I2].
    rewrite I1, I2, (next_refpos_shift op l refpos). split; lia.
Qed.

(** X9. For a well-formed read that carries an FA tag and whose CIGAR has
    an "M" entry, with [n] layout positions and [r] reference bases before
    the first "M" position:
    [firstMapped] is [n], [getAlignmentStart] is the read's reference start
    plus [r], and [cGetRefPosForFirstPos] is that minus [n], the reference
    coordinate that the first slot of the layout would have (the read's
    start minus the leading soft clip when nothing else precedes the first
    match). *)
Theorem fromread_first_positions rec n r :
  read_well_formed rec = true ->
  before_first_match (cigar rec) = Some (n, r) ->
  exists L,
    fromread rec = Some L
    /\ firstMapped L = n
    /\ getAlignmentStart L = rec_pos rec + r
    /\ cGetRefPosForFirstPos L = rec_pos rec + r - n.
Proof.
  intros Hwf Hb. rewrite (fromread_positions _ Hwf). eexists. split; [reflexivity|].
  destruct (read_well_formed_parts _ Hwf) as (Hall & _).
  unfold getAlignmentStart, cGetRefPosForFirstPos. cbn [positions firstMapped].
  rewrite Hb.
  destruct (@read_positions_first_match rec (cigar rec) (rec_pos rec) 0 0 n r Hall Hb)
    as [I1 I2].
  rewrite I1, I2. repeat split; lia.
Qed.

Lemma fromread_first_positions_witness :
  read_well_formed read_2S3M1I2M2D1M1S_tagged = true
  /\ before_first_match (cigar read_2S3M1I2M2D1M1S_tagged) = Some (2, 0)
  /\ exists L, fromread read_2S3M1I2M2D1M1S_tagged = Some L
               /\ firstMapped L = 2
               /\ getAlignmentStart L = 100 + 0
               /\ cGetRefPosForFirstPos L = 100 + 0 - 2.
Proof.
  split; [reflexivity|]. split; [reflexivity|].
  exact (@fromread_first_positions read_2S3M1I2M2D1M1S_tagged 2 0 eq_refl eq_refl).
Defined.

(** ** More on merging two positions *)

Section MergePositionsMore.
Variables agreed disc : Z -> Z -> Z.

(** X10. Whatever the two positions are, [cMergePositions] returns a
    position that is marked merged, keeps the in-read coordinate of [pos1],
    and is marked either agreed (2) or disagreed (0), never unmerged (1).  It
    is marked agreed exactly when the bases are equal and the operations are
    equal or one of them is a soft clip. *)
Theorem cMergePositions_flags pos1 pos2 :
  merged (cMergePositions agreed disc pos1 pos2) = true
  /\ getMergeSet (cMergePositions agreed disc pos1 pos2) = true
  /\ readPos (cMergePositions agreed disc pos1 pos2) = readPos pos1
  /\ mergeAgreed (cMergePositions agreed disc pos1 pos2)
     = (if (base pos1 =? base pos2)
           && ((operation pos2 =? operation pos1)
               || (operation pos2 =? 83) || (operation pos1 =? 83))
        then 2 else 0).
Proof.
  unfold cMergePositions, getMergeSet.
  destruct (base pos1 =? base pos2); cbn [andb].
  - destruct (operation pos2 =? operation pos1); cbn [orb]; [repeat split|].
    destruct (operation pos2 =? 83); cbn [orb]; [repeat split|].
    destruct (operation pos1 =? 83); cbn [orb]; [repeat split|].
    destruct (negb (operation pos1 =? 68) && negb (operation pos1 =? 73));
      repeat split.
  - destruct (operation pos1 =? operation pos2).
    + destruct (quality pos1 >? quality pos2); repeat split.
    + destruct ((base pos2 =? 78) || (operation pos2 =? 83)); repeat split.
Qed.

(** X11. The order of the arguments matters when one position is a soft
    clip and the bases differ.  With the soft clip second, [pos1] overrides
    it: the result is [pos1] itself, marked merged and disagreed.  With the
    soft clip first and a second position whose base is not "N", the result
    keeps the base of the soft clip under the operation "N" (78), which
    [test_merge_success] counts as a failed merge. *)
Theorem cMergePositions_soft_clip_order p s :
  operation s = 83 -> operation p <> 83 ->
  base p <> base s -> base p <> 78 ->
  cMergePositions agreed disc p s
  = {| pos := pos p; readPos := readPos p; base := base p; operation := operation p;
       quality := quality p; agreement := agreement p;
       merged := true; mergeAgreed := 0 |}
  /\ operation (cMergePositions agreed disc s p) = 78
  /\ base (cMergePositions agreed disc s p) = base s.
Proof.
  intros Hs Hp Hb Hn. unfold cMergePositions. rewrite Hs.
  destruct (Z.eqb_spec (base p) (base s)) as [|_]; [contradiction|].
  destruct (Z.eqb_spec (base s) (base p)) as [E|_]; [symmetry in E; contradiction|].
  destruct (Z.eqb_spec (operation p) 83) as [|_]; [contradiction|].
  destruct (Z.eqb_spec 83 (operation p)) as [E|_]; [symmetry in E; contradiction|].
  rewrite orb_true_r.
  destruct (Z.eqb_spec (base p) 78) as [|_]; [contradiction|]. cbn [orb].
  split; [|split; reflexivity].
  unfold LayoutPos_init. f_equal.
  destruct (Z.eqb_spec (base p) 78); [contradiction|reflexivity].
Qed.

(** X12. When neither input carries the operation "N": the merged
    position carries it (the merge of the pair failed) exactly when the
    operations differ, the second one is no soft clip and, for equal bases,
    the first one is no soft clip either, or, for different bases, the second
    base is not "N".  Otherwise the result has the operation of one of the
    inputs. *)
Theorem cMergePositions_fails_iff pos1 pos2 :
  operation pos1 <> 78 -> operation pos2 <> 78 ->
  (operation (cMergePositions agreed disc pos1 pos2) = 78
   <-> operation pos1 <> operation pos2 /\ operation pos2 <> 83
       /\ (base pos1 = base pos2 -> operation pos1 <> 83)
       /\ (base pos1 <> base pos2 -> base pos2 <> 78))
  /\ (operation (cMergePositions agreed disc pos1 pos2) = 78
      \/ operation (cMergePositions agreed disc pos1 pos2) = operation pos1
      \/ operation (cMergePositions agreed disc pos1 pos2) = operation pos2).
Proof.
  intros H1 H2. unfold cMergePositions.
  destruct (Z.eqb_spec (base pos1) (base pos2)) as [Eb|Eb].
  - destruct (Z.eqb_spec (operation pos2) (operation pos1)) as [Eo|Eo].
    { cbn. split; [|auto]. split; [congruence|]. intros (Hne & _). congruence. }
    destruct (Z.eqb_spec (operation pos2) 83) as [E2|E2].
    { cbn. split; [|auto]. split; [congruence|]. intros (_ & Hne & _). congruence. }
    destruct (Z.eqb_spec (operation pos1) 83) as [E1|E1].
    { cbn. split; [|auto]. split; [congruence|]. intros (_ & _ & Hne & _).
      exfalso. apply Hne; assumption. }
    destruct (negb (operation pos1 =? 68) && negb (operation pos1 =? 73)); cbn;
      (split; [|auto]); (split; [intros _|reflexivity]);
      repeat split; auto; congruence.
  - destruct (Z.eqb_spec (operation pos1) (operation pos2)) as [Eo|Eo].
    { destruct (quality pos1 >? quality pos2); cbn; (split; [|auto]);
        (split; [congruence|]); intros (Hne & _); congruence. }
    destruct (Z.eqb_spec (base pos2) 78) as [En|En]; cbn [orb].
    { cbn. split; [|auto]. split; [congruence|]. intros (_ & _ & _ & Hne).
      exfalso. apply Hne; assumption. }
    destruct (Z.eqb_spec (operation pos2) 83) as [E2|E2].
    { cbn. split; [|auto]. split; [congruence|]. intros (_ & Hne & _). congruence. }
    cbn. split; [|auto]. split; [intros _|reflexivity].
    repeat split; auto; congruence.
Qed.

End MergePositionsMore.

Lemma cMergePositions_soft_clip_order_witness :
  cMergePositions Z.max Z.min (mapped 100 5 65)
                  (LayoutPos_init (-1) 5 67 83 30 1 false 1)
  = {| pos := 100; readPos := 5; base := 65; operation := 77;
       quality := 30; agreement := 1; merged := true; mergeAgreed := 0 |}
  /\ operation (cMergePositions Z.max Z.min
                  (LayoutPos_init (-1) 5 67 83 30 1 false 1) (mapped 100 5 65)) = 78.
Proof.
  destruct (@cMergePositions_soft_clip_order Z.max Z.min (mapped 100 5 65)
              (LayoutPos_init (-1) 5 67 83 30 1 false 1))
    as (H1 & H2 & _);
    [reflexivity | discriminate | discriminate | discriminate | ].
  split; [exact H1 | exact H2].
Defined.

(** An inserted "A" against a mapped "A": the operations differ and
    neither is a soft clip. *)
Lemma cMergePositions_fails_iff_witness :
  operation (cMergePositions Z.max Z.min
               (LayoutPos_init (-1) 5 65 73 30 1 false 1) (mapped 100 5 65)) = 78.
Proof.
  apply (proj1 (@cMergePositions_fails_iff Z.max Z.min
                  (LayoutPos_init (-1) 5 65 73 30 1 false 1) (mapped 100 5 65)
                  ltac:(discriminate) ltac:(discriminate))).
  repeat split; discriminate.
Defined.

(** ** Merging layouts that agree on their overlap *)

Section MergeAgreeingLayouts.
Variables agreed disc : Z -> Z -> Z.

Lemma overlap_walk_agreeing rest1 l2 :
  Forall2 (fun p1 p2 => operation p1 = operation p2) rest1 l2 ->
  forall pref suf count acc,
    length pref = count ->
    overlap_walk agreed disc rest1 (pref ++ l2 ++ suf) count acc
    = Some (acc ++ map (fun pq => cMergePositions agreed disc (fst pq) (snd pq))
                       (combine rest1 l2),
            (count + length rest1)%nat).
Proof.
  induction 1 as [|p1 p2 rest1 l2 Hop _ IH]; intros pref suf count acc Hlen.
  - simpl. rewrite app_nil_r. f_equal. f_equal. lia.
  - cbn [overlap_walk].
    rewrite nth_error_app2 by lia.
    replace (count - length pref)%nat with 0%nat by lia. cbn [app nth_error].
    rewrite Hop, Z.eqb_refl.
    replace (pref ++ p2 :: l2 ++ suf) with ((pref ++ [p2]) ++ l2 ++ suf)
      by (rewrite <- app_assoc; reflexivity).
    rewrite IH by (rewrite length_app; simpl; lia).
    cbn [combine map fst snd length]. rewrite <- app_assoc. cbn [app].
    f_equal. f_equal. lia.
Qed.

Lemma Forall_firstn_skipn {A} (P : A -> Prop) n (l : list A) :
  Forall P l -> Forall P (firstn n l) /\ Forall P (skipn n l).
Proof.
  intros H. rewrite <- (firstn_skipn n l) in H. apply Forall_app in H. exact H.
Qed.

Lemma merged_agreeing_unflagged rest1 l2 :
  Forall2 (fun p1 p2 => operation p1 = operation p2 /\ base p1 = base p2) rest1 l2 ->
  Forall (fun p => mergeAgreed p <> 0 /\ operation p <> 78) rest1 ->
  Forall (fun p => mergeAgreed p <> 0 /\ operation p <> 78)
         (map (fun pq => cMergePositions agreed disc (fst pq) (snd pq))
              (combine rest1 l2)).
Proof.
  induction 1 as [|p1 p2 r1 r2 [Ho Hb] _ IH]; intros HP; [constructor|].
  inversion HP as [|? ? [_ Hp1] HP']; subst.
  cbn [combine map fst snd]. constructor; [|apply IH, HP'].
  unfold cMergePositions. rewrite Hb, Ho, !Z.eqb_refl. cbn.
  split; [discriminate|congruence].
Qed.

Lemma filter_none {A} (f : A -> bool) (P : A -> Prop) l :
  Forall P l -> (forall x, P x -> f x = false) -> filter f l = [].
Proof.
  induction 1 as [|x l Hx _ IH]; intros H; simpl; [reflexivity|].
  rewrite (H x Hx). apply IH, H.
Qed.

(** X13. Two layouts, the first starting at or before the second, whose
    positions agree pairwise in operation and base from the offset of the
    first layout on, and which carry no disagreement mark and no "N"
    operation yet.  The merge returns the positions of the first layout
    before the overlap, the pairwise merged positions, all marked agreed, and
    the rest of the second layout.  No position of the result is marked
    disagreed, so both arrays of discordant positions are empty and
    [test_merge_success] holds for a layout that carries the result. *)
Theorem cMergeLayoutsToList_agreeing_overlap L1 L2 :
  cGetRefPosForFirstPos L1 <= cGetRefPosForFirstPos L2 ->
  Forall2 (fun p1 p2 => operation p1 = operation p2 /\ base p1 = base p2)
          (Py.slice_from (positions L1)
                         (cGetRefPosForFirstPos L2 - cGetRefPosForFirstPos L1))
          (firstn (length (Py.slice_from (positions L1)
                             (cGetRefPosForFirstPos L2 - cGetRefPosForFirstPos L1)))
                  (positions L2)) ->
  Forall (fun p => mergeAgreed p <> 0 /\ operation p <> 78) (positions L1) ->
  Forall (fun p => mergeAgreed p <> 0 /\ operation p <> 78) (positions L2) ->
  exists merged_list,
    cMergeLayoutsToList agreed disc L1 L2
    = Some {| List_ := merged_list; Bool_ := true |}
    /\ merged_list
       = Py.slice_to (positions L1)
                     (cGetRefPosForFirstPos L2 - cGetRefPosForFirstPos L1)
         ++ map (fun pq => cMergePositions agreed disc (fst pq) (snd pq))
                (combine (Py.slice_from (positions L1)
                            (cGetRefPosForFirstPos L2 - cGetRefPosForFirstPos L1))
                         (positions L2))
         ++ skipn (length (Py.slice_from (positions L1)
                             (cGetRefPosForFirstPos L2 - cGetRefPosForFirstPos L1)))
                  (positions L2)
    /\ Forall (fun p => mergeAgreed p <> 0 /\ operation p <> 78) merged_list
    /\ forall L, positions L = merged_list -> isMerged L = true ->
                 cGetGenomicDiscordantPositions L = Some []
                 /\ cGetReadDiscordantPositions L = Some []
                 /\ test_merge_success L = true.
Proof.
  intros Hle Hpair H1 H2.
  set (offset := cGetRefPosForFirstPos L2 - cGetRefPosForFirstPos L1) in *.
  set (rest1 := Py.slice_from (positions L1) offset) in *.
  set (k := length rest1) in *.
  assert (Hcomb : combine rest1 (positions L2) = combine rest1 (firstn k (positions L2))).
  { unfold k. rewrite combine_firstn_l. reflexivity. }
  assert (Hwalk : overlap_walk agreed disc rest1 (positions L2) 0
                               (Py.slice_to (positions L1) offset)
                  = Some (Py.slice_to (positions L1) offset
                          ++ map (fun pq => cMergePositions agreed disc (fst pq) (snd pq))
                                 (combine rest1 (positions L2)), k)).
  { rewrite <- (firstn_skipn k (positions L2)) at 1.
    rewrite Hcomb.
    apply (@overlap_walk_agreeing rest1 (firstn k (positions L2))
             ltac:(eapply Forall2_impl; [|exact Hpair]; simpl; intros ? ? [? _]; assumption)
             [] (skipn k (positions L2)) 0%nat _ eq_refl). }
  eexists. split; [|split; [reflexivity|]].
  - unfold cMergeLayoutsToList.
    destruct (Z.gtb_spec (cGetRefPosForFirstPos L1) (cGetRefPosForFirstPos L2)); [lia|].
    fold offset. fold rest1. rewrite Hwalk. cbn [Py.bind].
    rewrite <- app_assoc. reflexivity.
  - assert (Hall : Forall (fun p => mergeAgreed p <> 0 /\ operation p <> 78)
                    (Py.slice_to (positions L1) offset
                     ++ map (fun pq => cMergePositions agreed disc (fst pq) (snd pq))
                            (combine rest1 (positions L2))
                     ++ skipn k (positions L2))).
    { rewrite !Forall_app. repeat split.
      - apply (Forall_firstn_skipn (Z.to_nat offset) H1).
      - rewrite Hcomb. apply merged_agreeing_unflagged; [exact Hpair|].
        apply (Forall_firstn_skipn (Z.to_nat offset) H1).
      - apply (Forall_firstn_skipn k H2). }
    split; [exact Hall|].
    intros L HL HM.
    unfold cGetGenomicDiscordantPositions, cGetReadDiscordantPositions,
      test_merge_success, getOperations.
    rewrite HL, HM. cbn [negb].
    rewrite !(filter_none _ Hall); try reflexivity.
    + split; [reflexivity|]. split; [reflexivity|].
      apply forallb_forall. intros c Hc. apply in_map_iff in Hc.
      destruct Hc as (p & <- & Hp). rewrite Forall_forall in Hall.
      destruct (Hall p Hp) as [_ Hop].
      destruct (Z.eqb_spec (operation p) 78); [contradiction|reflexivity].
    + intros x [Hx _]. destruct (Z.eqb_spec (mergeAgreed x) 0); [contradiction|reflexivity].
    + intros x [Hx _]. destruct (Z.eqb_spec (mergeAgreed x) 0); [contradiction|reflexivity].
Qed.

End MergeAgreeingLayouts.

Lemma cMergeLayoutsToList_agreeing_overlap_witness :
  exists merged_list,
    cMergeLayoutsToList Z.max Z.min layout_AC layout_ACG
    = Some {| List_ := merged_list; Bool_ := true |}
    /\ length merged_list = 3%nat
    /\ Forall (fun p => mergeAgreed p <> 0 /\ operation p <> 78) merged_list.
Proof.
  destruct (@cMergeLayoutsToList_agreeing_overlap Z.max Z.min layout_AC layout_ACG)
    as (merged_list & H1 & H2 & H3 & _).
  - vm_compute. discriminate.
  - repeat constructor.
  - repeat constructor; discriminate.
  - repeat constructor; discriminate.
  - exists merged_list. split; [exact H1|]. split; [rewrite H2; reflexivity|exact H3].
Defined.

(** ** The last reference position of a layout *)

Lemma lastRefPos_loop_no_match post :
  Forall (fun p => operation p <> 77) post ->
  forall lastMPos countFromMPos,
    lastRefPos_loop lastMPos countFromMPos post
    = lastMPos + countFromMPos + Z.of_nat (length post).
Proof.
  induction 1 as [|p post Hp _ IH]; intros a c; simpl; [lia|].
  destruct (Z.eqb_spec (operation p) 77); [contradiction|].
  rewrite IH. lia.
Qed.

Lemma lastRefPos_loop_last_match pre :
  forall m post lastMPos countFromMPos,
    operation m = 77 ->
    Forall (fun p => operation p <> 77) post ->
    lastRefPos_loop lastMPos countFromMPos (pre ++ m :: post)
    = pos m + Z.of_nat (length post).
Proof.
  induction pre as [|p pre IH]; intros m post a c Hm Hpost; simpl.
  - rewrite Hm. simpl. rewrite lastRefPos_loop_no_match by exact Hpost. lia.
  - destruct (operation p =? 77); apply IH; assumption.
Qed.

(** X14. [cGetLastRefPos] increments the counter [countFromMPos] before
    anything was assigned to it.  When the layout has an "M" position, the
    result does not depend on what the counter held: it is the reference
    coordinate of the last "M" position plus the number of positions that
    follow it.  Without any "M" position the result is the initial content
    of the counter plus the number of positions. *)
Theorem cGetLastRefPos_last_match countFromMPos0 L pre m post :
  positions L = pre ++ m :: post ->
  operation m = 77 ->
  Forall (fun p => operation p <> 77) post ->
  cGetLastRefPos countFromMPos0 L = pos m + Z.of_nat (length post)
  /\ (forall L', Forall (fun p => operation p <> 77) (positions L') ->
                 cGetLastRefPos countFromMPos0 L'
                 = countFromMPos0 + Z.of_nat (length (positions L'))).
Proof.
  intros HL Hm Hpost. unfold cGetLastRefPos. split.
  - rewrite HL. apply lastRefPos_loop_last_match; assumption.
  - intros L' H'. rewrite lastRefPos_loop_no_match by exact H'. lia.
Qed.

(** "A", "C" mapped at 100 and 101, followed by a soft-clipped base. *)
Lemma cGetLastRefPos_last_match_witness :
  cGetLastRefPos 12345
    (layout_of [mapped 100 0 65; mapped 101 1 67;
                LayoutPos_init (-1) 2 71 83 30 1 false 1]) = 101 + 1.
Proof.
  apply (@cGetLastRefPos_last_match 12345
           (layout_of [mapped 100 0 65; mapped 101 1 67;
                       LayoutPos_init (-1) 2 71 83 30 1 false 1])
           [mapped 100 0 65] (mapped 101 1 67)
           [LayoutPos_init (-1) 2 71 83 30 1 false 1]);
    [reflexivity | reflexivity | repeat constructor; discriminate].
Defined.

(** ** The record of the fast comparison *)

Lemma fold_left_add_shift l : forall a, fold_left Z.add l a = a + fold_left Z.add l 0.
Proof.
  induction l as [|x l IH]; intros a; simpl; [lia|].
  rewrite IH, (IH x). lia.
Qed.

Lemma sum_Z_cons x l : sum_Z (x :: l) = x + sum_Z l.
Proof.
  unfold sum_Z. simpl. apply fold_left_add_shift.
Qed.

Lemma sum_Z_bounds (l : list Z) lo hi :
  Forall (fun x => lo <= x <= hi) l ->
  lo * Z.of_nat (length l) <= sum_Z l <= hi * Z.of_nat (length l).
Proof.
  induction 1 as [|x l Hx _ IH]; [cbn; lia|].
  rewrite sum_Z_cons. cbn [length]. lia.
Qed.

Lemma np_argmax_4 a b c d :
  In (ARGMAX_TRANSLATE (np_argmax [a; b; c; d])) [65; 67; 71; 84].
Proof.
  unfold np_argmax, argmax_from.
  repeat match goal with
         | |- context [if ?x >? ?y then _ else _] => destruct (x >? y)
         end; cbn; auto.
Qed.

Lemma cQualArr2QualStr_nonneg PH2CHR_TRANS qs :
  Forall (fun q => 0 <= q) qs ->
  cQualArr2QualStr PH2CHR_TRANS qs
  = Some (string_translate PH2CHR_TRANS
            (bytes_tostring (map (fun q => Z.min q 93) qs))).
Proof.
  intros H. unfold cQualArr2QualStr, Py.array_B_tostring.
  assert (E : map (fun tmpInt => if tmpInt <? 94 then tmpInt else 93) qs
              = map (fun q => Z.min q 93) qs).
  { apply map_ext. intros q. destruct (Z.ltb_spec q 94); lia. }
  rewrite E.
  assert (F : forallb (fun c => (0 <=? c) && (c <? 256)) (map (fun q => Z.min q 93) qs)
              = true).
  { apply forallb_forall. intros c Hc. apply in_map_iff in Hc.
    destruct Hc as (q & <- & Hq). rewrite Forall_forall in H. specialize (H q Hq).
    apply andb_true_intro. split; [apply Z.leb_le|apply Z.ltb_lt]; lia. }
  rewrite F. reflexivity.
Qed.

Lemma length_string_of_list_ascii l : String.length (string_of_list_ascii l) = length l.
Proof.
  induction l as [|a l IH]; simpl; congruence.
Qed.

Lemma length_string_translate table s :
  String.length (string_translate table s) = String.length s.
Proof.
  unfold string_translate.
  rewrite length_string_of_list_ascii, length_map. apply length_list_ascii.
Qed.

Lemma family_phredQuals_nonneg R minPVFrac minFAFrac minMaxFA :
  Forall (fun q => 0 <= q) (family_phredQuals R minPVFrac minFAFrac minMaxFA)
  /\ length (family_phredQuals R minPVFrac minFAFrac minMaxFA) = family_rLen R.
Proof.
  unfold family_phredQuals. split.
  - apply Forall_map, Forall_forall. intros q _. destruct (Z.ltb_spec q 0); lia.
  - rewrite length_map.
    destruct (family_discordant _ _ _ _ _); rewrite ?length_map;
      unfold family_amax, fast_amax; rewrite length_map, length_seq; reflexivity.
Qed.

Lemma family_FA_bounds R :
  Forall (fun a => 0 <= a <= Z.of_nat (length R)) (family_FA R)
  /\ length (family_FA R) = family_rLen R.
Proof.
  unfold family_FA, fast_FA. split; [|rewrite length_map, length_seq; reflexivity].
  apply Forall_map, Forall_forall. intros i _.
  pose proof (@sum_Z_bounds
                (map (fun rec => if nth i (cs_to_ia (Fq.sequence rec)) 0
                                    =? nth i (family_newSeq R) 0 then 1 else 0) R) 0 1) as B.
  rewrite length_map in B.
  assert (F : Forall (fun x => 0 <= x <= 1)
                (map (fun rec => if nth i (cs_to_ia (Fq.sequence rec)) 0
                                    =? nth i (family_newSeq R) 0 then 1 else 0) R)).
  { apply Forall_map, Forall_forall. intros rec _.
    destruct (_ =? _); lia. }
  specialize (B F). lia.
Qed.

Lemma family_newSeq_bases R :
  Forall (fun b => In b [65; 67; 71; 84]) (family_newSeq R)
  /\ length (family_newSeq R) = family_rLen R.
Proof.
  unfold family_newSeq, fast_newSeq. split; [|rewrite length_map, length_seq; reflexivity].
  apply Forall_map, Forall_forall. intros i _. apply np_argmax_4.
Qed.

Section FastCompareRecord.
Variable PH2CHR_TRANS : ascii -> ascii.

(** X15. For every family of two records or more in which all sequences
    and quality strings have one positive length, the fast comparison
    returns a record (it does not raise): a consensus of that length over
    "A", "C", "G", "T" only, non-negative qualities with a quality string of
    that length, and agreement counts between 0 and the family size, so that
    ND lies between 0 and the number of bases of the family. *)
Theorem cCompareFqRecsFast_returns R0 rest name minPVFrac minFAFrac minMaxFA :
  family_well_shaped (R0 :: rest) = true ->
  (2 <= length (R0 :: rest))%nat ->
  exists phredQualsStr,
    cCompareFqRecsFast PH2CHR_TRANS (R0 :: rest) name minPVFrac minFAFrac minMaxFA
    = Some (consensus_record (record_name R0 name) (Fq.comment R0)
              (Z.of_nat (length (R0 :: rest)))
              (Z.of_nat (String.length (Fq.sequence R0)))
              (family_FA (R0 :: rest))
              (family_phredQuals (R0 :: rest) minPVFrac minFAFrac minMaxFA)
              (family_newSeq (R0 :: rest))
              phredQualsStr)
    /\ String.length phredQualsStr = String.length (Fq.sequence R0)
    /\ Forall (fun q => 0 <= q)
              (family_phredQuals (R0 :: rest) minPVFrac minFAFrac minMaxFA)
    /\ Forall (fun b => In b [65; 67; 71; 84]) (family_newSeq (R0 :: rest))
    /\ length (family_newSeq (R0 :: rest)) = String.length (Fq.sequence R0)
    /\ Forall (fun a => 0 <= a <= Z.of_nat (length (R0 :: rest))) (family_FA (R0 :: rest))
    /\ 0 <= Z.of_nat (length (R0 :: rest)) * Z.of_nat (String.length (Fq.sequence R0))
            - sum_Z (family_FA (R0 :: rest))
         <= Z.of_nat (length (R0 :: rest)) * Z.of_nat (String.length (Fq.sequence R0)).
Proof.
  intros Hshape Hn.
  assert (Hrest : rest <> []) by (destruct rest; [simpl in Hn; lia|discriminate]).
  destruct (family_phredQuals_nonneg (R0 :: rest) minPVFrac minFAFrac minMaxFA)
    as [Hq Hql].
  destruct (family_FA_bounds (R0 :: rest)) as [Hfa Hfal].
  destruct (family_newSeq_bases (R0 :: rest)) as [Hs Hsl].
  rewrite cCompareFqRecsFast_well_shaped by assumption.
  rewrite cQualArr2QualStr_nonneg by exact Hq. cbn [Py.bind].
  eexists. split; [reflexivity|].
  split.
  { rewrite length_string_translate. unfold bytes_tostring.
    rewrite length_string_of_list_ascii, !length_map. exact Hql. }
  repeat split; auto.
  - pose proof (sum_Z_bounds Hfa) as B. rewrite Hfal in B. cbn [family_rLen] in B. lia.
  - pose proof (sum_Z_bounds Hfa) as B. rewrite Hfal in B. cbn [family_rLen] in B. lia.
Qed.

(** X16. A family of two records or more in which a record's sequence
    differs in length from the first record's makes both base callers raise
    (the bases do not form a two-dimensional array). *)
Theorem ragged_family_raises {num : Numerics} R0 rest rec name
    minPVFrac minFAFrac minMaxFA :
  In rec rest ->
  String.length (Fq.sequence rec) <> String.length (Fq.sequence R0) ->
  cCompareFqRecsFast PH2CHR_TRANS (R0 :: rest) name minPVFrac minFAFrac minMaxFA = None
  /\ cFastFisherFlattening (R0 :: rest) name = None.
Proof.
  intros Hin Hlen.
  assert (Hn : (Z.of_nat (length (R0 :: rest)) =? 1) = false).
  { destruct rest; [contradiction|]. apply Z.eqb_neq. simpl length. lia. }
  assert (H2d : cRecListTo2DCharArray (R0 :: rest) = None).
  { unfold cRecListTo2DCharArray, np_array_2d. cbn [map].
    destruct (forallb _ _) eqn:E; [|reflexivity].
    rewrite forallb_forall in E.
    specialize (E (cs_to_ia (Fq.sequence rec))).
    rewrite !length_cs_to_ia in E. apply Nat.eqb_eq in E; [contradiction|].
    right. apply in_map_iff. exists rec. split; [reflexivity|exact Hin]. }
  unfold cCompareFqRecsFast, cFastFisherFlattening. rewrite Hn, H2d. split; reflexivity.
Qed.

End FastCompareRecord.

Lemma cCompareFqRecsFast_returns_witness :
  family_well_shaped family_concordant_example = true
  /\ (2 <= length family_concordant_example)%nat
  /\ exists s,
      cCompareFqRecsFast ph2chr_plus33 family_concordant_example None
                         (1 # 10) (2 # 10) (9 # 10) = Some s.
Proof.
  assert (S : family_well_shaped family_concordant_example = true) by reflexivity.
  assert (N : (2 <= length family_concordant_example)%nat) by (simpl; lia).
  split; [exact S|]. split; [exact N|].
  destruct (@cCompareFqRecsFast_returns ph2chr_plus33 (fq "AAAA" "????")
              [fq "AAAA" "????"; fq "AAAA" "????"; fq "AAAT" "???+"] None
              (1 # 10) (2 # 10) (9 # 10) S N) as (s & Hs & _).
  eexists. exact Hs.
Defined.

Lemma ragged_family_raises_witness :
  cCompareFqRecsFast ph2chr_plus33 [fq "AAAA" "IIII"; fq "AAA" "III"] None
                     (1 # 10) (2 # 10) (9 # 10) = None.
Proof.
  assert (NUM : Numerics).
  { exact {| double := Z; dzero := 0; dadd := Z.add;
             CHI2_FROM_PHRED := fun q => q; INV_CHI2_FROM_PHRED := fun q => q;
             argmax4 := fun _ _ _ _ => 0; ARGMAX_CONV := fun x => x;
             igamc_phred := fun _ _ => 0; arrmax := fun _ _ _ => [] |}. }
  apply (@ragged_family_raises ph2chr_plus33 NUM (fq "AAAA" "IIII") [fq "AAA" "III"]
           (fq "AAA" "III") None (1 # 10) (2 # 10) (9 # 10));
    [left; reflexivity | discriminate].
Defined.

(** ** Columns of the fast comparison *)

Lemma nth_map_seq (f : nat -> Z) i n :
  (i < n)%nat -> nth i (map f (List.seq 0 n)) 0 = f i.
Proof.
  intros H.
  rewrite (nth_indep _ 0 (f 0%nat)) by (rewrite length_map, length_seq; exact H).
  rewrite map_nth, seq_nth by exact H. reflexivity.
Qed.


Lemma sum_Z_zero l : Forall (fun x => x = 0) l -> sum_Z l = 0.
Proof.
  induction 1 as [|x l Hx _ IH]; [reflexivity|].
  rewrite sum_Z_cons. lia.
Qed.









(** ** The counts of the Fisher flattening *)

Lemma length_array_update {A} (a : list A) i f : length (array_update a i f) = length a.
Proof.
  revert i. induction a as [|x a IH]; intros [|i]; simpl; auto.
Qed.

Lemma nth_array_update {A} (a : list A) i f j d :
  (i < length a)%nat ->
  nth j (array_update a i f) d = if (j =? i)%nat then f (nth j a d) else nth j a d.
Proof.
  revert i j. induction a as [|x a IH]; intros i j Hi; [simpl in Hi; lia|].
  destruct i as [|i], j as [|j]; simpl; auto.
  apply IH. simpl in Hi. lia.
Qed.

Lemma sum_Z_array_update a i :
  (i < length a)%nat -> sum_Z (array_update a i (fun c => c + 1)) = sum_Z a + 1.
Proof.
  revert i. induction a as [|x a IH]; intros i Hi; [simpl in Hi; lia|].
  destruct i as [|i]; simpl array_update; rewrite !sum_Z_cons; [lia|].
  rewrite IH by (simpl in Hi; lia). lia.
Qed.

Lemma sum_Z_repeat_zero n : sum_Z (repeat 0 n) = 0.
Proof.
  apply sum_Z_zero, Forall_forall. intros x Hx. apply repeat_spec in Hx. exact Hx.
Qed.

Lemma selected_cell_range rLen offset b c :
  0 < rLen -> 0 <= offset < rLen ->
  selected_cell rLen offset b = Some c -> 0 <= c < 4 * rLen.
Proof.
  intros Hr Ho. unfold selected_cell.
  repeat match goal with
         | |- context [if ?x then _ else _] => destruct x
         end; intros E; try discriminate E;
    apply (f_equal (fun o => match o with Some x => x | None => c end)) in E;
    cbv beta iota in E; lia.
Qed.

Lemma selected_cell_base rLen offset b pos k :
  0 < rLen -> 0 <= offset < rLen -> 0 <= pos < rLen -> 0 <= k <= 3 ->
  match selected_cell rLen offset b with
  | Some c' => c' =? pos + k * rLen
  | None => false
  end = (offset =? pos) && (b =? nth (Z.to_nat k) [65; 67; 71; 84] 0).
Proof.
  intros Hr Ho Hp Hk.
  assert (K : k = 0 \/ k = 1 \/ k = 2 \/ k = 3) by lia.
  unfold selected_cell.
  destruct K as [-> | [-> | [-> | ->]]];
    [change (nth (Z.to_nat 0) [65; 67; 71; 84] 0) with 65
    |change (nth (Z.to_nat 1) [65; 67; 71; 84] 0) with 67
    |change (nth (Z.to_nat 2) [65; 67; 71; 84] 0) with 71
    |change (nth (Z.to_nat 3) [65; 67; 71; 84] 0) with 84];
    (destruct (Z.eqb_spec b 67); destruct (Z.eqb_spec b 71);
     destruct (Z.eqb_spec b 84); destruct (Z.eqb_spec b 65);
     apply eq_true_iff_eq; rewrite ?andb_true_iff, ?Z.eqb_eq;
     (split; [intros E | intros [E1 E2]]);
     first [congruence | lia | split; [lia | congruence]]).
Qed.

Section FisherCounts.
Context {num : Numerics}.

Lemma observe_chi_selected_cell rLen offset b q chi :
  match observe_chi rLen offset b q chi with
  | Some (nd, _) => Some nd
  | None => None
  end = selected_cell rLen offset b.
Proof.
  unfold observe_chi, selected_cell.
  repeat match goal with
         | |- context [if ?x then _ else _] => destruct x
         end; reflexivity.
Qed.

Lemma flatten_step_counts rLen Seqs Quals st i :
  let nd := match selected_cell rLen (i mod rLen) (array_get 0 Seqs i) with
            | Some c => c
            | None => ndIndex st
            end in
  ndIndex (flatten_step rLen Seqs Quals st i) = nd
  /\ counts (flatten_step rLen Seqs Quals st i)
     = array_update (counts st) (Z.to_nat nd) (fun c => c + 1).
Proof.
  cbv zeta. rewrite <- (@observe_chi_selected_cell rLen (i mod rLen)
                          (array_get 0 Seqs i) (array_get 0 Quals i) (chiSums st)).
  unfold flatten_step.
  destruct (observe_chi _ _ _ _ _) as [[nd chi]|]; split; reflexivity.
Qed.

Lemma fold_flatten_step_counts rLen Seqs Quals indices :
  0 < rLen ->
  forall st,
    length (counts st) = Z.to_nat (4 * rLen) ->
    0 <= ndIndex st < 4 * rLen ->
    let st' := fold_left (flatten_step rLen Seqs Quals) indices st in
    sum_Z (counts st') = sum_Z (counts st) + Z.of_nat (length indices)
    /\ (Forall (fun i => In (array_get 0 Seqs i) [65; 67; 71; 84]) indices ->
        forall c, 0 <= c < 4 * rLen ->
          array_get 0 (counts st') c
          = array_get 0 (counts st) c
            + Z.of_nat (length (observations_of_cell rLen Seqs c indices))).
Proof.
  intros Hr. induction indices as [|i rest IH]; intros st Hlen Hnd; cbv zeta.
  - simpl. split; [lia|]. intros _ c _. lia.
  - cbn [fold_left].
    destruct (@flatten_step_counts rLen Seqs Quals st i) as [End Ecnt].
    cbv zeta in End, Ecnt.
    set (st1 := flatten_step rLen Seqs Quals st i) in *.
    assert (Hmod : 0 <= i mod rLen < rLen) by (apply Z.mod_pos_bound; lia).
    assert (Hnd1 : 0 <= ndIndex st1 < 4 * rLen).
    { rewrite End.
      destruct (selected_cell rLen (i mod rLen) (array_get 0 Seqs i)) as [c|] eqn:E;
        [eapply selected_cell_range; eauto|exact Hnd]. }
    assert (Hlen1 : length (counts st1) = Z.to_nat (4 * rLen)).
    { rewrite Ecnt, length_array_update. exact Hlen. }
    assert (Hin : (Z.to_nat (ndIndex st1) < length (counts st))%nat) by lia.
    destruct (IH st1 Hlen1 Hnd1) as [IHsum IHcell]. cbv zeta in IHsum, IHcell.
    split.
    + rewrite IHsum, Ecnt, <- End, sum_Z_array_update by exact Hin.
      cbn [length]. lia.
    + intros Hbases c Hc. inversion Hbases as [|? ? Hb Hrest]; subst.
      rewrite (IHcell Hrest c Hc). unfold observations_of_cell at 2. cbn [filter].
      fold (observations_of_cell rLen Seqs c rest).
      unfold array_get at 1. rewrite Ecnt, <- End.
      rewrite nth_array_update by exact Hin.
      assert (Hsel : selected_cell rLen (i mod rLen) (array_get 0 Seqs i)
                     = Some (ndIndex st1)).
      { rewrite End.
        destruct (selected_cell rLen (i mod rLen) (array_get 0 Seqs i)) eqn:E;
          [reflexivity|].
        exfalso. unfold selected_cell in E.
        destruct Hb as [Hb|[Hb|[Hb|[Hb|[]]]]]; rewrite <- Hb in E; discriminate. }
      rewrite Hsel.
      destruct (Z.eqb_spec (ndIndex st1) c) as [Ec|Ec].
      * subst c. rewrite Nat.eqb_refl. unfold array_get. cbn [length]. lia.
      * assert (N : (Z.to_nat c =? Z.to_nat (ndIndex st1))%nat = false)
          by (apply Nat.eqb_neq; lia).
        rewrite N. unfold array_get. lia.
Qed.

(** X18. When the read length is positive, the counts add up, after the
    first loop of the Fisher flattening, to the number of observations:
    every observation adds one to exactly one cell, the observations of "N"
    as well. *)
Theorem accumulate_counts_total rLen nRecs Seqs Quals :
  0 < rLen -> 0 <= nRecs ->
  sum_Z (counts (accumulate rLen Seqs Quals (zrange (rLen * nRecs)))) = rLen * nRecs.
Proof.
  intros Hr Hn. unfold accumulate.
  destruct (@fold_flatten_step_counts rLen Seqs Quals (zrange (rLen * nRecs)) Hr
              (flatten_init rLen)) as [Hsum _].
  - cbn [flatten_init counts]. apply repeat_length.
  - cbn [flatten_init ndIndex]. lia.
  - cbv zeta in Hsum. rewrite Hsum. cbn [flatten_init counts].
    rewrite sum_Z_repeat_zero, length_zrange. nia.
Qed.

Lemma call_agree_without_N Seqs Quals rLen nRecs pos k :
  0 < rLen -> 0 <= pos < rLen -> 0 <= k <= 3 ->
  Forall (fun i => In (array_get 0 Seqs i) [65; 67; 71; 84]) (zrange (rLen * nRecs)) ->
  call_argmax rLen (accumulate rLen Seqs Quals (zrange (rLen * nRecs))) pos = k ->
  call_agree rLen (accumulate rLen Seqs Quals (zrange (rLen * nRecs))) pos
  = Z.of_nat (length (observations_of_base rLen Seqs pos
                        (nth (Z.to_nat k) [65; 67; 71; 84] 0)
                        (zrange (rLen * nRecs)))).
Proof.
  intros Hr Hp Hk Hbases Hcall.
  unfold call_agree. rewrite Hcall.
  destruct (@fold_flatten_step_counts rLen Seqs Quals (zrange (rLen * nRecs)) Hr
              (flatten_init rLen)) as [_ Hcell].
  - cbn [flatten_init counts]. apply repeat_length.
  - cbn [flatten_init ndIndex]. lia.
  - cbv zeta in Hcell. unfold accumulate.
    rewrite (Hcell Hbases (pos + k * rLen)) by nia.
    assert (Z0 : array_get 0 (counts (flatten_init rLen)) (pos + k * rLen) = 0).
    { unfold array_get. cbn [flatten_init counts].
      destruct (nth_in_or_default (Z.to_nat (pos + k * rLen))
                  (repeat 0 (Z.to_nat (4 * rLen))) 0) as [H|H]; [|exact H].
      apply repeat_spec in H. exact H. }
    rewrite Z0. cbn [Z.add]. do 2 f_equal.
    unfold observations_of_cell, observations_of_base.
    apply filter_ext. intros i. apply selected_cell_base; try assumption.
    apply Z.mod_pos_bound. lia.
Qed.

Lemma nth_map_zrange (f : Z -> Z) pos n :
  0 <= pos < n -> nth (Z.to_nat pos) (map f (zrange n)) 0 = f pos.
Proof.
  intros H. unfold zrange. rewrite map_map.
  rewrite nth_map_seq by lia. rewrite Z2Nat.id by lia. reflexivity.
Qed.

Lemma length_filter_map {A B} (f : B -> bool) (g : A -> B) l :
  length (filter f (map g l)) = length (filter (fun x => f (g x)) l).
Proof.
  induction l as [|x l IH]; [reflexivity|].
  cbn [map filter]. destruct (f (g x)); cbn [length]; rewrite IH; reflexivity.
Qed.

Lemma length_filter_andb_le {A} (p q : A -> bool) l :
  (length (filter (fun x => p x && q x) l) <= length (filter p l))%nat.
Proof.
  induction l as [|x l IH]; [reflexivity|].
  cbn [filter]. destruct (p x), (q x); cbn [andb length]; lia.
Qed.

Lemma length_filter_false {A} (p : A -> bool) l :
  (forall x, In x l -> p x = false) -> length (filter p l) = 0%nat.
Proof.
  intros H. induction l as [|x l IH]; [reflexivity|].
  cbn [filter]. rewrite (H x) by (left; reflexivity).
  apply IH. intros y Hy. apply H. right. exact Hy.
Qed.

Lemma zrange_one_position pos n :
  0 <= pos < n -> length (filter (fun i => i =? pos) (zrange n)) = 1%nat.
Proof.
  intros H.
  replace n with (pos + (1 + (n - pos - 1))) by lia.
  rewrite zrange_add by lia. rewrite (@zrange_add 1 (n - pos - 1)) by lia.
  rewrite map_app, !filter_app, !length_app.
  rewrite (@length_filter_false _ _ (zrange pos)).
  2:{ intros x Hx. apply In_zrange in Hx. apply Z.eqb_neq. lia. }
  rewrite !length_filter_map.
  rewrite (@length_filter_false _ _ (zrange (n - pos - 1))).
  2:{ intros x Hx. apply In_zrange in Hx. apply Z.eqb_neq. lia. }
  change (zrange 1) with [0]. cbn [filter].
  replace (pos + 0 =? pos) with true by (symmetry; apply Z.eqb_eq; lia).
  reflexivity.
Qed.

Lemma observations_at_position rLen pos n :
  0 < rLen -> 0 <= pos < rLen ->
  length (filter (fun i => i mod rLen =? pos) (zrange (rLen * Z.of_nat n))) = n.
Proof.
  intros Hr Hp. induction n as [|n IH].
  - rewrite Z.mul_0_r. reflexivity.
  - replace (rLen * Z.of_nat (S n)) with (rLen * Z.of_nat n + rLen) by lia.
    rewrite zrange_add by nia. rewrite filter_app, length_app, IH.
    rewrite length_filter_map.
    rewrite (@filter_ext_in _ _ (fun i => i =? pos)).
    + rewrite zrange_one_position by exact Hp. lia.
    + intros i Hi. apply In_zrange in Hi. f_equal.
      rewrite Z.add_comm, Z.mul_comm, Z_mod_plus_full. apply Z.mod_small. lia.
Qed.

(** X19. For a family in which every base is one of "A", "C", "G", "T",
    the agreement count that the Fisher flattening returns at a position is
    the number of observations that show, at that position of their read,
    the base that was called there (the base of index [k] in "ACGT", where
    [k] is the result of [argmax4]). *)
Theorem cFisherFlatten_Agree_without_N Seqs Quals rLen nRecs pos k :
  0 < rLen -> 0 <= pos < rLen -> 0 <= k <= 3 ->
  Forall (fun i => In (array_get 0 Seqs i) [65; 67; 71; 84]) (zrange (rLen * nRecs)) ->
  call_argmax rLen (accumulate rLen Seqs Quals (zrange (rLen * nRecs))) pos = k ->
  nth (Z.to_nat pos) (Agree (cFisherFlatten Seqs Quals rLen nRecs)) 0
  = Z.of_nat (length (observations_of_base rLen Seqs pos
                        (nth (Z.to_nat k) [65; 67; 71; 84] 0)
                        (zrange (rLen * nRecs)))).
Proof.
  intros Hr Hp Hk Hbases Hcall.
  unfold cFisherFlatten. cbn [Agree].
  rewrite nth_map_zrange by exact Hp.
  apply call_agree_without_N; assumption.
Qed.

(** X20. For such a family, when [argmax4] returns an index from 0 to 3,
    every agreement count of the Fisher flattening lies between 0 and the
    number of records, so that the ND value that [cFastFisherFlattening]
    writes, the number of bases minus the sum of the counts, lies between 0
    and the number of bases of the family. *)
Theorem cFisherFlatten_Agree_bounds_without_N Seqs Quals rLen nRecs :
  0 < rLen -> 0 <= nRecs ->
  (forall a c g t, 0 <= argmax4 a c g t <= 3) ->
  Forall (fun i => In (array_get 0 Seqs i) [65; 67; 71; 84]) (zrange (rLen * nRecs)) ->
  Forall (fun a => 0 <= a <= nRecs) (Agree (cFisherFlatten Seqs Quals rLen nRecs))
  /\ 0 <= nRecs * rLen - sum_Z (Agree (cFisherFlatten Seqs Quals rLen nRecs))
       <= nRecs * rLen.
Proof.
  intros Hr Hn Harg Hbases.
  assert (Hall : Forall (fun a => 0 <= a <= nRecs)
                        (Agree (cFisherFlatten Seqs Quals rLen nRecs))).
  { unfold cFisherFlatten. cbn [Agree].
    apply Forall_map, Forall_forall. intros pos Hpos. apply In_zrange in Hpos.
    rewrite (@call_agree_without_N Seqs Quals rLen nRecs pos
               (call_argmax rLen (accumulate rLen Seqs Quals (zrange (rLen * nRecs))) pos))
      by (try assumption; try reflexivity; apply Harg).
    split; [lia|].
    unfold observations_of_base.
    match goal with
    | |- Z.of_nat (length (filter (fun i => (i mod rLen =? pos) && @?q i) ?l)) <= _ =>
        pose proof (@length_filter_andb_le _ (fun i => i mod rLen =? pos) q l) as B
    end.
    pose proof (@observations_at_position rLen pos (Z.to_nat nRecs) Hr Hpos) as C.
    rewrite Z2Nat.id in C by exact Hn. cbv beta in B. lia. }
  split; [exact Hall|].
  pose proof (sum_Z_bounds Hall) as B.
  assert (L : length (Agree (cFisherFlatten Seqs Quals rLen nRecs)) = Z.to_nat rLen).
  { unfold cFisherFlatten. cbn [Agree]. rewrite length_map. apply length_zrange. }
  rewrite L in B. rewrite Z2Nat.id in B by lia. lia.
Qed.

End FisherCounts.

Lemma accumulate_counts_total_witness :
  sum_Z (counts (@accumulate numerics_example 2 [65; 67; 78; 78] [30; 30; 30; 30]
                             (zrange (2 * 2)))) = 2 * 2.
Proof.
  apply (@accumulate_counts_total numerics_example 2 2); lia.
Defined.

Lemma cFisherFlatten_Agree_without_N_witness :
  nth (Z.to_nat 1)
      (Agree (@cFisherFlatten numerics_example [65; 67; 65; 84; 71; 84]
                              [30; 30; 30; 30; 30; 30] 2 3)) 0
  = Z.of_nat (length (observations_of_base 2 [65; 67; 65; 84; 71; 84] 1
                        (nth (Z.to_nat 3) [65; 67; 71; 84] 0) (zrange (2 * 3)))).
Proof.
  apply (@cFisherFlatten_Agree_without_N numerics_example
           [65; 67; 65; 84; 71; 84] [30; 30; 30; 30; 30; 30] 2 3 1 3).
  - lia.
  - lia.
  - lia.
  - change (zrange (2 * 3)) with [0; 1; 2; 3; 4; 5].
    repeat apply Forall_cons; try apply Forall_nil; vm_compute; auto 6.
  - reflexivity.
Defined.

Lemma cFisherFlatten_Agree_bounds_without_N_witness :
  Forall (fun a => 0 <= a <= 3)
         (Agree (@cFisherFlatten numerics_example [65; 67; 65; 84; 71; 84]
                                 [30; 30; 30; 30; 30; 30] 2 3)).
Proof.
  apply (@cFisherFlatten_Agree_bounds_without_N numerics_example
           [65; 67; 65; 84; 71; 84] [30; 30; 30; 30; 30; 30] 2 3).
  - lia.
  - lia.
  - intros a c g t. cbn [argmax4 numerics_example].
    unfold np_argmax, argmax_from.
    repeat match goal with
           | |- context [if ?x >? ?y then _ else _] => destruct (x >? y)
           end; lia.
  - change (zrange (2 * 3)) with [0; 1; 2; 3; 4; 5].
    repeat apply Forall_cons; try apply Forall_nil; vm_compute; auto 6.
Defined.

(** ** Barcodes *)

Lemma str_contains_empty hay : str_contains "" hay = true.
Proof.
  destruct hay; reflexivity.
Qed.

Lemma str_mul_nonpositive s n : n <= 0 -> str_mul s n = EmptyString.
Proof.
  intros H. unfold str_mul, Py.replicate.
  replace (Z.to_nat n) with 0%nat by lia. reflexivity.
Qed.

Lemma str_mul_succ c n :
  0 <= n -> str_mul (String c EmptyString) (n + 1) = String c (str_mul (String c EmptyString) n).
Proof.
  intros H. unfold str_mul, Py.replicate.
  replace (Z.to_nat (n + 1)) with (S (Z.to_nat n)) by lia.
  cbn [repeat]. destruct (Z.to_nat n); reflexivity.
Qed.

Lemma length_str_mul c n :
  0 <= n -> String.length (str_mul (String c EmptyString) n) = Z.to_nat n.
Proof.
  intros H. rewrite <- (Z2Nat.id n) at 1 by exact H.
  induction (Z.to_nat n) as [|k IH]; [reflexivity|].
  rewrite Nat2Z.inj_succ, <- Z.add_1_r, str_mul_succ by lia.
  cbn [String.length]. rewrite IH. reflexivity.
Qed.

Lemma prefix_run_shorter c k : forall hay,
  String.prefix (String c (str_mul (String c EmptyString) (Z.of_nat k))) hay = true ->
  String.prefix (str_mul (String c EmptyString) (Z.of_nat k)) hay = true.
Proof.
  induction k as [|k IH]; intros hay H.
  - destruct hay; reflexivity.
  - rewrite Nat2Z.inj_succ, <- Z.add_1_r, str_mul_succ in * by lia.
    destruct hay as [|b hay]; [discriminate H|].
    cbn [String.prefix] in *.
    destruct (ascii_dec c b); [|discriminate H].
    apply IH. exact H.
Qed.

Lemma str_contains_run_shorter c k hay :
  str_contains (str_mul (String c EmptyString) (Z.of_nat (S k))) hay = true ->
  str_contains (str_mul (String c EmptyString) (Z.of_nat k)) hay = true.
Proof.
  rewrite Nat2Z.inj_succ, <- Z.add_1_r, str_mul_succ by lia.
  induction hay as [|b hay IH]; intros H.
  - discriminate H.
  - cbn [str_contains] in *. apply orb_true_iff in H. apply orb_true_iff.
    destruct H as [H|H]; [left; apply prefix_run_shorter; exact H|right; auto].
Qed.

Lemma str_contains_run_le c (h h' : Z) hay :
  h <= h' ->
  str_contains (str_mul (String c EmptyString) h') hay = true ->
  str_contains (str_mul (String c EmptyString) h) hay = true.
Proof.
  intros Hle H.
  destruct (Z.leb_spec h 0) as [H0|H0].
  { rewrite str_mul_nonpositive by exact H0. apply str_contains_empty. }
  rewrite <- (Z2Nat.id h) by lia. rewrite <- (Z2Nat.id h') in H by lia.
  assert (Hn : (Z.to_nat h <= Z.to_nat h')%nat) by lia.
  induction Hn as [|m Hm IH]; [exact H|].
  apply IH. apply str_contains_run_shorter. exact H.
Qed.

Lemma prefix_length needle hay :
  String.prefix needle hay = true -> (String.length needle <= String.length hay)%nat.
Proof.
  revert hay. induction needle as [|a needle IH]; intros hay H; [cbn; lia|].
  destruct hay as [|b hay]; [discriminate H|].
  cbn [String.prefix] in H. destruct (ascii_dec a b); [|discriminate H].
  apply IH in H. cbn [String.length]. lia.
Qed.

Lemma str_contains_length needle hay :
  str_contains needle hay = true -> (String.length needle <= String.length hay)%nat.
Proof.
  induction hay as [|b hay IH]; cbn [str_contains]; intros H;
    apply orb_true_iff in H; destruct H as [H|H].
  - apply prefix_length. exact H.
  - discriminate H.
  - apply prefix_length. exact H.
  - apply IH in H. cbn [String.length]. lia.
Qed.

(** X21. With a homopolymer limit of 0 or less, [BarcodePasses] rejects
    every barcode: the run of length [hpLimit] that it looks for is then the
    empty string, which every barcode contains. *)
Theorem BarcodePasses_nonpositive_limit barcode hpLimit :
  hpLimit <= 0 -> BarcodePasses barcode hpLimit = false.
Proof.
  intros H. unfold BarcodePasses.
  rewrite !str_mul_nonpositive by exact H. rewrite str_contains_empty.
  rewrite orb_true_r. reflexivity.
Qed.

(** X22. A barcode that passes under a homopolymer limit passes under
    every larger limit; and a barcode without "N" that is shorter than a
    positive limit passes. *)
Theorem BarcodePasses_monotone barcode hpLimit hpLimit' :
  hpLimit <= hpLimit' ->
  (BarcodePasses barcode hpLimit = true -> BarcodePasses barcode hpLimit' = true)
  /\ (str_contains "N" barcode = false ->
      Z.of_nat (String.length barcode) < hpLimit' ->
      BarcodePasses barcode hpLimit' = true).
Proof.
  intros Hle. split.
  - unfold BarcodePasses. intros H.
    apply negb_true_iff in H. apply negb_true_iff.
    repeat (apply orb_false_iff in H; destruct H as [H ?]).
    repeat (apply orb_false_intro); try assumption;
      match goal with
      | |- str_contains (str_mul ?s hpLimit') barcode = false =>
          destruct (str_contains (str_mul s hpLimit') barcode) eqn:E; [|reflexivity];
          apply (@str_contains_run_le _ hpLimit hpLimit' barcode Hle) in E; congruence
      end.
  - intros HN Hlen. unfold BarcodePasses. rewrite HN. apply negb_true_iff.
    repeat (apply orb_false_intro); try reflexivity;
      match goal with
      | |- str_contains (str_mul ?s hpLimit') barcode = false =>
          destruct (str_contains (str_mul s hpLimit') barcode) eqn:E; [|reflexivity];
          apply str_contains_length in E; rewrite length_str_mul in E by lia; lia
      end.
Qed.

Lemma BarcodePasses_nonpositive_limit_witness :
  BarcodePasses "ACGTACGT" 0 = false.
Proof.
  apply (@BarcodePasses_nonpositive_limit "ACGTACGT" 0). lia.
Defined.

Lemma BarcodePasses_monotone_witness :
  BarcodePasses "AACCGGTT" 4 = true.
Proof.
  destruct (@BarcodePasses_monotone "AACCGGTT" 3 4) as [H _]; [lia|].
  apply H. reflexivity.
Defined.

(** ** The tags of a description *)

Lemma str_forall_app p (a b : string) :
  str_forall p (a ++ b) = str_forall p a && str_forall p b.
Proof.
  induction a as [|x a IH]; [reflexivity|].
  cbn [String.append str_forall]. rewrite IH. apply andb_assoc.
Qed.

Lemma str_forall_impl (p q : ascii -> bool) s :
  (forall c, p c = true -> q c = true) -> str_forall p s = true -> str_forall q s = true.
Proof.
  intros H. induction s as [|x s IH]; [reflexivity|].
  cbn [str_forall]. intros E. apply andb_prop in E. destruct E as [E1 E2].
  rewrite (H x E1), (IH E2). reflexivity.
Qed.

Lemma str_split_nonempty sep s : str_split sep s <> [].
Proof.
  destruct s as [|c s]; cbn [str_split]; [discriminate|].
  destruct (Ascii.eqb c sep); [discriminate|].
  destruct (str_split sep s); discriminate.
Qed.

Lemma str_split_app sep (a b : string) :
  str_split sep (a ++ String sep b) = str_split sep a ++ str_split sep b.
Proof.
  induction a as [|c a IH].
  - cbn [String.append str_split]. rewrite Ascii.eqb_refl. reflexivity.
  - cbn [String.append str_split]. rewrite IH.
    destruct (Ascii.eqb c sep); [reflexivity|].
    pose proof (@str_split_nonempty sep a) as N.
    destruct (str_split sep a) as [|f fs]; [contradiction|]. reflexivity.
Qed.

Lemma str_split_without_sep sep s :
  str_forall (fun c => negb (Ascii.eqb c sep)) s = true -> str_split sep s = [s].
Proof.
  induction s as [|c s IH]; [reflexivity|].
  cbn [str_forall str_split]. intros E. apply andb_prop in E. destruct E as [E1 E2].
  apply negb_true_iff in E1. rewrite E1, (IH E2). reflexivity.
Qed.

Lemma str_rstrip_without_space s :
  str_forall (fun c => negb (is_space c)) s = true -> str_rstrip s = s.
Proof.
  induction s as [|c s IH]; [reflexivity|].
  cbn [str_forall str_rstrip]. intros E. apply andb_prop in E. destruct E as [E1 E2].
  apply negb_true_iff in E1. rewrite (IH E2), E1. destruct s; reflexivity.
Qed.

Lemma str_strip_without_space s :
  str_forall (fun c => negb (is_space c)) s = true -> str_strip s = s.
Proof.
  intros E. unfold str_strip.
  assert (L : str_lstrip s = s).
  { destruct s as [|c s]; [reflexivity|].
    cbn [str_forall] in E. apply andb_prop in E. destruct E as [E1 _].
    apply negb_true_iff in E1. cbn [str_lstrip]. rewrite E1. reflexivity. }
  rewrite L. apply str_rstrip_without_space. exact E.
Qed.

Lemma tag_char_parts c :
  tag_char c = true ->
  negb (is_space c) = true /\ negb (Ascii.eqb c "|") = true
  /\ negb (Ascii.eqb c "=") = true /\ negb (Ascii.eqb c " ") = true.
Proof.
  unfold tag_char. intros E.
  apply andb_prop in E. destruct E as [E E3]. apply andb_prop in E. destruct E as [E1 E2].
  repeat split; try assumption.
  destruct (Ascii.eqb_spec c " ") as [->|]; [discriminate E1|reflexivity].
Qed.

Lemma tag_field_split k v :
  str_forall tag_char k = true -> str_forall tag_char v = true ->
  str_split "|" (tag_field (k, v)) = [tag_field (k, v)]
  /\ str_split "=" (str_strip (tag_field (k, v))) = [k; v]
  /\ str_split " " v = [v].
Proof.
  intros Hk Hv. unfold tag_field. cbn [fst snd].
  change (k ++ "=" ++ v)%string with (k ++ String "=" v)%string.
  repeat split.
  - apply str_split_without_sep. rewrite str_forall_app. cbn [str_forall].
    rewrite (@str_forall_impl tag_char _ k), (@str_forall_impl tag_char _ v);
      try assumption; try reflexivity; intros c Hc; apply tag_char_parts in Hc; tauto.
  - rewrite str_strip_without_space.
    + rewrite str_split_app.
      rewrite (@str_split_without_sep "=" k), (@str_split_without_sep "=" v);
        [reflexivity| |];
        eapply str_forall_impl; try eassumption;
        intros c Hc; apply tag_char_parts in Hc; tauto.
    + rewrite str_forall_app. cbn [str_forall].
      rewrite (@str_forall_impl tag_char _ k), (@str_forall_impl tag_char _ v);
        try assumption; try reflexivity; intros c Hc; apply tag_char_parts in Hc; tauto.
  - apply str_split_without_sep. eapply str_forall_impl; [|exact Hv].
    intros c Hc. apply tag_char_parts in Hc. tauto.
Qed.

Lemma str_split_tags tags : forall desc,
  tags_clean tags ->
  str_split "|" (desc ++ tags_string tags) = str_split "|" desc ++ map tag_field tags.
Proof.
  induction tags as [|[k v] tags IH]; intros desc H.
  - cbn [tags_string map]. rewrite str_append_nil_r, app_nil_r. reflexivity.
  - inversion H as [|? ? [Hk Hv] Hrest]; subst. cbn [fst snd] in Hk, Hv.
    cbn [tags_string map].
    change ("|" ++ tag_field (k, v) ++ tags_string tags)%string
      with (String "|" (tag_field (k, v) ++ tags_string tags)).
    rewrite str_split_app, (IH (tag_field (k, v)) Hrest).
    destruct (@tag_field_split k v Hk Hv) as [E _]. rewrite E. reflexivity.
Qed.

Lemma fill_tagDict_app e1 : forall e2 d,
  fill_tagDict (e1 ++ e2) d = (d' <- fill_tagDict e1 d ;; fill_tagDict e2 d').
Proof.
  induction e1 as [|e e1 IH]; intros e2 d; [reflexivity|].
  cbn [app fill_tagDict].
  destruct (nth_error e 1) as [v|]; [|reflexivity]. cbn [Py.bind].
  destruct (nth_error (str_split " " v) 0) as [value|]; [|reflexivity]. cbn [Py.bind].
  destruct (nth_error e 0) as [key|]; [|reflexivity]. cbn [Py.bind].
  apply IH.
Qed.

Lemma fill_tagDict_tags tags : forall d,
  tags_clean tags ->
  fill_tagDict (map (fun i => str_split "=" (str_strip i)) (map tag_field tags)) d
  = Some (fold_left (fun d kv => dict_set (fst kv) (snd kv) d) tags d).
Proof.
  induction tags as [|[k v] tags IH]; intros d H; [reflexivity|].
  inversion H as [|? ? [Hk Hv] Hrest]; subst. cbn [fst snd] in Hk, Hv.
  destruct (@tag_field_split k v Hk Hv) as (_ & E2 & E3).
  cbn [map fill_tagDict fold_left]. rewrite E2. cbn [nth_error Py.bind].
  rewrite E3. cbn [nth_error Py.bind fst snd]. apply IH. exact Hrest.
Qed.

Lemma GetDescriptionTagDict_appended_tags desc d0 tags :
  tags_clean tags ->
  GetDescriptionTagDict desc = Some d0 ->
  GetDescriptionTagDict (desc ++ tags_string tags)
  = Some (fold_left (fun d kv => dict_set (fst kv) (snd kv) d) tags d0).
Proof.
  intros Hc H0. unfold GetDescriptionTagDict in *. cbv zeta in *.
  rewrite str_split_tags by exact Hc.
  pose proof (@str_split_nonempty "|" desc) as N.
  destruct (str_split "|" desc) as [|f fs]; [contradiction|].
  cbn [app map tl] in *. rewrite map_app, fill_tagDict_app, H0. cbn [Py.bind].
  apply fill_tagDict_tags. exact Hc.
Qed.

Lemma dict_get_set_same k v d : dict_get k (dict_set k v d) = Some v.
Proof.
  induction d as [|[k' v'] d IH]; cbn [dict_set dict_get].
  - rewrite String.eqb_refl. reflexivity.
  - destruct (String.eqb k' k) eqn:E; cbn [dict_get].
    + rewrite String.eqb_refl. reflexivity.
    + rewrite E. exact IH.
Qed.

Lemma dict_get_set_other k k' v d :
  k <> k' -> dict_get k' (dict_set k v d) = dict_get k' d.
Proof.
  intros Hne. induction d as [|[k0 v0] d IH]; cbn [dict_set dict_get].
  - destruct (String.eqb_spec k k'); [contradiction|reflexivity].
  - destruct (String.eqb_spec k0 k) as [->|Hk]; cbn [dict_get].
    + destruct (String.eqb_spec k k'); [contradiction|reflexivity].
    + rewrite IH. reflexivity.
Qed.

Lemma tag_char_nilempty u : str_forall tag_char (NilEmpty.string_of_uint u) = true.
Proof.
  induction u; cbn [NilEmpty.string_of_uint str_forall]; rewrite ?IHu; reflexivity.
Qed.

Lemma tag_char_str z : str_forall tag_char (Py.str z) = true.
Proof.
  unfold Py.str. destruct (Z.to_int z) as [u|u]; cbn [NilZero.string_of_int].
  - destruct u; try reflexivity; apply tag_char_nilempty.
  - cbn [str_forall].
    destruct u; try reflexivity; cbn [NilZero.string_of_uint]; rewrite tag_char_nilempty;
      reflexivity.
Qed.

Lemma tag_char_join l : str_forall tag_char (Py.join "," (map Py.str l)) = true.
Proof.
  induction l as [|z l IH]; [reflexivity|].
  cbn [map Py.join]. destruct (map Py.str l) as [|p ps] eqn:E.
  - apply tag_char_str.
  - rewrite !str_forall_app, tag_char_str, IH. reflexivity.
Qed.

Lemma fast_TagString_tags nRecs ND FA PV :
  fast_TagString nRecs ND FA PV
  = tags_string [("FM"%string, Py.str nRecs); ("ND"%string, Py.str ND);
                 ("FA"%string, Py.join "," (map Py.str FA));
                 ("PV"%string, Py.join "," (map Py.str PV))].
Proof.
  unfold fast_TagString, cQualArr2FAString, cQualArr2PVString, tags_string, tag_field.
  cbn [fst snd]. rewrite str_append_nil_r.
  cbn [String.append]. repeat (rewrite ?str_append_assoc; cbn [String.append]).
  reflexivity.
Qed.

Lemma fisher_TagString_tags nRecs ND Qual Agree :
  fisher_TagString nRecs ND Qual Agree
  = tags_string [("FM"%string, Py.str nRecs); ("ND"%string, Py.str ND);
                 ("PV"%string, Py.join "," (map Py.str Qual));
                 ("FA"%string, Py.join "," (map Py.str Agree))].
Proof.
  unfold fisher_TagString, PyArr2FAString, PyArr2PVString, tags_string, tag_field.
  cbn [fst snd]. rewrite str_append_nil_r.
  cbn [String.append]. repeat (rewrite ?str_append_assoc; cbn [String.append]).
  reflexivity.
Qed.

Lemma consensus_tags_clean nRecs ND (FA PV : list Z) (k3 k4 : string) :
  str_forall tag_char k3 = true -> str_forall tag_char k4 = true ->
  tags_clean [("FM"%string, Py.str nRecs); ("ND"%string, Py.str ND);
              (k3, Py.join "," (map Py.str FA)); (k4, Py.join "," (map Py.str PV))].
Proof.
  intros H3 H4. unfold tags_clean.
  repeat apply Forall_cons; try apply Forall_nil; cbn [fst snd]; split;
    try reflexivity; try assumption; try apply tag_char_str; apply tag_char_join.
Qed.

Lemma consensus_record_description name comment nRecs rLen FA phredQuals newSeq qs :
  consensus_record name comment nRecs rLen FA phredQuals newSeq qs
  = ("@" ++ name ++ " "
         ++ (comment ++ fast_TagString nRecs (nRecs * rLen - sum_Z FA) FA phredQuals)
         ++ nl ++ bytes_tostring newSeq ++ nl ++ "+" ++ nl ++ qs ++ nl)%string.
Proof.
  unfold consensus_record, fast_TagString.
  repeat (rewrite ?str_append_assoc; cbn [String.append]). reflexivity.
Qed.

Lemma appended_consensus_tags desc d0 nRecs ND (k3 k4 : string) (l3 l4 : list Z) :
  k3 <> k4 -> k3 <> "FM"%string -> k3 <> "ND"%string ->
  k4 <> "FM"%string -> k4 <> "ND"%string ->
  str_forall tag_char k3 = true -> str_forall tag_char k4 = true ->
  GetDescriptionTagDict desc = Some d0 ->
  exists d,
    GetDescriptionTagDict
      (desc ++ tags_string [("FM"%string, Py.str nRecs); ("ND"%string, Py.str ND);
                            (k3, Py.join "," (map Py.str l3));
                            (k4, Py.join "," (map Py.str l4))]) = Some d
    /\ dict_get "FM" d = Some (Py.str nRecs)
    /\ dict_get "ND" d = Some (Py.str ND)
    /\ dict_get k3 d = Some (Py.join "," (map Py.str l3))
    /\ dict_get k4 d = Some (Py.join "," (map Py.str l4))
    /\ (forall k, k <> "FM"%string -> k <> "ND"%string -> k <> k3 -> k <> k4 ->
                  dict_get k d = dict_get k d0).
Proof.
  intros H34 H3F H3N H4F H4N C3 C4 H0.
  eexists. split.
  { apply GetDescriptionTagDict_appended_tags; [|exact H0].
    apply consensus_tags_clean; assumption. }
  cbn [fold_left fst snd]. repeat split.
  - rewrite !dict_get_set_other by (try congruence; discriminate).
    apply dict_get_set_same.
  - rewrite !dict_get_set_other by (try congruence; discriminate).
    apply dict_get_set_same.
  - rewrite dict_get_set_other by congruence. apply dict_get_set_same.
  - apply dict_get_set_same.
  - intros k HF HN H3 H4. rewrite !dict_get_set_other by congruence. reflexivity.
Qed.

(** X23. Round trip of the tags: when the comment of the first record
    parses to the dictionary [d0], the description that [cCompareFqRecsFast]
    writes (the comment followed by its tag string) parses with
    [GetDescriptionTagDict] to a dictionary that maps FM, ND, FA and PV to
    the texts written for them and every other key to what [d0] holds; the
    same holds for the tag string of [cFastFisherFlattening], where PV
    precedes FA. *)
Theorem GetDescriptionTagDict_consensus_tags comment d0 nRecs ND FA PV :
  GetDescriptionTagDict comment = Some d0 ->
  (exists d,
     GetDescriptionTagDict (comment ++ fast_TagString nRecs ND FA PV) = Some d
     /\ dict_get "FM" d = Some (Py.str nRecs)
     /\ dict_get "ND" d = Some (Py.str ND)
     /\ dict_get "FA" d = Some (Py.join "," (map Py.str FA))
     /\ dict_get "PV" d = Some (Py.join "," (map Py.str PV))
     /\ (forall k, ~ In k ["FM"; "ND"; "FA"; "PV"]%string -> dict_get k d = dict_get k d0))
  /\ (exists d,
        GetDescriptionTagDict (comment ++ fisher_TagString nRecs ND PV FA) = Some d
        /\ dict_get "FM" d = Some (Py.str nRecs)
        /\ dict_get "ND" d = Some (Py.str ND)
        /\ dict_get "FA" d = Some (Py.join "," (map Py.str FA))
        /\ dict_get "PV" d = Some (Py.join "," (map Py.str PV))
        /\ (forall k, ~ In k ["FM"; "ND"; "FA"; "PV"]%string ->
                      dict_get k d = dict_get k d0))
  /\ (forall name rLen newSeq qs,
        consensus_record name comment nRecs rLen FA PV newSeq qs
        = ("@" ++ name ++ " "
               ++ (comment ++ fast_TagString nRecs (nRecs * rLen - sum_Z FA) FA PV)
               ++ nl ++ bytes_tostring newSeq ++ nl ++ "+" ++ nl
               ++ qs ++ nl)%string).
Proof.
  intros H0. split; [|split].
  - rewrite fast_TagString_tags.
    destruct (@appended_consensus_tags comment d0 nRecs ND "FA" "PV" FA PV)
      as (d & Hd & HFM & HND & HFA & HPV & Hother);
      try discriminate; try reflexivity; try exact H0.
    exists d. repeat split; try assumption.
    intros k Hk. apply Hother; intros ->; apply Hk; cbn; auto.
  - rewrite fisher_TagString_tags.
    destruct (@appended_consensus_tags comment d0 nRecs ND "PV" "FA" PV FA)
      as (d & Hd & HFM & HND & HPV & HFA & Hother);
      try discriminate; try reflexivity; try exact H0.
    exists d. repeat split; try assumption.
    intros k Hk. apply Hother; intros ->; apply Hk; cbn; auto.
  - intros. apply consensus_record_description.
Qed.

Lemma str_forall_lstrip p s : str_forall p s = true -> str_forall p (str_lstrip s) = true.
Proof.
  induction s as [|c s IH]; [reflexivity|].
  cbn [str_lstrip]. destruct (is_space c); [|auto].
  cbn [str_forall]. intros E. apply andb_prop in E. apply IH. tauto.
Qed.

Lemma str_forall_rstrip p s : str_forall p s = true -> str_forall p (str_rstrip s) = true.
Proof.
  induction s as [|c s IH]; [reflexivity|].
  cbn [str_forall str_rstrip]. intros E. apply andb_prop in E. destruct E as [E1 E2].
  specialize (IH E2). destruct (str_rstrip s) as [|c' s'].
  - destruct (is_space c); [reflexivity|]. cbn [str_forall]. rewrite E1. reflexivity.
  - cbn [str_forall] in *. rewrite E1, IH. reflexivity.
Qed.

Lemma fill_tagDict_field_without_equals e1 f e2 d :
  str_forall (fun c => negb (Ascii.eqb c "=")) f = true ->
  fill_tagDict (e1 ++ str_split "=" (str_strip f) :: e2) d = None.
Proof.
  intros Hf. rewrite fill_tagDict_app.
  destruct (fill_tagDict e1 d) as [d'|]; [|reflexivity]. cbn [Py.bind].
  rewrite str_split_without_sep
    by (unfold str_strip; apply str_forall_rstrip, str_forall_lstrip; exact Hf).
  reflexivity.
Qed.

(** X24. A description in which a field after the first "|" holds no "="
    makes [GetDescriptionTagDict] raise, wherever the field stands and
    whatever the other fields are; a description that ends in "|" is such a
    description. *)
Theorem GetDescriptionTagDict_field_without_equals pre f post :
  str_forall (fun c => negb (Ascii.eqb c "|") && negb (Ascii.eqb c "=")) f = true ->
  GetDescriptionTagDict (pre ++ "|" ++ f) = None
  /\ GetDescriptionTagDict (pre ++ "|" ++ f ++ "|" ++ post) = None.
Proof.
  intros Hf.
  assert (Hbar : str_forall (fun c => negb (Ascii.eqb c "|")) f = true).
  { eapply str_forall_impl; [|exact Hf]. intros c Hc. apply andb_prop in Hc. tauto. }
  assert (Heq : str_forall (fun c => negb (Ascii.eqb c "=")) f = true).
  { eapply str_forall_impl; [|exact Hf]. intros c Hc. apply andb_prop in Hc. tauto. }
  pose proof (@str_split_nonempty "|" pre) as N.
  unfold GetDescriptionTagDict. cbv zeta. split.
  - change (pre ++ "|" ++ f)%string with (pre ++ String "|" f)%string.
    rewrite str_split_app, (str_split_without_sep _ _ Hbar).
    destruct (str_split "|" pre) as [|p ps]; [contradiction|].
    cbn [app map tl]. rewrite map_app. cbn [map].
    apply fill_tagDict_field_without_equals. exact Heq.
  - change (pre ++ "|" ++ f ++ "|" ++ post)%string
      with (pre ++ String "|" (f ++ String "|" post))%string.
    rewrite !str_split_app, (str_split_without_sep _ _ Hbar).
    destruct (str_split "|" pre) as [|p ps]; [contradiction|].
    cbn [app map tl]. rewrite map_app. cbn [app map].
    apply fill_tagDict_field_without_equals. exact Heq.
Qed.

Lemma GetDescriptionTagDict_consensus_tags_witness :
  exists d,
    GetDescriptionTagDict ("1:N:0:1" ++ fast_TagString 4 1 [4; 4; 4; 3] [120; 120; 120; 90])
    = Some d
    /\ dict_get "FM" d = Some "4"%string.
Proof.
  destruct (@GetDescriptionTagDict_consensus_tags "1:N:0:1" [] 4 1 [4; 4; 4; 3]
              [120; 120; 120; 90] eq_refl) as [(d & Hd & HFM & _) _].
  exists d. split; [exact Hd|exact HFM].
Defined.

Lemma GetDescriptionTagDict_field_without_equals_witness :
  GetDescriptionTagDict ("c|FM=3" ++ "|" ++ "ND" ++ "|" ++ "PV=1") = None.
Proof.
  apply (@GetDescriptionTagDict_field_without_equals "c|FM=3" "ND" "PV=1").
  reflexivity.
Defined.

(** ** The two encoders of a quality string *)

Lemma PyArr2QualStr_nonneg qs :
  Forall (fun q => 0 <= q) qs ->
  PyArr2QualStr qs = Some (bytes_tostring (map ph2chr_code qs)).
Proof.
  intros H. unfold PyArr2QualStr. rewrite mapM_to_size_t by exact H. cbn [Py.bind].
  unfold Py.array_B_tostring.
  assert (R : forallb (fun c => (0 <=? c) && (c <? 256)) (map ph2chr_code qs) = true).
  { apply forallb_forall. intros c Hc. apply in_map_iff in Hc.
    destruct Hc as (q & <- & Hq). rewrite Forall_forall in H. specialize (H q Hq).
    rewrite ph2chr_code_min. apply andb_true_intro.
    split; [apply Z.leb_le|apply Z.ltb_lt]; lia. }
  rewrite R. reflexivity.
Qed.

Lemma encoders_raise_on_negative PH2CHR_TRANS qs :
  forallb (fun q => 0 <=? q) qs = false ->
  PyArr2QualStr qs = None /\ cQualArr2QualStr PH2CHR_TRANS qs = None.
Proof.
  intros H. split.
  - unfold PyArr2QualStr.
    assert (M : Py.mapM (fun q => i <- Py.to_size_t q ;; Some (ph2chr_code i)) qs = None).
    { induction qs as [|q qs IH]; [discriminate H|].
      cbn [forallb] in H. cbn [Py.mapM]. unfold Py.to_size_t at 1.
      destruct (Z.ltb_spec q 0) as [Hq|Hq]; [reflexivity|]. cbn [Py.bind].
      replace (0 <=? q) with true in H by (symmetry; apply Z.leb_le; lia).
      rewrite (IH H). reflexivity. }
    rewrite M. reflexivity.
  - unfold cQualArr2QualStr, Py.array_B_tostring.
    assert (F : forallb (fun c => (0 <=? c) && (c <? 256))
                        (map (fun tmpInt => if tmpInt <? 94 then tmpInt else 93) qs)
                = false).
    { induction qs as [|q qs IH]; [discriminate H|].
      cbn [forallb map] in *. apply andb_false_iff in H. apply andb_false_iff.
      destruct H as [H|H]; [left|right; auto].
      apply Z.leb_gt in H. destruct (Z.ltb_spec q 94); [|lia].
      apply andb_false_iff. left. apply Z.leb_gt. lia. }
    rewrite F. reflexivity.
Qed.

(** X25. When the translation table [PH2CHR_TRANS] sends every byte from
    0 to 93 to the character 33 places further, the encoder of the fast
    comparison, [cQualArr2QualStr], and the encoder of the Fisher
    flattening, [PyArr2QualStr], return the same string for every array of
    qualities, and raise on the same arrays (those with a negative
    quality). *)
Theorem cQualArr2QualStr_PyArr2QualStr PH2CHR_TRANS qs :
  (forall c, 0 <= c <= 93 -> PH2CHR_TRANS (Py.chr c) = Py.chr (c + 33)) ->
  cQualArr2QualStr PH2CHR_TRANS qs = PyArr2QualStr qs
  /\ (PyArr2QualStr qs = None <-> Exists (fun q => q < 0) qs).
Proof.
  intros Htable.
  destruct (forallb (fun q => 0 <=? q) qs) eqn:E.
  - assert (H : Forall (fun q => 0 <= q) qs).
    { apply Forall_forall. intros q Hq. rewrite forallb_forall in E.
      apply Z.leb_le, E, Hq. }
    rewrite cQualArr2QualStr_nonneg, PyArr2QualStr_nonneg by exact H. split.
    + f_equal. unfold string_translate, bytes_tostring.
      rewrite list_ascii_of_string_of_list_ascii, !map_map. f_equal.
      apply map_ext_in. intros q Hq. rewrite Forall_forall in H. specialize (H q Hq).
      rewrite ph2chr_code_min. apply Htable. lia.
    + split; [discriminate|]. intros Hex. apply Exists_exists in Hex.
      destruct Hex as (q & Hq & Hneg). rewrite Forall_forall in H.
      specialize (H q Hq). lia.
  - destruct (@encoders_raise_on_negative PH2CHR_TRANS qs E) as [E1 E2].
    rewrite E1, E2. split; [reflexivity|]. split; [|reflexivity]. intros _.
    apply Exists_exists.
    assert (X : existsb (fun q => negb (0 <=? q)) qs = true).
    { clear E1 E2. induction qs as [|q qs IH]; [discriminate E|].
      cbn [forallb existsb] in *. apply andb_false_iff in E. apply orb_true_iff.
      destruct E as [E|E]; [left; rewrite E; reflexivity|right; auto]. }
    apply existsb_exists in X. destruct X as (q & Hq & Hneg).
    exists q. split; [exact Hq|]. apply negb_true_iff, Z.leb_gt in Hneg. exact Hneg.
Qed.

Lemma cQualArr2QualStr_PyArr2QualStr_witness :
  cQualArr2QualStr ph2chr_plus33 [0; 40; 93; 94; 200] = PyArr2QualStr [0; 40; 93; 94; 200].
Proof.
  apply (@cQualArr2QualStr_PyArr2QualStr ph2chr_plus33 [0; 40; 93; 94; 200]).
  intros c Hc. unfold ph2chr_plus33. rewrite ord_chr by lia. reflexivity.
Defined.

(** ** Overlapping layouts *)

(** X26. For two layouts that each have an "M" position, [LayoutsOverlap]
    does not depend on what the counter of [cGetLastRefPos] held, it is
    symmetric in its arguments, and it holds exactly when each layout starts
    at or before the last reference position of the other (the coordinate of
    its last "M" position plus the number of positions after it). *)
Theorem LayoutsOverlap_with_matches c c' L1 L2 pre1 m1 post1 pre2 m2 post2 :
  positions L1 = pre1 ++ m1 :: post1 -> operation m1 = 77 ->
  Forall (fun p => operation p <> 77) post1 ->
  positions L2 = pre2 ++ m2 :: post2 -> operation m2 = 77 ->
  Forall (fun p => operation p <> 77) post2 ->
  LayoutsOverlap c L1 L2 = LayoutsOverlap c' L2 L1
  /\ (LayoutsOverlap c L1 L2 = true
      <-> cGetRefPosForFirstPos L1 <= pos m2 + Z.of_nat (length post2)
          /\ cGetRefPosForFirstPos L2 <= pos m1 + Z.of_nat (length post1)).
Proof.
  intros H1 Hm1 Hp1 H2 Hm2 Hp2.
  assert (E1 : forall k, cGetLastRefPos k L1 = pos m1 + Z.of_nat (length post1)).
  { intros k. unfold cGetLastRefPos. rewrite H1.
    apply lastRefPos_loop_last_match; assumption. }
  assert (E2 : forall k, cGetLastRefPos k L2 = pos m2 + Z.of_nat (length post2)).
  { intros k. unfold cGetLastRefPos. rewrite H2.
    apply lastRefPos_loop_last_match; assumption. }
  unfold LayoutsOverlap. cbv zeta. rewrite !E1, !E2. split.
  - rewrite orb_comm. reflexivity.
  - destruct (Z.gtb_spec (cGetRefPosForFirstPos L1) (pos m2 + Z.of_nat (length post2)));
      destruct (Z.gtb_spec (cGetRefPosForFirstPos L2) (pos m1 + Z.of_nat (length post1)));
      cbn [orb]; split; intros HH; try discriminate HH; try reflexivity; lia.
Qed.

Lemma LayoutsOverlap_with_matches_witness :
  LayoutsOverlap 7 layout_ACG layout_AC = LayoutsOverlap 0 layout_AC layout_ACG.
Proof.
  destruct (@LayoutsOverlap_with_matches 7 0 layout_ACG layout_AC
              [mapped 100 0 65; mapped 101 1 67] (mapped 102 2 71) []
              [mapped 100 0 65] (mapped 101 1 67) []
              eq_refl eq_refl (Forall_nil _) eq_refl eq_refl (Forall_nil _)) as [H _].
  exact H.
Defined.

(** ** The distance of two barcodes *)

Lemma wrap_int8_small z : -128 <= z <= 127 -> wrap_int8 z = z.
Proof.
  intros H. unfold wrap_int8. rewrite Z.mod_small by lia. lia.
Qed.

Lemma StringHD_fold str1 str2 l : forall ret,
  0 <= ret -> ret + Z.of_nat (length l) <= 127 ->
  fold_left (fun ret index =>
               if negb (array_get 0 str1 index =? array_get 0 str2 index)
               then wrap_int8 (ret + 1) else ret) l ret
  = ret + Z.of_nat (length (filter (fun index =>
                                      negb (array_get 0 str1 index
                                            =? array_get 0 str2 index)) l)).
Proof.
  induction l as [|i l IH]; intros ret H0 H1; cbn [fold_left filter length] in *; [lia|].
  destruct (negb (array_get 0 str1 i =? array_get 0 str2 i)).
  - rewrite wrap_int8_small by lia. rewrite IH by lia. cbn [length]. lia.
  - apply IH; lia.
Qed.

Lemma StringHD_count str1 str2 bLen :
  0 <= bLen <= 127 ->
  StringHD str1 str2 bLen
  = Z.of_nat (length (filter (fun index =>
                                negb (array_get 0 str1 index =? array_get 0 str2 index))
                             (zrange bLen))).
Proof.
  intros H. unfold StringHD. rewrite StringHD_fold; rewrite ?length_zrange; lia.
Qed.

Lemma length_filter_le {A} (p : A -> bool) l : (length (filter p l) <= length l)%nat.
Proof.
  induction l as [|x l IH]; [reflexivity|].
  cbn [filter]. destruct (p x); cbn [length]; lia.
Qed.

Lemma length_filter_zero {A} (p : A -> bool) l :
  length (filter p l) = 0%nat <-> (forall x, In x l -> p x = false).
Proof.
  induction l as [|x l IH]; cbn [filter].
  - split; [intros _ x []|reflexivity].
  - destruct (p x) eqn:E; cbn [length].
    + split; [discriminate|]. intros H. specialize (H x (or_introl eq_refl)). congruence.
    + rewrite IH. split.
      * intros H y [<-|Hy]; auto.
      * intros H y Hy. apply H. right. exact Hy.
Qed.

Lemma In_zrange_iff i l : In i (zrange l) <-> 0 <= i < l.
Proof.
  split; [apply In_zrange|]. intros H. unfold zrange.
  apply in_map_iff. exists (Z.to_nat i). split; [lia|]. apply in_seq. lia.
Qed.

(** X27. For a barcode length from 0 to 127, [StringHD] is the number of
    indices below [bLen] at which the two strings differ (the [int8_t]
    counter cannot overflow), and it is a distance on the compared prefixes:
    it lies between 0 and [bLen], it is symmetric, it is 0 exactly when the
    strings are equal at every compared index, and it satisfies the triangle
    inequality. *)
Theorem StringHD_metric str1 str2 str3 bLen :
  0 <= bLen <= 127 ->
  0 <= StringHD str1 str2 bLen <= bLen
  /\ StringHD str1 str2 bLen = StringHD str2 str1 bLen
  /\ (StringHD str1 str2 bLen = 0
      <-> forall index, 0 <= index < bLen ->
                        array_get 0 str1 index = array_get 0 str2 index)
  /\ StringHD str1 str3 bLen <= StringHD str1 str2 bLen + StringHD str2 str3 bLen.
Proof.
  intros H. rewrite !StringHD_count by exact H. repeat split.
  - lia.
  - pose proof (@length_filter_le _
                  (fun index => negb (array_get 0 str1 index =? array_get 0 str2 index))
                  (zrange bLen)) as B.
    rewrite length_zrange in B. lia.
  - do 2 f_equal. apply filter_ext. intros i. rewrite Z.eqb_sym. reflexivity.
  - intros E index Hi.
    assert (E' : length (filter (fun index =>
                                   negb (array_get 0 str1 index
                                         =? array_get 0 str2 index))
                                (zrange bLen)) = 0%nat) by lia.
    rewrite length_filter_zero in E'.
    specialize (E' index (proj2 (In_zrange_iff index bLen) Hi)).
    apply negb_false_iff, Z.eqb_eq in E'. exact E'.
  - intros E.
    assert (E' : length (filter (fun index =>
                                   negb (array_get 0 str1 index
                                         =? array_get 0 str2 index))
                                (zrange bLen)) = 0%nat).
    { apply length_filter_zero. intros i Hi. apply In_zrange in Hi.
      apply negb_false_iff, Z.eqb_eq, E, Hi. }
    rewrite E'. reflexivity.
  - induction (zrange bLen) as [|i l IH]; [cbn; lia|].
    cbn [filter].
    destruct (Z.eqb_spec (array_get 0 str1 i) (array_get 0 str3 i));
      destruct (Z.eqb_spec (array_get 0 str1 i) (array_get 0 str2 i));
      destruct (Z.eqb_spec (array_get 0 str2 i) (array_get 0 str3 i));
      cbn [negb length]; try lia; congruence.
Qed.

Lemma StringHD_metric_witness :
  StringHD [65; 67; 71; 84] [65; 67; 84; 84] 4
  = StringHD [65; 67; 84; 84] [65; 67; 71; 84] 4.
Proof.
  destruct (@StringHD_metric [65; 67; 71; 84] [65; 67; 84; 84] [] 4) as (_ & H & _);
    [lia|exact H].
Defined.

(** ** Reference k-mers and edit distances *)

Lemma length_substring s : forall n m,
  (n + m <= String.length s)%nat -> String.length (substring n m s) = m.
Proof.
  induction s as [|c s IH]; intros n m H; cbn [String.length] in H.
  - assert (n = 0%nat /\ m = 0%nat) as [-> ->] by lia. reflexivity.
  - destruct n as [|n]; cbn [substring].
    + destruct m as [|m]; [reflexivity|]. cbn [String.length]. rewrite IH by lia. reflexivity.
    + apply IH. lia.
Qed.

Section KmersToCheckFacts.
Variable fetch : string -> Z -> Z -> option string.

(** X28. When the reference returns the [n] bases of the padded region
    and [k] is positive, [GetKmersToCheck] returns [n - k] k-mers: the
    windows of [k] bases at the offsets 0 to [n - k - 1].  The window at
    offset [n - k], which ends with the last base of the region, has [k]
    bases as well and is not among them. *)
Theorem GetKmersToCheck_windows k bedline padding regionStr :
  0 < k ->
  fetch (fst (fst bedline))
        (snd (fst bedline) - (if padding <? 0 then k else padding))
        (snd bedline + (if padding <? 0 then k else padding)) = Some regionStr ->
  Z.of_nat (String.length regionStr)
  = snd bedline - snd (fst bedline) + 2 * (if padding <? 0 then k else padding) ->
  k <= Z.of_nat (String.length regionStr) ->
  exists kmers,
    GetKmersToCheck fetch k bedline padding = Some kmers
    /\ Z.of_nat (length kmers) = Z.of_nat (String.length regionStr) - k
    /\ (forall i, 0 <= i <= Z.of_nat (String.length regionStr) - k ->
                  String.length (str_slice regionStr i (i + k)) = Z.to_nat k)
    /\ (forall i, 0 <= i < Z.of_nat (String.length regionStr) - k ->
                  nth (Z.to_nat i) kmers EmptyString = str_slice regionStr i (i + k)).
Proof.
  intros Hk Hfetch Hlen Hfit. unfold GetKmersToCheck. cbv zeta.
  rewrite Hfetch. cbn [Py.bind]. eexists. split; [reflexivity|].
  set (pad := if padding <? 0 then k else padding) in *.
  replace (snd bedline + pad - (snd (fst bedline) - pad) - k)
    with (Z.of_nat (String.length regionStr) - k) by lia.
  repeat split.
  - rewrite length_map, length_zrange. lia.
  - intros i Hi. unfold str_slice. rewrite length_substring by lia. lia.
  - intros i Hi. unfold zrange. rewrite map_map.
    rewrite (nth_indep _ EmptyString
               (str_slice regionStr (Z.of_nat 0) (Z.of_nat 0 + k)))
      by (rewrite length_map, length_seq; lia).
    rewrite (map_nth (fun x => str_slice regionStr (Z.of_nat x) (Z.of_nat x + k))).
    rewrite seq_nth by lia. cbn [Nat.add]. rewrite Z2Nat.id by lia. reflexivity.
Qed.

End KmersToCheckFacts.

Lemma GetKmersToCheck_windows_witness :
  exists kmers,
    GetKmersToCheck (fun _ _ _ => Some "ACGTACGTAC"%string) 3 ("chr1"%string, 10, 14) (-1)
    = Some kmers
    /\ Z.of_nat (length kmers) = 7.
Proof.
  destruct (@GetKmersToCheck_windows (fun _ _ _ => Some "ACGTACGTAC"%string)
              3 ("chr1"%string, 10, 14) (-1) "ACGTACGTAC")
    as (kmers & H & Hn & _); [lia|reflexivity|reflexivity|cbn; lia|].
  exists kmers. split; [exact H|exact Hn].
Defined.

Lemma nm_search_app cls (pre s : string) :
  nm_search cls s = true -> nm_search cls (pre ++ s) = true.
Proof.
  intros H. induction pre as [|c pre IH]; [exact H|].
  cbn [String.append nm_search]. rewrite IH. apply orb_true_r.
Qed.

Lemma nm_class_digit maxNM d :
  0 <= maxNM <= 9 -> 0 <= d <= maxNM ->
  nm_class maxNM (Py.chr (48 + d)) = true.
Proof.
  intros Hm Hd.
  assert (M : maxNM = 0 \/ maxNM = 1 \/ maxNM = 2 \/ maxNM = 3 \/ maxNM = 4
              \/ maxNM = 5 \/ maxNM = 6 \/ maxNM = 7 \/ maxNM = 8 \/ maxNM = 9) by lia.
  assert (D : d = 0 \/ d = 1 \/ d = 2 \/ d = 3 \/ d = 4
              \/ d = 5 \/ d = 6 \/ d = 7 \/ d = 8 \/ d = 9) by lia.
  repeat (destruct M as [M|M]; [subst maxNM;
    repeat (destruct D as [D|D]; [subst d; first [reflexivity | lia]|]);
    subst d; first [reflexivity | lia]|]).
  subst maxNM.
  repeat (destruct D as [D|D]; [subst d; first [reflexivity | lia]|]).
  subst d; first [reflexivity | lia].
Qed.

(** X29. [PassesNM] examines the first digit of the edit distance only.
    For a limit from 0 to 9, a line that holds "NM:i:" followed by a digit
    that is not above the limit passes, whatever precedes the tag and
    whatever follows the digit: a line with "NM:i:25" passes the limit 2. *)
Theorem PassesNM_first_digit pre tail maxNM d :
  0 <= maxNM <= 9 -> 0 <= d <= maxNM ->
  PassesNM (pre ++ "NM:i:" ++ String (Py.chr (48 + d)) tail) maxNM = Some true.
Proof.
  intros Hm Hd. unfold PassesNM.
  replace ((0 <=? maxNM) && (maxNM <? 200)) with true
    by (symmetry; apply andb_true_intro; split; [apply Z.leb_le|apply Z.ltb_lt]; lia).
  f_equal. apply nm_search_app.
  cbn [String.append nm_search nm_match_here].
  rewrite nm_class_digit by assumption. reflexivity.
Qed.

Lemma PassesNM_first_digit_witness :
  PassesNM ("read1" ++ "NM:i:" ++ String (Py.chr (48 + 2)) "5") 2 = Some true.
Proof.
  apply (@PassesNM_first_digit "read1" "5" 2 2); lia.
Defined.

(** ** The record of the Fisher flattening *)

Section FisherRecord.
Context {num : Numerics}.

(** X30. For every family of two records or more in which all sequences
    and quality strings have one positive length, [cFastFisherFlattening]
    returns a record (it does not raise): the name, then the comment of the
    first record followed by the tags FM, ND, PV and FA, where ND is the
    number of bases of the family minus the sum of the agreement counts of
    [cFisherFlatten]; there is one base, one PV value and one FA value per
    position, and every PV value is positive. *)
Theorem cFastFisherFlattening_returns R0 rest name :
  family_well_shaped (R0 :: rest) = true ->
  (2 <= length (R0 :: rest))%nat ->
  exists ret phredQualsStr,
    ret = cFisherFlatten
            (concat (map (fun rec => cs_to_ia (Fq.sequence rec)) (R0 :: rest)))
            (concat (map (fun rec => cs_to_ph (Fq.quality rec)) (R0 :: rest)))
            (Z.of_nat (String.length (Fq.sequence R0)))
            (Z.of_nat (length (R0 :: rest)))
    /\ cFastFisherFlattening (R0 :: rest) name
       = Some ("@" ++ record_name R0 name ++ " "
                   ++ (Fq.comment R0
                         ++ fisher_TagString
                              (Z.of_nat (length (R0 :: rest)))
                              (Z.of_nat (length (R0 :: rest))
                               * Z.of_nat (String.length (Fq.sequence R0))
                               - sum_Z (Agree ret))
                              (Qual ret) (Agree ret))
                   ++ nl ++ bytes_tostring (Seq ret) ++ nl ++ "+" ++ nl
                   ++ phredQualsStr ++ nl)%string
    /\ length (Seq ret) = String.length (Fq.sequence R0)
    /\ length (Qual ret) = String.length (Fq.sequence R0)
    /\ length (Agree ret) = String.length (Fq.sequence R0)
    /\ Forall (fun q => 0 < q) (Qual ret).
Proof.
  intros Hshape Hn.
  destruct (family_well_shaped_rows _ _ Hshape) as (Hlen & Hseq & Hqual).
  destruct (np_array_2d_rows _ _ _ _ Hseq) as [Hs2d _].
  destruct (np_array_2d_rows _ _ _ _ Hqual) as [Hq2d Hqrows].
  eexists. eexists. split; [reflexivity|]. split.
  - unfold cFastFisherFlattening.
    destruct (Z.eqb_spec (Z.of_nat (length (R0 :: rest))) 1) as [E|_].
    { cbn [length] in E, Hn. lia. }
    unfold cRecListTo2DCharArray, quals_2d. rewrite Hs2d, Hq2d. cbn [Py.bind].
    rewrite Nat2Z.id, Hqrows. cbn [negb]. f_equal.
    match goal with
    | |- _ = (_ ++ _ ++ _ ++ (?c ++ ?t) ++ ?r)%string =>
        rewrite (str_append_assoc c t r)
    end.
    reflexivity.
  - unfold cFisherFlatten. cbn [Seq Qual Agree].
    rewrite !length_map, length_zrange, Nat2Z.id. repeat split.
    apply Forall_map, Forall_forall. intros i _. apply eliminate_underflow_positive.
Qed.

End FisherRecord.

Lemma cFastFisherFlattening_returns_witness :
  exists record,
    @cFastFisherFlattening numerics_example family_concordant_example None = Some record.
Proof.
  destruct (@cFastFisherFlattening_returns numerics_example (fq "AAAA" "????")
              [fq "AAAA" "????"; fq "AAAA" "????"; fq "AAAT" "???+"] None)
    as (ret & qs & _ & H & _); [reflexivity|simpl; lia|].
  eexists. exact H.
Defined.
